(** * sfa_tracker2: a shallow embedding of the show tracker script

    The development follows [src/sfa_tracker2.py]: the episode-code matcher
    ([EP_PATTERNS], [extract_episode_code]), the HTTP retry loop
    ([request_json]), the search client ([fetch_search_posts]), the history
    store ([ensure_history_header], [append_history]) and the selectors
    ([pick_trailer], [pick_other_posts]); then the configuration lists,
    [episode_posts], [write_csv] and the exports of [main], the series of
    [make_plots] and the rows of the dashboard.

    Text.  A Python [str] is modelled as a list of code points in the
    Latin-1 range U+0000..U+00FF (Rocq's 8-bit [ascii]); this is exactly the
    range of an HTTP header value as [requests] hands it over, and the
    character classes below are Python's on that range.  Code points above
    U+00FF are outside the model.

    Integers.  A Python [int] is unbounded: [Z].

    Effects.  The requests sent and the seconds slept are threaded through
    a state-and-exception monad; the history file lives in a map from paths
    to contents.  Calls to [logging] are not modelled.

    The outside.  The remote end is a function from the number of requests
    sent so far and the request to a response; a decoded search response is read
    at the shape the search endpoint gives it (a list of children with
    textual and numeric fields); the calendar conversion of [datetime] is
    a parameter. *)

From Stdlib Require Import Ascii String DecimalString.
From Stdlib Require Import ZArith Lia Bool Arith List.
From Stdlib Require Import Floats.SpecFloat.
From Stdlib Require Import Sorting.Sorted Sorting.Permutation.
Import ListNotations.

Local Open Scope Z_scope.

(* ================================================================== *)
(** * Python text *)
(* ================================================================== *)

Definition text := list ascii.

(** A literal. *)
Definition txt (s : string) : text := list_ascii_of_string s.

Definition code (c : ascii) : nat := nat_of_ascii c.

Definition in_range (lo hi : nat) (c : ascii) : bool :=
  (Nat.leb lo (code c) && Nat.leb (code c) hi)%bool.

Definition ascii_eqb (a b : ascii) : bool := Ascii.eqb a b.

Fixpoint text_eqb (a b : text) : bool :=
  match a, b with
  | [], [] => true
  | x :: a', y :: b' => ascii_eqb x y && text_eqb a' b'
  | _, _ => false
  end.

(** [bool(s)] of a string: non-empty. *)
Definition truthy (s : text) : bool :=
  match s with [] => false | _ :: _ => true end.

(** [x or d] where [x] is a string or [None]. *)
Definition or_default (x : option text) (d : text) : text :=
  match x with
  | Some s => if truthy s then s else d
  | None => d
  end.

(** ** Character classes (Python 3 on U+0000..U+00FF) *)

(** [0-9]: the decimal digits, regex [\d]. *)
Definition is_decimal (c : ascii) : bool := in_range 48 57 c.

(** [str.isdigit] on one character: the decimal digits and the superscripts
    U+00B2, U+00B3, U+00B9. *)
Definition char_isdigit (c : ascii) : bool :=
  is_decimal c || Nat.eqb (code c) 178 || Nat.eqb (code c) 179
  || Nat.eqb (code c) 185.

(** [str.isspace] on one character, regex [\s]. *)
Definition is_space (c : ascii) : bool :=
  in_range 9 13 c || in_range 28 32 c || Nat.eqb (code c) 133
  || Nat.eqb (code c) 160.

Definition is_upper_ascii (c : ascii) : bool := in_range 65 90 c.
Definition is_lower_ascii (c : ascii) : bool := in_range 97 122 c.

(** Regex [\w]: alphanumeric (in the sense of [str.isalnum]) or underscore. *)
Definition is_word (c : ascii) : bool :=
  is_decimal c || is_upper_ascii c || is_lower_ascii c
  || Nat.eqb (code c) 95
  || Nat.eqb (code c) 170 || Nat.eqb (code c) 178 || Nat.eqb (code c) 179
  || Nat.eqb (code c) 181 || Nat.eqb (code c) 185 || Nat.eqb (code c) 186
  || in_range 188 190 c || in_range 192 214 c || in_range 216 246 c
  || in_range 248 255 c.

(** [str.lower] on one character: A-Z, and U+00C0..U+00DE except U+00D7. *)
Definition lower_char (c : ascii) : ascii :=
  if is_upper_ascii c || in_range 192 214 c || in_range 216 222 c
  then ascii_of_nat (code c + 32)
  else c.

(** [s.lower()] *)
Definition lower (s : text) : text := map lower_char s.

(** [s.isdigit()] *)
Definition isdigit (s : text) : bool := truthy s && forallb char_isdigit s.

(** ** Substrings *)

Fixpoint starts_with (p s : text) : bool :=
  match p, s with
  | [], _ => true
  | a :: p', b :: s' => ascii_eqb a b && starts_with p' s'
  | _ :: _, [] => false
  end.

(** [sub in s] *)
Fixpoint contains (sub s : text) : bool :=
  starts_with sub s ||
  match s with
  | [] => false
  | _ :: s' => contains sub s'
  end.

(** [s.find(sub) != -1] *)
Definition found (sub s : text) : bool := contains sub s.

Fixpoint lstrip_by (drop : ascii -> bool) (s : text) : text :=
  match s with
  | c :: s' => if drop c then lstrip_by drop s' else s
  | [] => []
  end.

Definition strip_by (drop : ascii -> bool) (s : text) : text :=
  rev (lstrip_by drop (rev (lstrip_by drop s))).

(** [s.strip()] *)
Definition strip (s : text) : text := strip_by is_space s.

(** [s.strip(chars)] *)
Definition strip_chars (chars s : text) : text :=
  strip_by (fun c => existsb (ascii_eqb c) chars) s.

(** ** [int(s)] and integer formatting *)

Definition digit_val (c : ascii) : Z := Z.of_nat (code c) - 48.

(** The digits of an integer literal: decimal digits, single underscores
    allowed between two digits.  [seen] tells whether the previous
    character was a digit. *)
Fixpoint int_digits (acc : Z) (seen : bool) (s : text) : option Z :=
  match s with
  | [] => if seen then Some acc else None
  | c :: s' =>
      if is_decimal c then int_digits (10 * acc + digit_val c) true s'
      else if Nat.eqb (code c) 95 && seen
      then match s' with
           | d :: _ => if is_decimal d then int_digits acc false s' else None
           | [] => None
           end
      else None
  end.

(** The blanks [int] strips: [\t\n\v\f\r], space, U+0085 and U+00A0. *)
Definition int_blank (c : ascii) : bool :=
  in_range 9 13 c || Nat.eqb (code c) 32 || Nat.eqb (code c) 133
  || Nat.eqb (code c) 160.

(** [int(s)] for a string [s]; [None] stands for [ValueError]. *)
Definition py_int (s : text) : option Z :=
  match strip_by int_blank s with
  | c :: s' =>
      if Nat.eqb (code c) 43 then int_digits 0 false s'
      else if Nat.eqb (code c) 45 then option_map Z.opp (int_digits 0 false s')
      else int_digits 0 false (c :: s')
  | [] => None
  end.

(** [str(n)], also [f"{n}"] and [f"{n:d}"]. *)
Definition py_str (n : Z) : text :=
  list_ascii_of_string (NilZero.string_of_int (Z.to_int n)).

(** [f"{n:02d}"]: zero-padded to width 2.  A rendering shorter than two
    characters is a single digit, so the padding goes in front. *)
Definition fmt_02d (n : Z) : text :=
  let s := py_str n in
  if Nat.ltb (length s) 2 then txt "0" ++ s else s.

(* ================================================================== *)
(** * Errors *)
(* ================================================================== *)

(** The exceptions the modelled code raises. *)
Inductive exn : Type :=
| RuntimeError (msg : text)
| ValueError (msg : text)        (* raised by the script itself *)
| InvalidLiteral (s : text)      (* the ValueError of [int(s)] *)
| JSONDecodeError                (* of [r.json()] *)
| HTTPError (status : Z).        (* of [r.raise_for_status()] *)

(** [isinstance(e, ValueError)]: the JSON decoder's error is a subclass. *)
Definition is_ValueError (e : exn) : bool :=
  match e with
  | ValueError _ | InvalidLiteral _ | JSONDecodeError => true
  | _ => false
  end.

Inductive result (A : Type) : Type :=
| Ok (a : A)
| Raise (e : exn).
Arguments Ok {A} a.
Arguments Raise {A} e.

(** [int(s)] as a computation. *)
Definition int_of (s : text) : result Z :=
  match py_int s with
  | Some n => Ok n
  | None => Raise (InvalidLiteral s)
  end.

(* ================================================================== *)
(** * Regular expressions *)
(* ================================================================== *)

(** The fragment of [re] that [EP_PATTERNS] uses.  Quantifiers apply to
    one-character classes only, which is all the three patterns need. *)
Inductive regex : Type :=
| Class (c : ascii -> bool)                         (* [..], \d, \s, a literal *)
| Boundary                                          (* \b *)
| Cat (r1 r2 : regex)                               (* r1 r2 *)
| Alt (r1 r2 : regex)                               (* r1|r2 *)
| Rep (c : ascii -> bool) (lo : nat) (hi : option nat)  (* c{lo,hi}, greedy *)
| Group (i : nat) (r : regex).                      (* i-th (...) *)

(** Captured groups, latest first. *)
Definition captures := list (nat * text).

(** [m.group(i)] *)
Fixpoint group (m : captures) (i : nat) : text :=
  match m with
  | [] => []
  | (j, s) :: m' => if Nat.eqb i j then s else group m' i
  end.

Definition is_word_at (c : option ascii) : bool :=
  match c with Some a => is_word a | None => false end.

(** A matcher continues with the character before the cursor, the rest of
    the subject and the groups captured so far. *)
Definition cont := option ascii -> text -> captures -> option captures.

Definition hi_open (hi : option nat) : bool :=
  match hi with Some O => false | _ => true end.

(** Greedy repetition of a class: take one more character when allowed,
    and fall back to stopping here when the rest fails. *)
Fixpoint rep_match (c : ascii -> bool) (lo : nat) (hi : option nat)
    (prev : option ascii) (s : text) (caps : captures) (k : cont)
    {struct s} : option captures :=
  let stop := if Nat.eqb lo 0 then k prev s caps else None in
  match s with
  | ch :: s' =>
      if c ch && hi_open hi then
        match rep_match c (Nat.pred lo) (option_map Nat.pred hi)
                (Some ch) s' caps k with
        | Some m => Some m
        | None => stop
        end
      else stop
  | [] => stop
  end.

(** Backtracking match at the cursor, in the order [re] tries things:
    alternatives left to right, repetitions longest first. *)
Fixpoint re_match (r : regex) (prev : option ascii) (s : text)
    (caps : captures) (k : cont) {struct r} : option captures :=
  match r with
  | Class c =>
      match s with
      | ch :: s' => if c ch then k (Some ch) s' caps else None
      | [] => None
      end
  | Boundary =>
      if xorb (is_word_at prev) (is_word_at (hd_error s))
      then k prev s caps else None
  | Cat r1 r2 =>
      re_match r1 prev s caps (fun p' s' c' => re_match r2 p' s' c' k)
  | Alt r1 r2 =>
      match re_match r1 prev s caps k with
      | Some m => Some m
      | None => re_match r2 prev s caps k
      end
  | Rep c lo hi => rep_match c lo hi prev s caps k
  | Group i r1 =>
      re_match r1 prev s caps
        (fun p' s' c' =>
           k p' s' ((i, firstn (length s - length s') s) :: c'))
  end.

Definition accept : cont := fun _ _ caps => Some caps.

(** [pat.search(t)] from a cursor: the leftmost position with a match. *)
Fixpoint search_from (r : regex) (prev : option ascii) (s : text)
    : option captures :=
  match re_match r prev s [] accept with
  | Some m => Some m
  | None =>
      match s with
      | [] => None
      | ch :: s' => search_from r (Some ch) s'
      end
  end.

(** A compiled pattern: its source, as [pat.pattern] returns it, and its
    program.  [re.IGNORECASE] is compiled into the literal classes. *)
Record Pattern : Type := {
  pattern : text;
  prog : regex
}.

(** [pat.search(t)] *)
Definition search (pat : Pattern) (t : text) : option captures :=
  search_from (prog pat) None t.

(** A set of characters, [[xX]]. *)
Definition one_of (s : string) : regex :=
  Class (fun c => existsb (ascii_eqb c) (txt s)).

(** A literal letter, and a literal word, under [re.IGNORECASE]. *)
Definition chr_i (a : ascii) : regex :=
  Class (fun c => ascii_eqb (lower_char c) (lower_char a)).

Fixpoint lit_i (s : text) : regex :=
  match s with
  | [] => Rep (fun _ => false) 0 (Some O)
  | [a] => chr_i a
  | a :: s' => Cat (chr_i a) (lit_i s')
  end.
(** [\d{1,2}] and [\s*]. *)
Definition digits_1_2 : regex := Rep is_decimal 1 (Some 2%nat).

Definition spaces : regex := Rep is_space 0 None.

Declare Scope regex_scope.
Delimit Scope regex_scope with re.
Infix ">>>" := Cat (at level 41, right associativity) : regex_scope.

(* ================================================================== *)
(** * Episode parsing *)
(* ================================================================== *)

(** 1x01, 1X02, 10x3:  \b(\d{1,2})\s*[xX]\s*(\d{1,2})\b *)
Definition pat_x : Pattern := {|
  pattern := txt "\b(\d{1,2})\s*[xX]\s*(\d{1,2})\b";
  prog := (Boundary >>> Group 1 digits_1_2 >>> spaces >>> one_of "xX" >>> spaces
           >>> Group 2 digits_1_2 >>> Boundary)%re
|}.

(** S01E01, s1e2:  \b[Ss](\d{1,2})\s*[Ee](\d{1,2})\b *)
Definition pat_se : Pattern := {|
  pattern := txt "\b[Ss](\d{1,2})\s*[Ee](\d{1,2})\b";
  prog := (Boundary >>> one_of "Ss" >>> Group 1 digits_1_2 >>> spaces
           >>> one_of "Ee" >>> Group 2 digits_1_2 >>> Boundary)%re
|}.

(** "Episode 3", "Ep 3", "Ep. 3":  \b(?:episode|ep)\.?\s*(\d{1,2})\b
    with re.IGNORECASE *)
Definition pat_ep : Pattern := {|
  pattern := txt "\b(?:episode|ep)\.?\s*(\d{1,2})\b";
  prog := (Boundary >>> Alt (lit_i (txt "episode")) (lit_i (txt "ep"))
           >>> Rep (ascii_eqb ".") 0 (Some 1%nat) >>> spaces
           >>> Group 1 digits_1_2 >>> Boundary)%re
|}.

Definition EP_PATTERNS : list Pattern := [pat_x; pat_se; pat_ep].

(** The test that picks the season/episode branch:
    [pat.pattern.lower().find("[xX]") != -1 or "Ss" in pat.pattern
     or "Ee" in pat.pattern]. *)
Definition season_form (pat : Pattern) : bool :=
  found (txt "[xX]") (lower (pattern pat))
  || contains (txt "Ss") (pattern pat)
  || contains (txt "Ee") (pattern pat).

(** The body of the loop once [pat] matched with [m]. *)
Definition episode_code_of (pat : Pattern) (m : captures)
    : result (option text) :=
  if season_form pat then
    match int_of (group m 1) with
    | Raise e => Raise e
    | Ok season =>
        match int_of (group m 2) with
        | Raise e => Raise e
        | Ok ep => Ok (Some (py_str season ++ txt "x" ++ fmt_02d ep))
        end
    end
  else
    match int_of (group m 1) with
    | Raise e => Raise e
    | Ok ep_only => Ok (Some (txt "E" ++ fmt_02d ep_only))
    end.

Fixpoint extract_loop (pats : list Pattern) (t : text)
    : result (option text) :=
  match pats with
  | [] => Ok None
  | pat :: rest =>
      match search pat t with
      | None => extract_loop rest t
      | Some m => episode_code_of pat m
      end
  end.

Definition extract_episode_code (title : text) : result (option text) :=
  extract_loop EP_PATTERNS title.

(** [looks_like_trailer], over the show configuration. *)
Definition TRAILER_KEYWORDS : list text :=
  [txt "official trailer"; txt "teaser trailer"; txt "trailer"; txt "teaser"].

Definition dquote : text := [ascii_of_nat 34].

Definition looks_like_trailer (SHOW_NAME : text) (QUERY_TERMS : list text)
    (title : text) : bool :=
  let t := lower title in
  let show_hit :=
    contains (lower SHOW_NAME) t
    || existsb (fun q => contains (lower (strip_chars dquote q)) t)
         (filter truthy QUERY_TERMS) in
  if negb show_hit then false
  else existsb (fun k => contains k t) TRAILER_KEYWORDS.

(** [norm_spaces]: [re.sub(r"\s+", " ", s).strip()].  [in_run] tells
    whether the previous character was already a blank. *)
Fixpoint sub_spaces (in_run : bool) (s : text) : text :=
  match s with
  | [] => []
  | c :: s' =>
      if is_space c
      then if in_run then sub_spaces true s'
           else " "%char :: sub_spaces true s'
      else c :: sub_spaces false s'
  end.

Definition norm_spaces (s : text) : text := strip (sub_spaces false s).

(* ================================================================== *)
(** * Data model *)
(* ================================================================== *)

Record Post : Type := {
  id : text;
  name : text;
  subreddit : text;
  created_utc : Z;
  created_iso : text;
  title : text;
  permalink : text;
  url : text;
  author : text;
  score : Z;
  num_comments : Z;
  episode_code : option text;
  is_trailer : bool
}.

(** [bool(p.episode_code)]: an [Optional[str]] is true when it is a
    non-empty string. *)
Definition has_episode_code (p : Post) : bool :=
  match episode_code p with
  | Some s => truthy s
  | None => false
  end.

(** ** Decoded JSON values, as far as [safe_int] looks at them *)

Inductive jvalue : Type :=
| JNone                      (* null, or the key is absent *)
| JBool (b : bool)
| JInt (n : Z)
| JFloat (f : spec_float)
| JStr (s : text)
| JOther.                    (* a list or an object *)

(** [int(f)] of a float truncates toward zero; infinities and NaN raise. *)
Definition float_trunc (f : spec_float) : option Z :=
  match f with
  | S754_zero _ => Some 0
  | S754_infinity _ | S754_nan => None
  | S754_finite s m e =>
      let v := if 0 <=? e then Zpos m * 2 ^ e else Zpos m / 2 ^ (- e) in
      Some (if s then - v else v)
  end.

(** [safe_int(x, default)]: [int(x)], and [default] on any exception. *)
Definition safe_int (x : jvalue) (default : Z) : Z :=
  match x with
  | JInt n => n
  | JBool b => if b then 1 else 0
  | JFloat f => match float_trunc f with Some n => n | None => default end
  | JStr s => match py_int s with Some n => n | None => default end
  | JNone | JOther => default
  end.

(** One element of [children], through its ["data"] object: what
    [d.get(key)] returns for the keys the script reads.  The textual
    fields are strings or [None] (absent or null), as the search endpoint
    sends them; a child without ["data"] has every field [None]. *)
Record child : Type := {
  d_id : option text;
  d_name : option text;
  d_subreddit : option text;
  d_created_utc : jvalue;
  d_title : option text;
  d_permalink : option text;
  d_url : option text;
  d_author : option text;
  d_score : jvalue;
  d_num_comments : jvalue
}.

(** The decoded body of a search response, through
    [(data.get("data") or {}).get("children") or []]. *)
Definition listing := list child.

(* ================================================================== *)
(** * HTTP helpers *)
(* ================================================================== *)

Record request : Type := {
  req_url : text;
  req_q : text
}.

(** What the script reads of a response.  [body] is [r.json()]: [None]
    when the body does not decode. *)
Record response (J : Type) : Type := {
  status_code : Z;
  retry_after : option text;      (* r.headers.get("Retry-After") *)
  content_type : option text;     (* r.headers.get("Content-Type") *)
  final_url : text;               (* r.url *)
  body : option J
}.
Arguments status_code {J} r.
Arguments retry_after {J} r.
Arguments content_type {J} r.
Arguments final_url {J} r.
Arguments body {J} r.

(** The observable effects of a run: the requests sent and the seconds
    slept, both latest first. *)
Record world : Type := {
  sent : list request;
  slept : list Z
}.

Definition world0 : world := {| sent := []; slept := [] |}.

(** Computations with effects on the world that may raise. *)
Definition M (A : Type) : Type := world -> result A * world.

Definition ret {A} (a : A) : M A := fun w => (Ok a, w).
Definition raise {A} (e : exn) : M A := fun w => (Raise e, w).
Definition bind {A B} (c : M A) (f : A -> M B) : M B :=
  fun w =>
    match c w with
    | (Ok a, w') => f a w'
    | (Raise e, w') => (Raise e, w')
    end.
Definition lift {A} (r : result A) : M A := fun w => (r, w).

Notation "x <- c ;; k" := (bind c (fun x => k))
  (at level 61, c at next level, right associativity).
Notation "c ;;; k" := (bind c (fun _ => k))
  (at level 61, right associativity).

(** [time.sleep(wait)] *)
Definition sleep (wait : Z) : M unit :=
  fun w => (Ok tt, {| sent := sent w; slept := wait :: slept w |}).

Section Http.

Variable J : Type.

(** The remote end: the answer to a request, given how many requests
    were sent before it.  A request always gets a response; transport
    failures are outside the model. *)
Variable server : nat -> request -> response J.

(** [session.get(url, params=params, timeout=30, allow_redirects=True)] *)
Definition session_get (rq : request) : M (response J) :=
  fun w => (Ok (server (length (sent w)) rq),
            {| sent := rq :: sent w; slept := slept w |}).

(** [r.raise_for_status()] *)
Definition raise_for_status (r : response J) : M unit :=
  if (400 <=? status_code r) && (status_code r <? 600)
  then raise (HTTPError (status_code r))
  else ret tt.

(** [r.json()] *)
Definition r_json (r : response J) : M J :=
  match body r with
  | Some j => ret j
  | None => raise JSONDecodeError
  end.

(** [min(60, 2 ** attempt)]; the loop counts attempts from 1. *)
Definition backoff (attempt : Z) : Z := Z.min 60 (2 ^ attempt).

(** [int(retry_after) if retry_after and retry_after.isdigit()
     else min(60, 2 ** attempt)] *)
Definition wait_429 (r : response J) (attempt : Z) : M Z :=
  match retry_after r with
  | Some ra =>
      if truthy ra && isdigit ra then lift (int_of ra)
      else ret (backoff attempt)
  | None => ret (backoff attempt)
  end.

Definition is_5xx (st : Z) : bool := (500 <=? st) && (st <? 600).

(** What follows the two retry tests in the loop body. *)
Definition deliver (r : response J) : M J :=
  raise_for_status r ;;;
  let ct := lower (or_default (content_type r) []) in
  if negb (contains (txt "json") ct)
  then raise (ValueError (txt "Expected JSON but got Content-Type=" ++ ct
                          ++ txt ". Final URL: " ++ final_url r))
  else r_json r.

(** The [for attempt in range(1, max_retries + 1)] loop with [n]
    iterations left, and the [raise] after it. *)
Fixpoint retry_loop (rq : request) (n : nat) (attempt : Z) : M J :=
  match n with
  | O => raise (RuntimeError
                  (txt "Failed after retries (rate-limited or server errors)."))
  | S n' =>
      r <- session_get rq ;;
      if status_code r =? 429 then
        wait <- wait_429 r attempt ;;
        sleep wait ;;;
        retry_loop rq n' (attempt + 1)
      else if is_5xx (status_code r) then
        sleep (backoff attempt) ;;;
        retry_loop rq n' (attempt + 1)
      else deliver r
  end.

Definition request_json (rq : request) (max_retries : Z) : M J :=
  retry_loop rq (Z.to_nat max_retries) 1.

End Http.

Arguments session_get {J} server rq.
Arguments raise_for_status {J} r.
Arguments r_json {J} r.
Arguments wait_429 {J} r attempt.
Arguments deliver {J} r.
Arguments retry_loop {J} server rq n attempt.
Arguments request_json {J} server rq max_retries.

(* ================================================================== *)
(** * Sorting *)
(* ================================================================== *)

(** [sorted(l, key=key, reverse=True)] and [l.sort(key=key, reverse=True)]:
    descending by key, and stable: elements with equal keys keep their
    original order.  [key_lt] is [<] on keys. *)
Section Sorted_reverse.

Context {A K : Type}.
Variable key_lt : K -> K -> bool.
Variable key : A -> K.

Fixpoint insert_desc (x : A) (l : list A) : list A :=
  match l with
  | [] => [x]
  | y :: l' =>
      if key_lt (key x) (key y) then y :: insert_desc x l'
      else x :: y :: l'
  end.

Fixpoint sorted_reverse (l : list A) : list A :=
  match l with
  | [] => []
  | x :: l' => insert_desc x (sorted_reverse l')
  end.

End Sorted_reverse.

(** [<] on pairs of integers, as Python compares tuples. *)
Definition pair_ltb (a b : Z * Z) : bool :=
  (fst a <? fst b) || ((fst a =? fst b) && (snd a <? snd b)).

(** [l[:n]] *)
Definition slice_to {A} (l : list A) (n : Z) : list A :=
  if 0 <=? n then firstn (Z.to_nat n) l
  else firstn (length l - Z.to_nat (- n)) l.

(* ================================================================== *)
(** * Reddit fetch *)
(* ================================================================== *)

Fixpoint mem (x : text) (l : list text) : bool :=
  match l with
  | [] => false
  | y :: l' => text_eqb x y || mem x l'
  end.

(** A [for] loop over a list with an accumulator, in [result] and in [M]. *)
Fixpoint for_each_r {A S} (f : S -> A -> result S) (l : list A) (s : S)
    : result S :=
  match l with
  | [] => Ok s
  | a :: l' =>
      match f s a with
      | Ok s' => for_each_r f l' s'
      | Raise e => Raise e
      end
  end.

Fixpoint for_each {A S} (f : S -> A -> M S) (l : list A) (s : S) : M S :=
  match l with
  | [] => ret s
  | a :: l' => s' <- f s a ;; for_each f l' s'
  end.

Section Fetch.

(** The show configuration, read from the environment at import. *)
Variable SHOW_NAME : text.
Variable SUBREDDITS : list text.
Variable QUERY_TERMS : list text.

(** [datetime.fromtimestamp(ts, tz=timezone.utc).isoformat()], which
    raises for a timestamp out of the calendar's range. *)
Variable isoformat_utc : Z -> result text.

Variable server : nat -> request -> response listing.

(** The [Post(...)] built for a child with identifier [pid] found while
    searching subreddit [sr]. *)
Definition make_post (sr pid : text) (d : child) : result Post :=
  let created := safe_int (d_created_utc d) 0 in
  match (if created =? 0 then Ok [] else isoformat_utc created) with
  | Raise e => Raise e
  | Ok iso =>
      let title0 := or_default (d_title d) [] in
      match extract_episode_code title0 with
      | Raise e => Raise e
      | Ok ep =>
          let trailer := looks_like_trailer SHOW_NAME QUERY_TERMS title0 in
          Ok {| id := pid;
                name := or_default (d_name d) (txt "t3_" ++ pid);
                subreddit := or_default (d_subreddit d) sr;
                created_utc := created;
                created_iso := iso;
                title := norm_spaces title0;
                permalink := txt "https://www.reddit.com"
                             ++ or_default (d_permalink d) [];
                url := or_default (d_url d) [];
                author := or_default (d_author d) [];
                score := safe_int (d_score d) 0;
                num_comments := safe_int (d_num_comments d) 0;
                episode_code := ep;
                is_trailer := trailer |}
      end
  end.

(** [not pid or pid in seen_ids] *)
Definition skipped (seen_ids : list text) (d : child) : bool :=
  match d_id d with
  | Some pid => negb (truthy pid) || mem pid seen_ids
  | None => true
  end.

(** The body of [for ch in children]; the accumulator is
    [(posts, seen_ids)]. *)
Definition visit_child (sr : text) (acc : list Post * list text)
    (d : child) : result (list Post * list text) :=
  if skipped (snd acc) d then Ok acc
  else
    let pid := or_default (d_id d) [] in
    match make_post sr pid d with
    | Raise e => Raise e
    | Ok p => Ok (fst acc ++ [p], pid :: snd acc)
    end.

Definition search_request (sr term : text) : request :=
  {| req_url := txt "https://www.reddit.com/r/" ++ sr ++ txt "/search.json";
     req_q := term |}.

(** The two nested loops: per subreddit, per query term. *)
Definition fetch_loops : M (list Post * list text) :=
  for_each
    (fun acc sr =>
       for_each
         (fun acc term =>
            data <- request_json server (search_request sr term) 5 ;;
            lift (for_each_r (visit_child sr) data acc))
         QUERY_TERMS acc)
    SUBREDDITS ([], []).

Definition fetch_search_posts : M (list Post) :=
  acc <- fetch_loops ;;
  ret (sorted_reverse Z.ltb created_utc (fst acc)).

End Fetch.

(* ================================================================== *)
(** * CSV writers *)
(* ================================================================== *)

Definition comma : ascii := ","%char.
Definition quotechar : ascii := ascii_of_nat 34.
Definition CR : ascii := ascii_of_nat 13.
Definition LF : ascii := ascii_of_nat 10.
Definition lineterminator : text := [CR; LF].

(** The excel dialect with QUOTE_MINIMAL: a field is quoted when it holds
    the delimiter, the quote character or a character of the line
    terminator; quote characters inside are doubled. *)
Definition special (c : ascii) : bool :=
  ascii_eqb c comma || ascii_eqb c quotechar || ascii_eqb c CR
  || ascii_eqb c LF.

Definition double_quotes (s : text) : text :=
  flat_map (fun c => if ascii_eqb c quotechar then [quotechar; quotechar]
                     else [c]) s.

Definition csv_field (s : text) : text :=
  if existsb special s then quotechar :: double_quotes s ++ [quotechar]
  else double_quotes s.

Fixpoint join (sep : text) (l : list text) : text :=
  match l with
  | [] => []
  | [x] => x
  | x :: l' => x ++ sep ++ join sep l'
  end.

(** [csv.writer.writerow]: a record that would be empty (one empty field)
    is written as a pair of quotes. *)
Definition csv_writerow (fields : list text) : text :=
  let rec := join [comma] (map csv_field fields) in
  (match rec, fields with
   | [], _ :: _ => [quotechar; quotechar]
   | _, _ => rec
   end) ++ lineterminator.

(** A value handed to the writer: a string, or an integer written through
    [str]. *)
Inductive cell : Type :=
| CStr (s : text)
| CInt (n : Z).

Definition cell_text (c : cell) : text :=
  match c with
  | CStr s => s
  | CInt n => py_str n
  end.

Definition HISTORY_FIELDS : list text :=
  [txt "snapshot_utc"; txt "post_id"; txt "post_name"; txt "subreddit";
   txt "episode_code"; txt "is_episode"; txt "is_trailer";
   txt "title"; txt "permalink"; txt "num_comments"].

(** The dictionary [append_history] writes for a post, in the order of
    [HISTORY_FIELDS]. *)
Definition history_row (snapshot_utc : text) (p : Post) : list cell :=
  [CStr snapshot_utc;
   CStr (id p);
   CStr (name p);
   CStr (subreddit p);
   CStr (or_default (episode_code p) []);
   CInt (if has_episode_code p then 1 else 0);
   CInt (if is_trailer p then 1 else 0);
   CStr (title p);
   CStr (permalink p);
   CInt (num_comments p)].

(** [DictWriter.writerow] *)
Definition dict_writerow (row : list cell) : text :=
  csv_writerow (map cell_text row).

(** [DictWriter.writeheader] *)
Definition writeheader (fieldnames : list text) : text :=
  csv_writerow fieldnames.

(** The files of a run: a path has a content, or does not exist. *)
Definition files := text -> option text.

(** [open(path, "w")] then writing [s]. *)
Definition write_file (path s : text) (fs : files) : files :=
  fun q => if text_eqb q path then Some s else fs q.

(** [open(path, "a")] then writing [s]: the file is created when absent. *)
Definition append_file (path s : text) (fs : files) : files :=
  fun q =>
    if text_eqb q path
    then Some (match fs path with Some old => old ++ s | None => s end)
    else fs q.

Section History.

Variable COMMENT_HISTORY_CSV : text.

Definition ensure_history_header (path : text) (fs : files) : files :=
  match fs path with
  | Some _ => fs
  | None => write_file path (writeheader HISTORY_FIELDS) fs
  end.

Definition append_history (snapshot_utc : text) (posts : list Post)
    (fs : files) : files :=
  let fs1 := ensure_history_header COMMENT_HISTORY_CSV fs in
  append_file COMMENT_HISTORY_CSV
    (concat (map (fun p => dict_writerow (history_row snapshot_utc p)) posts))
    fs1.

End History.

(* ================================================================== *)
(** * Selection logic *)
(* ================================================================== *)

Definition rank (p : Post) : Z * Z := (num_comments p, score p).

Definition pick_trailer (posts : list Post) : option Post :=
  let trailers := filter is_trailer posts in
  match trailers with
  | [] => None
  | _ :: _ => hd_error (sorted_reverse pair_ltb rank trailers)
  end.

(** [not p.episode_code and not p.is_trailer] *)
Definition candidate (p : Post) : bool :=
  negb (has_episode_code p) && negb (is_trailer p).

Definition pick_other_posts (posts : list Post) (n : Z) : list Post :=
  let candidates := filter candidate posts in
  let candidates := sorted_reverse pair_ltb rank candidates in
  slice_to candidates n.

(** ** Reading the records back

    The state machine of [csv.reader] for the excel dialect, fed with the
    text of the file: fields separated by commas, records ended by CR, LF
    or CR LF, quoted fields with doubled quote characters.  The script
    reads the history through it ([csv.DictReader] in [make_plots]); here
    it states what the written rows carry. *)

Inductive mode : Type :=
| START_RECORD
| START_FIELD
| IN_FIELD
| IN_QUOTED_FIELD
| QUOTE_IN_QUOTED_FIELD
| EAT_CRNL.

(** The field and the record being read are kept reversed, as are the
    records read so far. *)
Record reader : Type := {
  r_mode : mode;
  r_field : text;
  r_fields : list text;
  r_records : list (list text)
}.

Definition reader0 : reader :=
  {| r_mode := START_RECORD; r_field := []; r_fields := []; r_records := [] |}.

Definition set_mode (m : mode) (st : reader) : reader :=
  {| r_mode := m; r_field := r_field st; r_fields := r_fields st;
     r_records := r_records st |}.

Definition add_char (m : mode) (c : ascii) (st : reader) : reader :=
  {| r_mode := m; r_field := c :: r_field st; r_fields := r_fields st;
     r_records := r_records st |}.

Definition save_field (st : reader) : reader :=
  {| r_mode := START_FIELD; r_field := [];
     r_fields := rev (r_field st) :: r_fields st;
     r_records := r_records st |}.

(** The record is complete; [m] is [EAT_CRNL] after a CR, which a LF may
    follow, and [START_RECORD] after a LF. *)
Definition end_record (m : mode) (st : reader) : reader :=
  {| r_mode := m; r_field := []; r_fields := [];
     r_records := rev (rev (r_field st) :: r_fields st) :: r_records st |}.

(** An empty line is a record without fields. *)
Definition empty_record (m : mode) (st : reader) : reader :=
  {| r_mode := m; r_field := []; r_fields := [];
     r_records := [] :: r_records st |}.

Definition field_end (c : ascii) (st : reader) : option reader :=
  if ascii_eqb c comma then Some (save_field st)
  else if ascii_eqb c CR then Some (end_record EAT_CRNL st)
  else if ascii_eqb c LF then Some (end_record START_RECORD st)
  else None.

Definition start_field (c : ascii) (st : reader) : reader :=
  if ascii_eqb c quotechar then set_mode IN_QUOTED_FIELD st
  else match field_end c st with
       | Some st' => st'
       | None => add_char IN_FIELD c st
       end.

Definition start_record (c : ascii) (st : reader) : reader :=
  if ascii_eqb c CR then empty_record EAT_CRNL st
  else if ascii_eqb c LF then empty_record START_RECORD st
  else start_field c st.

Definition read_char (st : reader) (c : ascii) : reader :=
  match r_mode st with
  | START_RECORD => start_record c st
  | START_FIELD => start_field c st
  | EAT_CRNL =>
      if ascii_eqb c LF then set_mode START_RECORD st else start_record c st
  | IN_FIELD =>
      match field_end c st with
      | Some st' => st'
      | None => add_char IN_FIELD c st
      end
  | IN_QUOTED_FIELD =>
      if ascii_eqb c quotechar then set_mode QUOTE_IN_QUOTED_FIELD st
      else add_char IN_QUOTED_FIELD c st
  | QUOTE_IN_QUOTED_FIELD =>
      if ascii_eqb c quotechar then add_char IN_QUOTED_FIELD c st
      else match field_end c st with
           | Some st' => st'
           | None => add_char IN_FIELD c st
           end
  end.

(** At the end of the text a record under way is complete. *)
Definition read_end (st : reader) : list (list text) :=
  rev (match r_mode st with
       | START_RECORD | EAT_CRNL => r_records st
       | _ => rev (rev (r_field st) :: r_fields st) :: r_records st
       end).

Definition csv_read (s : text) : list (list text) :=
  read_end (fold_left read_char s reader0).

(** The reader stands before a record, with [out] read before it. *)
Definition before_record (out : list (list text)) : reader :=
  {| r_mode := START_RECORD; r_field := []; r_fields := []; r_records := out |}.

(** The reader stands before a field that follows a comma, with [row] read
    of the current record. *)
Definition before_field (row : list text) (out : list (list text)) : reader :=
  {| r_mode := START_FIELD; r_field := []; r_fields := row; r_records := out |}.

(** The reader has read field [f] and waits for what ends it. *)
Definition pending (f : text) (row : list text) (out : list (list text))
    (st : reader) : Prop :=
  r_field st = rev f /\ r_fields st = row /\ r_records st = out /\
  (r_mode st = IN_FIELD \/ r_mode st = QUOTE_IN_QUOTED_FIELD \/
   (r_mode st = START_FIELD /\ f = [])).



(* ================================================================== *)
(** * Vocabulary of the statements *)
(* ================================================================== *)

(** ** Matching *)

(** The character before the cursor after reading [taken]. *)
Definition last_char (prev : option ascii) (taken : text) : option ascii :=
  fold_left (fun _ c => Some c) taken prev.

(** One or two decimal digits. *)
Definition digits12 (ds : text) : Prop :=
  forallb is_decimal ds = true /\ (1 <= length ds <= 2)%nat.

(** The matcher found a match. *)
Definition succeeds (o : option captures) : Prop := exists m, o = Some m.

(** ** The retry loop *)

Definition retryable {J} (r : response J) : bool :=
  (status_code r =? 429) || is_5xx (status_code r).

(** The seconds the loop sleeps after a retryable response, when the
    header lets it compute them. *)
Definition wait_of {J} (r : response J) (attempt : Z) : option Z :=
  if status_code r =? 429 then
    match retry_after r with
    | Some ra => if truthy ra && isdigit ra then py_int ra
                 else Some (backoff attempt)
    | None => Some (backoff attempt)
    end
  else Some (backoff attempt).

(** The world after [n] more requests [rq] and the sleeps [waits]. *)
Definition after (rq : request) (w : world) (n : nat) (waits : list Z)
    : world :=
  {| sent := repeat rq n ++ sent w; slept := rev waits ++ slept w |}.

(** The first [k] responses from [w] on are retryable, and [waits] are
    the seconds slept after them, counting attempts from [attempt]. *)
Definition retried {J} (server : nat -> request -> response J) (rq : request)
    (w : world) (attempt : Z) (k : nat) (waits : list Z) : Prop :=
  length waits = k /\
  forall i, (i < k)%nat ->
    let r := server (length (sent w) + i)%nat rq in
    retryable r = true /\
    wait_of r (attempt + Z.of_nat i) = Some (nth i waits 0).

(** The sentence of the specification about 2xx responses, in its two
    halves, read on a response and the outcome of the call: a ValueError
    is raised exactly when the content type lacks "json"; and otherwise the
    parsed body is returned. *)
Definition raises_ValueError_iff_not_json {J} (r : response J)
    (out : result J) : Prop :=
  (exists e, out = Raise e /\ is_ValueError e = true) <->
  contains (txt "json") (lower (or_default (content_type r) [])) = false.

Definition returns_body_if_json {J} (r : response J) (out : result J)
    : Prop :=
  contains (txt "json") (lower (or_default (content_type r) [])) = true ->
  exists j, body r = Some j /\ out = Ok j.

(** ** Orders *)

(** [x] may stand before [y] in a descending order. *)
Definition may_precede {A K} (key_lt : K -> K -> bool) (key : A -> K)
    (x y : A) : Prop :=
  key_lt (key x) (key y) = false.

Definition with_key {A K} (key_eqb : K -> K -> bool) (key : A -> K) (k : K)
    (x : A) : bool :=
  key_eqb (key x) k.

(** The lexicographic order on pairs. *)
Definition lex_le (a b : Z * Z) : Prop :=
  fst a < fst b \/ (fst a = fst b /\ snd a <= snd b).

(** Ranked in descending order: whoever comes first ranks at least as
    high. *)
Definition ranked (l : list Post) : Prop :=
  StronglySorted (fun p q => lex_le (rank q) (rank p)) l.

Definition newest_first (l : list Post) : Prop :=
  StronglySorted (fun p q => created_utc q <= created_utc p) l.

Definition created_at (t : Z) (p : Post) : bool := created_utc p =? t.

(** ** The search *)

(** The children the run looks at, in iteration order, each with the
    subreddit it was found under: the same requests as [fetch_loops], only
    collecting what comes back. *)
Definition searched_children (SUBREDDITS QUERY_TERMS : list text)
    (server : nat -> request -> response listing)
    : M (list (text * child)) :=
  for_each
    (fun acc sr =>
       for_each
         (fun acc term =>
            data <- request_json server (search_request sr term) 5 ;;
            ret (acc ++ map (pair sr) data))
         QUERY_TERMS acc)
    SUBREDDITS [].

(** [(sr, d)] is the first child of [vs] with identifier [pid]. *)
Definition first_at (vs : list (text * child)) (pid sr : text) (d : child)
    : Prop :=
  exists before after,
    vs = before ++ (sr, d) :: after /\ d_id d = Some pid /\
    forall v, In v before -> d_id (snd v) <> Some pid.

(** What holds of the accumulator [(posts, seen_ids)] after visiting
    [vs]. *)
Definition visited (make : text -> text -> child -> result Post)
    (vs : list (text * child)) (acc : list Post * list text) : Prop :=
  map id (fst acc) = rev (snd acc) /\
  NoDup (snd acc) /\
  (forall p, In p (fst acc) ->
     id p <> [] /\
     exists sr d, first_at vs (id p) sr d /\ make sr (id p) d = Ok p) /\
  (forall v pid, In v vs -> d_id (snd v) = Some pid -> pid <> [] ->
     In pid (snd acc)).

(** The fetch order does not show in the result: two orders of the
    subreddits that find the same posts return them in the same order. *)
Definition fetch_order_hidden (run : list text -> result (list Post))
    : Prop :=
  forall subs subs' l l',
    Permutation subs subs' -> run subs = Ok l -> run subs' = Ok l' ->
    Permutation l l' -> l = l'.

(** ** Reading *)

Definition run (s : text) (st : reader) : reader := fold_left read_char s st.

(* ================================================================== *)
(** * Sample data *)
(* ================================================================== *)

(** U+00B2, SUPERSCRIPT TWO. *)
Definition superscript_two : text := [ascii_of_nat 178].

Definition rq_demo : request := {| req_url := txt "u"; req_q := txt "q" |}.

Definition rate_limited (ra : option text) : response nat :=
  {| status_code := 429; retry_after := ra; content_type := None;
     final_url := txt "u"; body := None |}.

Definition undecodable : response nat :=
  {| status_code := 200; retry_after := None;
     content_type := Some (txt "application/json");
     final_url := txt "u"; body := None |}.

Definition json_ok : response nat :=
  {| status_code := 200; retry_after := None;
     content_type := Some (txt "Application/JSON; charset=utf-8");
     final_url := txt "u"; body := Some 7%nat |}.

Definition found_child (pid : option text) (created : Z) (ttl : text) : child :=
  {| d_id := pid; d_name := None; d_subreddit := Some (txt "television");
     d_created_utc := JInt created; d_title := Some ttl;
     d_permalink := None; d_url := None; d_author := None;
     d_score := JInt 1; d_num_comments := JInt 2 |}.

Definition listing_response (l : listing) : response listing :=
  {| status_code := 200; retry_after := None;
     content_type := Some (txt "application/json; charset=UTF-8");
     final_url := txt "https://www.reddit.com/search.json";
     body := Some l |}.

(** Subreddit [a] returns x, a child without id, y and x again; every
    other subreddit returns z and y. *)
Definition two_subreddits : nat -> request -> response listing :=
  fun _ rq =>
    if contains (txt "/r/a/") (req_url rq)
    then listing_response
           [found_child (Some (txt "x")) 5 (txt "Show S01E02 discussion");
            found_child None 8 (txt "no id");
            found_child (Some (txt "y")) 9 (txt "Show trailer");
            found_child (Some (txt "x")) 7 (txt "again")]
    else listing_response
           [found_child (Some (txt "z")) 5 (txt "Show news");
            found_child (Some (txt "y")) 9 (txt "Show trailer")].

Definition iso_stub : Z -> result text :=
  fun _ => Ok (txt "2026-01-01T00:00:00+00:00").

Definition demo_fetch (subs : list text) : result (list Post) * world :=
  fetch_search_posts (txt "Show") subs [txt "Show"] iso_stub two_subreddits
    world0.

Definition demo_posts : list Post :=
  match fst (demo_fetch [txt "a"; txt "b"]) with
  | Ok l => l
  | Raise _ => []
  end.

Definition sample_post (pid : text) (comments points : Z) (trailer : bool)
    : Post :=
  {| id := pid; name := txt "t3_" ++ pid; subreddit := txt "television";
     created_utc := 0; created_iso := []; title := txt "Show, renewed";
     permalink := txt "https://www.reddit.com/r/television/"; url := [];
     author := txt "someone"; score := points; num_comments := comments;
     episode_code := None; is_trailer := trailer |}.

Definition three_posts : list Post :=
  [sample_post (txt "a") 3 1 false; sample_post (txt "b") 5 1 false;
   sample_post (txt "c") 5 9 false].

(* ================================================================== *)
(** * The rest of the script *)
(* ================================================================== *)

From Stdlib Require DecimalPos.

(** ** Show configuration *)

(** [s.split(sep)] for a one-character separator: the pieces between the
    separators, empty pieces included. *)
Fixpoint split_char (sep : ascii) (s : text) : list text :=
  match s with
  | [] => [[]]
  | c :: s' =>
      if ascii_eqb c sep then [] :: split_char sep s'
      else match split_char sep s' with
           | piece :: pieces => (c :: piece) :: pieces
           | [] => [[c]]
           end
  end.

(** [[s.strip() for s in raw.split(",") if s.strip()]] where [raw] is the
    stripped value of the environment variable: how SUBREDDITS and
    QUERY_TERMS are read. *)
Definition comma_list (value : text) : list text :=
  flat_map (fun s => if truthy (strip s) then [strip s] else [])
    (split_char comma (strip value)).

(** ** Ascending sorts *)

(** [l.sort(key=key)] and [sorted(l, key=key)]: ascending by key, stable. *)
Section Sorted_by.

Context {A K : Type}.
Variable key_lt : K -> K -> bool.
Variable key : A -> K.

Fixpoint insert_asc (x : A) (l : list A) : list A :=
  match l with
  | [] => [x]
  | y :: l' =>
      if key_lt (key y) (key x) then y :: insert_asc x l'
      else x :: y :: l'
  end.

Fixpoint sorted_by (l : list A) : list A :=
  match l with
  | [] => []
  | x :: l' => insert_asc x (sorted_by l')
  end.

End Sorted_by.

(** [<] on strings: by code points, a proper prefix first. *)
Fixpoint text_ltb (a b : text) : bool :=
  match a, b with
  | _, [] => false
  | [], _ :: _ => true
  | x :: a', y :: b' =>
      Nat.ltb (code x) (code y) || (Nat.eqb (code x) (code y) && text_ltb a' b')
  end.

(** [<] on the tuples [(str, int)]. *)
Definition code_time_ltb (a b : text * Z) : bool :=
  text_ltb (fst a) (fst b) || (text_eqb (fst a) (fst b) && (snd a <? snd b)).

(** The sort key of [episode_posts]: [(p.episode_code or "", p.created_utc)]. *)
Definition episode_key (p : Post) : text * Z :=
  (or_default (episode_code p) [], created_utc p).

Definition episode_posts (posts : list Post) : list Post :=
  let eps := filter has_episode_code posts in
  sorted_by code_time_ltb episode_key eps.

(** ** Writing a CSV file *)

(** A row handed to [csv.DictWriter]: a dictionary from column names to
    values, in insertion order. *)
Definition rowdict := list (text * cell).

Fixpoint dict_get {V} (k : text) (d : list (text * V)) : option V :=
  match d with
  | [] => None
  | (k', v) :: d' => if text_eqb k k' then Some v else dict_get k d'
  end.

(** [rowdict.keys() - fieldnames] *)
Definition wrong_fields (fieldnames : list text) (d : rowdict) : list text :=
  filter (fun k => negb (mem k fieldnames)) (map fst d).

(** [DictWriter._dict_to_list]: the values in the order of [fieldnames], a
    missing key giving the empty [restval]; [None] when the dictionary has
    a key that is no field name, where the writer raises ValueError. *)
Definition dict_to_list (fieldnames : list text) (d : rowdict)
    : option (list text) :=
  match wrong_fields fieldnames d with
  | [] => Some (map (fun k => match dict_get k d with
                              | Some v => cell_text v
                              | None => []
                              end) fieldnames)
  | _ :: _ => None
  end.

(** How [write_csv] ends: normally, or with the ValueError of the row that
    holds keys outside the field names. *)
Inductive written : Type :=
| Written
| FieldsNotInFieldnames (wrong : list text).

(** The rows of the loop [for r in rows: w.writerow(r)], written after
    [content]; what was written before a failing row stays in the file. *)
Fixpoint write_rows (fieldnames : list text) (rows : list rowdict)
    (content : text) : text * written :=
  match rows with
  | [] => (content, Written)
  | r :: rows' =>
      match dict_to_list fieldnames r with
      | Some values =>
          write_rows fieldnames rows' (content ++ csv_writerow values)
      | None => (content, FieldsNotInFieldnames (wrong_fields fieldnames r))
      end
  end.

Definition write_csv (path : text) (rows : list rowdict)
    (fieldnames : list text) (fs : files) : files * written :=
  let '(content, outcome) :=
    write_rows fieldnames rows (writeheader fieldnames) in
  (write_file path content fs, outcome).

(** ** The CSV exports of [main] *)

Definition zero_one (b : bool) : cell := CInt (if b then 1 else 0).

(** The dictionaries of [all_rows], [eps_rows] and [sel_rows]. *)
Definition all_row (p : Post) : rowdict :=
  [(txt "id", CStr (id p));
   (txt "subreddit", CStr (subreddit p));
   (txt "created_utc", CInt (created_utc p));
   (txt "created_iso", CStr (created_iso p));
   (txt "title", CStr (title p));
   (txt "episode_code", CStr (or_default (episode_code p) []));
   (txt "is_trailer", zero_one (is_trailer p));
   (txt "num_comments", CInt (num_comments p));
   (txt "score", CInt (score p));
   (txt "author", CStr (author p));
   (txt "permalink", CStr (permalink p));
   (txt "url", CStr (url p))].

Definition ALL_FIELDS : list text :=
  [txt "id"; txt "subreddit"; txt "created_utc"; txt "created_iso";
   txt "title"; txt "episode_code"; txt "is_trailer"; txt "num_comments";
   txt "score"; txt "author"; txt "permalink"; txt "url"].

Definition eps_row (p : Post) : rowdict :=
  [(txt "episode_code", CStr (or_default (episode_code p) []));
   (txt "subreddit", CStr (subreddit p));
   (txt "id", CStr (id p));
   (txt "created_iso", CStr (created_iso p));
   (txt "title", CStr (title p));
   (txt "num_comments", CInt (num_comments p));
   (txt "score", CInt (score p));
   (txt "permalink", CStr (permalink p))].

Definition EPISODE_FIELDS : list text :=
  [txt "episode_code"; txt "subreddit"; txt "id"; txt "created_iso";
   txt "title"; txt "num_comments"; txt "score"; txt "permalink"].

(** ["Trailer" if p.is_trailer else ("Episode" if p.episode_code else
     "Other")] *)
Definition sel_type (p : Post) : text :=
  if is_trailer p then txt "Trailer"
  else if has_episode_code p then txt "Episode" else txt "Other".

Definition sel_row (p : Post) : rowdict :=
  [(txt "type", CStr (sel_type p));
   (txt "subreddit", CStr (subreddit p));
   (txt "episode_code", CStr (or_default (episode_code p) []));
   (txt "id", CStr (id p));
   (txt "created_iso", CStr (created_iso p));
   (txt "title", CStr (title p));
   (txt "num_comments", CInt (num_comments p));
   (txt "score", CInt (score p));
   (txt "permalink", CStr (permalink p))].

Definition SELECTED_FIELDS : list text :=
  [txt "type"; txt "subreddit"; txt "episode_code"; txt "id";
   txt "created_iso"; txt "title"; txt "num_comments"; txt "score";
   txt "permalink"].

(** [selected]: the trailer, when there is one, then the other posts. *)
Definition selected (posts : list Post) (OTHER_POSTS_N : Z) : list Post :=
  let trailer := pick_trailer posts in
  let others := pick_other_posts posts OTHER_POSTS_N in
  (match trailer with Some t => [t] | None => [] end) ++ others.

(** The field names [main] passes for the all-posts file:
    [list(all_rows[0].keys()) if all_rows else [...]]. *)
Definition all_fieldnames (all_rows : list rowdict) : list text :=
  match all_rows with
  | r :: _ => map fst r
  | [] => ALL_FIELDS
  end.

(** The three exports, in the order [main] writes them. *)
Section Exports.

Variable ALL_POSTS_CSV EPISODE_POSTS_CSV SELECTED_POSTS_CSV : text.
Variable OTHER_POSTS_N : Z.

Definition write_all_posts (posts : list Post) (fs : files)
    : files * written :=
  let all_rows := map all_row posts in
  write_csv ALL_POSTS_CSV all_rows (all_fieldnames all_rows) fs.

Definition write_episode_posts (posts : list Post) (fs : files)
    : files * written :=
  write_csv EPISODE_POSTS_CSV (map eps_row (episode_posts posts))
    EPISODE_FIELDS fs.

Definition write_selected_posts (posts : list Post) (fs : files)
    : files * written :=
  write_csv SELECTED_POSTS_CSV (map sel_row (selected posts OTHER_POSTS_N))
    SELECTED_FIELDS fs.

(** The three calls in a row; an error ends the run. *)
Definition write_exports (posts : list Post) (fs : files) : files * written :=
  let '(fs1, outcome1) := write_all_posts posts fs in
  match outcome1 with
  | Written =>
      let '(fs2, outcome2) := write_episode_posts posts fs1 in
      match outcome2 with
      | Written => write_selected_posts posts fs2
      | FieldsNotInFieldnames _ => (fs2, outcome2)
      end
  | FieldsNotInFieldnames _ => (fs1, outcome1)
  end.

End Exports.

(** ** Reading the history back: the data of [make_plots] *)

(** A row of [csv.DictReader]: the assignments [d[key] = value], latest
    first, so that [dict_get] finds the value a key has last been given.
    A value is a string, or [None] where the record was shorter than the
    header.  Fields beyond the header go under the key [None], which the
    script never reads; they are left out. *)
Definition hrow := list (text * option text).

Definition dict_row (fieldnames record : list text) : hrow :=
  rev (map (fun k => (k, None)) (skipn (length record) fieldnames))
  ++ rev (combine fieldnames (map Some record)).

(** The rows a [DictReader] yields for the records of a file: the first
    record is the header, empty records after it are skipped. *)
Definition dict_reader (records : list (list text)) : list hrow :=
  match records with
  | [] => []
  | fieldnames :: rest =>
      map (dict_row fieldnames)
        (filter (fun r => match r with [] => false | _ :: _ => true end) rest)
  end.

(** [row[key]]: [None] stands for KeyError. *)
Definition getitem (key : text) (row : hrow) : option (option text) :=
  dict_get key row.

(** [row.get(key)] *)
Definition get (key : text) (row : hrow) : option text :=
  match dict_get key row with
  | Some v => v
  | None => None
  end.

(** A point of a series: [(dt, num_comments, row)]. *)
Definition point : Type := Z * Z * hrow.

Definition point_time (x : point) : Z := fst (fst x).
Definition point_count (x : point) : Z := snd (fst x).
Definition point_row (x : point) : hrow := snd x.

(** [by_post]: the series per post name, in the order the names first
    occur.  A name is [None] when the record had no such field. *)
Definition by_post_t := list (option text * list point).

Definition name_eqb (a b : option text) : bool :=
  match a, b with
  | Some x, Some y => text_eqb x y
  | None, None => true
  | _, _ => false
  end.

(** [by_post.setdefault(post_name, []).append(x)] *)
Fixpoint setdefault_append (post_name : option text) (x : point)
    (by_post : by_post_t) : by_post_t :=
  match by_post with
  | [] => [(post_name, [x])]
  | (k, series) :: rest =>
      if name_eqb post_name k then (k, series ++ [x]) :: rest
      else (k, series) :: setdefault_append post_name x rest
  end.

Section Plots.

(** [parse_dt]: [datetime.fromisoformat(s)], and [None] when it raises.
    A time is the instant it denotes; every snapshot the script writes
    carries the UTC offset.  Ordering a time without offset against one
    with an offset, which raises TypeError, is outside the model. *)
Variable parse_dt : text -> option Z.

Definition parse_dt_value (v : option text) : option Z :=
  match v with
  | Some s => parse_dt s
  | None => None
  end.

Definition jvalue_of (v : option text) : jvalue :=
  match v with
  | Some s => JStr s
  | None => JNone
  end.

(** The loop that fills [by_post]; [None] stands for the KeyError of a
    column the header does not have. *)
Fixpoint group_rows (history_rows : list hrow) (by_post : by_post_t)
    : option by_post_t :=
  match history_rows with
  | [] => Some by_post
  | row :: rest =>
      match getitem (txt "snapshot_utc") row with
      | None => None
      | Some snapshot =>
          match parse_dt_value snapshot with
          | None => group_rows rest by_post
          | Some dt =>
              match getitem (txt "post_name") row with
              | None => None
              | Some post_name =>
                  match getitem (txt "num_comments") row with
                  | None => None
                  | Some n =>
                      let num_comments := safe_int (jvalue_of n) 0 in
                      group_rows rest
                        (setdefault_append post_name (dt, num_comments, row)
                           by_post)
                  end
              end
          end
      end
  end.

(** [by_post[k].sort(key=lambda x: x[0])] for every key. *)
Definition sort_series (by_post : by_post_t) : by_post_t :=
  map (fun '(k, series) => (k, sorted_by Z.ltb point_time series)) by_post.

(** A line handed to [plt.plot]: its label, the times and the counts.
    The label of a non-episode line ends in an ellipsis, U+2026, when the
    title was cut; [cut] tells so, the character being outside the text
    of this model. *)
Record line : Type := {
  label : option text;
  cut : bool;
  xs : list Z;
  ys : list Z
}.

(** [series[0][2].get("is_episode") == "1"] *)
Definition first_is_episode (series : list point) : bool :=
  match series with
  | first :: _ =>
      match get (txt "is_episode") (point_row first) with
      | Some v => text_eqb v (txt "1")
      | None => false
      end
  | [] => false
  end.

(** [x or d] where both may be [None]. *)
Definition or_name (x : option text) (d : option text) : option text :=
  match x with
  | Some s => if truthy s then Some s else d
  | None => d
  end.

Definition episode_line (post_name : option text) (series : list point)
    : line :=
  {| label :=
       match series with
       | first :: _ =>
           or_name (get (txt "episode_code") (point_row first)) post_name
       | [] => post_name
       end;
     cut := false;
     xs := map point_time series;
     ys := map point_count series |}.

Definition other_line (series : list point) : line :=
  let title :=
    match series with
    | first :: _ => or_default (get (txt "title") (point_row first)) []
    | [] => []
    end in
  {| label := Some (strip (firstn 45 title));
     cut := Nat.ltb 45 (length title);
     xs := map point_time series;
     ys := map point_count series |}.

(** The lines of the episode plot and of the non-episode plot. *)
Definition episode_lines (by_post : by_post_t) : list line :=
  map (fun '(k, series) => episode_line k series)
    (filter (fun '(k, series) => first_is_episode series) by_post).

Definition other_lines (by_post : by_post_t) : list line :=
  map (fun '(k, series) => other_line series)
    (filter (fun '(k, series) => negb (first_is_episode series)) by_post).

(** How [make_plots] ends: without a history file it returns at once;
    a header without one of the columns read makes it raise KeyError;
    otherwise it draws the two plots, saving each one that has a line. *)
Inductive plotted : Type :=
| NoHistory
| KeyError
| Plots (episode other : list line).

Section Make_plots.

Variable COMMENT_HISTORY_CSV : text.

Definition history_series (fs : files) : option (option by_post_t) :=
  match fs COMMENT_HISTORY_CSV with
  | None => None
  | Some content =>
      Some (option_map sort_series
              (group_rows (dict_reader (csv_read content)) []))
  end.

Definition make_plots (fs : files) : plotted :=
  match history_series fs with
  | None => NoHistory
  | Some None => KeyError
  | Some (Some by_post) => Plots (episode_lines by_post) (other_lines by_post)
  end.

End Make_plots.

End Plots.

(** ** The rows of the dashboard *)

(** The type shown for a post: ["Episode" if p.episode_code else
    ("Trailer" if p.is_trailer else "Other")]. *)
Definition kind (p : Post) : text :=
  if has_episode_code p then txt "Episode"
  else if is_trailer p then txt "Trailer" else txt "Other".

(** [row_for], the table row of a post in [write_dashboard_html]; the
    texts of the post go into the page as they are.  The fixed text of
    the page around the tables is not modelled. *)
Definition row_for (p : Post) : text :=
  let ep := or_default (episode_code p) [] in
  [LF]
  ++ txt "        <tr>" ++ [LF]
  ++ txt "          <td>" ++ kind p ++ txt "</td>" ++ [LF]
  ++ txt "          <td>" ++ subreddit p ++ txt "</td>" ++ [LF]
  ++ txt "          <td>" ++ ep ++ txt "</td>" ++ [LF]
  ++ txt "          <td><a href=" ++ dquote ++ permalink p ++ dquote
  ++ txt " target=" ++ dquote ++ txt "_blank" ++ dquote
  ++ txt " rel=" ++ dquote ++ txt "noopener" ++ dquote ++ txt ">"
  ++ title p ++ txt "</a></td>" ++ [LF]
  ++ txt "          <td style=" ++ dquote ++ txt "text-align:right" ++ dquote
  ++ txt ">" ++ py_str (num_comments p) ++ txt "</td>" ++ [LF]
  ++ txt "          <td style=" ++ dquote ++ txt "text-align:right" ++ dquote
  ++ txt ">" ++ py_str (score p) ++ txt "</td>" ++ [LF]
  ++ txt "          <td>" ++ created_iso p ++ txt "</td>" ++ [LF]
  ++ txt "        </tr>" ++ [LF]
  ++ txt "        ".

(* ================================================================== *)
(** * Vocabulary of further statements *)
(* ================================================================== *)

(** ** Blanks *)

(** Every blank of [t] is one space standing between two other
    characters. *)
Definition single_spaced (t : text) : Prop :=
  (forall c, In c t -> is_space c = true -> c = " "%char) /\
  (forall a x y b, t = a ++ x :: y :: b ->
     is_space x = true -> is_space y = false) /\
  (forall c r, t = c :: r -> is_space c = false) /\
  (forall r c, t = r ++ [c] -> is_space c = false).

(** The same, checked from left to right; [prev_blank] tells whether the
    character before was a blank. *)
Fixpoint spaced (prev_blank : bool) (t : text) : bool :=
  match t with
  | [] => true
  | c :: t' =>
      if is_space c
      then ascii_eqb c " "%char && negb prev_blank && spaced true t'
      else spaced false t'
  end.

Definition nonblank (c : ascii) : bool := negb (is_space c).

(** ** Numbers *)

(** The digits of a decimal numeral, as [str] writes them. *)
Definition uint_text (d : Decimal.uint) : text :=
  list_ascii_of_string (NilEmpty.string_of_uint d).

(** What [int] reads once the blanks around the numeral are stripped. *)
Definition int_body (s : text) : option Z :=
  match s with
  | c :: s' =>
      if Nat.eqb (code c) 43 then int_digits 0 false s'
      else if Nat.eqb (code c) 45 then option_map Z.opp (int_digits 0 false s')
      else int_digits 0 false (c :: s')
  | [] => None
  end.

(** ** Titles *)

(** [a] occurs in [t] when the case of letters is ignored. *)
Definition occurs_i (a t : text) : Prop :=
  exists p u q, t = p ++ u ++ q /\ lower u = lower a.

(** ** Configuration values *)

(** A name as it can stand in a comma-separated list: not empty, no blank
    at either end, no comma. *)
Definition list_item (n : text) : Prop :=
  n <> [] /\ strip n = n /\ ~ In comma n.

Definition blanks (s : text) : Prop := forallb is_space s = true.

(** ** More on the retry loop *)

(** [400 <= status < 600], where [raise_for_status] raises. *)
Definition is_error_status (st : Z) : bool := (400 <=? st) && (st <? 600).

Definition not_found : response nat :=
  {| status_code := 404; retry_after := None; content_type := None;
     final_url := txt "u"; body := None |}.

(** ** Orders on posts *)

(** The episode code a post is listed under: [p.episode_code or ""]. *)
Definition code_of (p : Post) : text := or_default (episode_code p) [].

(** [p] may stand before [q] in the episode list: its code is the smaller
    string, or the codes are the same and it is not the younger post. *)
Definition in_episode_order (p q : Post) : Prop :=
  text_ltb (code_of p) (code_of q) = true \/
  (code_of p = code_of q /\ created_utc p <= created_utc q).

Definition code_time_eqb (a b : text * Z) : bool :=
  text_eqb (fst a) (fst b) && (snd a =? snd b).

Definition with_episode (code : option text) (created : Z) : Post :=
  {| id := txt "e"; name := txt "t3_e"; subreddit := txt "television";
     created_utc := created; created_iso := []; title := txt "Show";
     permalink := txt "https://www.reddit.com/r/television/"; url := [];
     author := txt "someone"; score := 1; num_comments := 1;
     episode_code := code; is_trailer := false |}.

(** ** Files *)

(** The record [DictWriter] writes for a dictionary: the values in the
    order of the field names, empty where the key is missing. *)
Definition row_values (fieldnames : list text) (d : rowdict) : list text :=
  map (fun k => match dict_get k d with
                | Some v => cell_text v
                | None => []
                end) fieldnames.

(** The records of a file, as [csv.reader] gives them; [None] when the
    file does not exist. *)
Definition records_of (fs : files) (path : text) : option (list (list text)) :=
  option_map csv_read (fs path).

(** What the three exports hold of a post. *)
Definition all_values (p : Post) : list text :=
  [id p; subreddit p; py_str (created_utc p); created_iso p; title p;
   code_of p; (if is_trailer p then txt "1" else txt "0");
   py_str (num_comments p); py_str (score p); author p; permalink p; url p].

Definition episode_values (p : Post) : list text :=
  [code_of p; subreddit p; id p; created_iso p; title p;
   py_str (num_comments p); py_str (score p); permalink p].

Definition selected_values (p : Post) : list text :=
  [sel_type p; subreddit p; code_of p; id p; created_iso p; title p;
   py_str (num_comments p); py_str (score p); permalink p].

Definition sample_rows : list rowdict :=
  [[(txt "id", CStr (txt "a")); (txt "n", CInt 3)];
   [(txt "n", CInt 4)];
   [(txt "id", CStr (txt "c")); (txt "score", CInt 1)];
   [(txt "id", CStr (txt "d"))]].

(** ** The history *)

(** The series [by_post] holds for a name; empty when it has none. *)
Fixpoint series_at (k : option text) (by_post : by_post_t) : list point :=
  match by_post with
  | [] => []
  | (k', series) :: rest =>
      if name_eqb k k' then series else series_at k rest
  end.

(** The point a row stands for: its name, time and comment count, when
    it has the three columns and a time that parses. *)
Definition point_of (parse_dt : text -> option Z) (row : hrow)
    : option (option text * point) :=
  match getitem (txt "snapshot_utc") row, getitem (txt "post_name") row,
        getitem (txt "num_comments") row with
  | Some snapshot, Some post_name, Some n =>
      match parse_dt_value parse_dt snapshot with
      | Some dt => Some (post_name, (dt, safe_int (jvalue_of n) 0, row))
      | None => None
      end
  | _, _, _ => None
  end.

(** The points of the rows, in the order of the rows; and those of one
    name. *)
Definition points (parse_dt : text -> option Z) (rows : list hrow)
    : list (option text * point) :=
  flat_map (fun row => match point_of parse_dt row with
                       | Some kx => [kx]
                       | None => []
                       end) rows.

Definition points_named (parse_dt : text -> option Z) (k : option text)
    (rows : list hrow) : list point :=
  map snd (filter (fun kx => name_eqb k (fst kx)) (points parse_dt rows)).

(** Every row has the three columns [make_plots] indexes. *)
Definition has_columns (rows : list hrow) : Prop :=
  Forall (fun row => getitem (txt "snapshot_utc") row <> None /\
                     getitem (txt "post_name") row <> None /\
                     getitem (txt "num_comments") row <> None) rows.

Definition oldest_first (series : list point) : Prop :=
  StronglySorted (fun x y => point_time x <= point_time y) series.

(** The runs of the script so far: the snapshot time of each and the
    posts it fetched. *)
Definition runs_t := list (text * list Post).

Definition history_after (COMMENT_HISTORY_CSV : text) (runs : runs_t)
    (fs : files) : files :=
  fold_left (fun fs run => append_history COMMENT_HISTORY_CSV (fst run)
                             (snd run) fs) runs fs.

(** The row [DictReader] gives back for a post written at [snapshot]. *)
Definition history_dict (snapshot : text) (p : Post) : hrow :=
  dict_row HISTORY_FIELDS (map cell_text (history_row snapshot p)).

(** The points recorded for the name [nm], in the order written. *)
Definition recorded (parse_dt : text -> option Z) (nm : text)
    (runs : runs_t) : list point :=
  flat_map
    (fun run =>
       match parse_dt (fst run) with
       | Some dt =>
           map (fun p => (dt, num_comments p, history_dict (fst run) p))
             (filter (fun p => text_eqb nm (name p)) (snd run))
       | None => []
       end) runs.

(** A stand-in for [datetime.fromisoformat] in examples: the time is a
    number of seconds. *)
Definition seconds : text -> option Z := py_int.

Definition small_history : text :=
  txt "post_name,snapshot_utc,num_comments,is_episode" ++ [CR; LF]
  ++ txt "t3_a,20,7,1" ++ [CR; LF]
  ++ txt "t3_b,20,1,0" ++ [CR; LF]
  ++ txt "t3_a,10,5,1" ++ [CR; LF].

Definition two_runs : runs_t :=
  [(txt "10", [sample_post (txt "a") 5 1 false;
               sample_post (txt "b") 1 1 true]);
   (txt "20", [sample_post (txt "a") 7 2 false])].

(** The rows the runs wrote, in order: each post with the snapshot time
    of its run. *)
Definition snapshots (runs : runs_t) : list (text * Post) :=
  flat_map (fun run => map (pair (fst run)) (snd run)) runs.

Definition history_values (sp : text * Post) : list text :=
  map cell_text (history_row (fst sp) (snd sp)).

(** ** Proof steps *)

(** Replace [digit_val] of a literal character by its value. *)
Ltac digit_value :=
  match goal with
  | |- context [digit_val ?c] =>
      let v := eval vm_compute in (digit_val c) in
      change (digit_val c) with v
  end.

(* ================================================================== *)
(** * Facts about text and the matcher *)
(* ================================================================== *)

Lemma ascii_eqb_eq a b : ascii_eqb a b = true <-> a = b.
Proof. apply Ascii.eqb_eq. Qed.

Lemma ascii_eqb_refl a : ascii_eqb a a = true.
Proof. apply ascii_eqb_eq. reflexivity. Qed.

Lemma text_eqb_eq a b : text_eqb a b = true <-> a = b.
Proof.
  revert b. induction a as [|x a IH]; intros [|y b]; simpl;
    try (split; [discriminate|congruence]); [tauto|].
  rewrite andb_true_iff, IH, ascii_eqb_eq.
  split; [intros [-> ->]; reflexivity|intros H; inversion H; auto].
Qed.

Lemma text_eqb_refl a : text_eqb a a = true.
Proof. apply text_eqb_eq. reflexivity. Qed.

Lemma truthy_nonempty s : truthy s = true <-> s <> [].
Proof. destruct s; simpl; split; congruence. Qed.

Lemma decimal_cases (d : ascii) :
  is_decimal d = true -> In d (txt "0123456789").
Proof.
  destruct d as [[] [] [] [] [] [] [] []]; vm_compute; intros H;
    try discriminate H; tauto.
Qed.

Lemma decimal_is_word d : is_decimal d = true -> is_word d = true.
Proof. unfold is_word. intros ->. reflexivity. Qed.

Lemma digits_word ds :
  forallb is_decimal ds = true -> forallb is_word ds = true.
Proof.
  induction ds as [|d ds IH]; simpl; auto. intros H.
  apply andb_prop in H. destruct H as [Hd Hs].
  rewrite (decimal_is_word _ Hd). auto.
Qed.

Lemma digits12_nonempty ds : digits12 ds -> ds <> [].
Proof. intros [_ [H _]] ->. simpl in H. lia. Qed.

Lemma digits12_of c ds :
  forallb c ds = true -> c = is_decimal ->
  (1 <= length ds)%nat ->
  (forall h, Some 2%nat = Some h -> (length ds <= h)%nat) ->
  digits12 ds.
Proof. intros H -> Hlo Hhi. split; auto. Qed.

(** One or two decimal digits always convert, to a number below 100. *)
Lemma digits12_int ds :
  digits12 ds -> exists n, py_int ds = Some n /\ 0 <= n <= 99.
Proof.
  intros [Hd [Hlo Hhi]].
  destruct ds as [|a [|b [|c ds]]]; simpl in Hlo, Hhi; try lia.
  - simpl in Hd. rewrite andb_true_r in Hd. apply decimal_cases in Hd.
    simpl in Hd.
    repeat (destruct Hd as [<-|Hd];
            [eexists; split; [vm_compute; reflexivity|lia]|]).
    contradiction.
  - simpl in Hd. rewrite andb_true_r in Hd. apply andb_prop in Hd.
    destruct Hd as [Ha Hb]. apply decimal_cases in Ha, Hb. simpl in Ha, Hb.
    repeat (destruct Ha as [<-|Ha];
      [repeat (destruct Hb as [<-|Hb];
               [eexists; split; [vm_compute; reflexivity|lia]|]);
       contradiction|]).
    contradiction.
Qed.


Lemma firstn_taken {A} (taken rest : list A) :
  firstn (length (taken ++ rest) - length rest) (taken ++ rest) = taken.
Proof.
  rewrite length_app, Nat.add_sub.
  rewrite firstn_app, Nat.sub_diag, firstn_all. simpl.
  apply app_nil_r.
Qed.

Lemma last_char_word prev kw :
  kw <> [] -> forallb is_word kw = true ->
  is_word_at (last_char prev kw) = true.
Proof.
  revert prev. induction kw as [|a kw IH]; [congruence|].
  intros prev _ H. simpl in H. apply andb_prop in H. destruct H as [Ha Hk].
  destruct kw as [|b kw]; [exact Ha|].
  apply (IH (Some a)); [congruence|exact Hk].
Qed.

Lemma boundary_after_word prev s :
  is_word_at prev = true ->
  xorb (is_word_at prev) (is_word_at (hd_error s)) = true ->
  is_word_at (hd_error s) = false.
Proof. intros ->. destruct (is_word_at (hd_error s)); auto. Qed.

Lemma boundary_before_word prev s :
  is_word_at (hd_error s) = true ->
  xorb (is_word_at prev) (is_word_at (hd_error s)) = true ->
  is_word_at prev = false.
Proof. intros ->. destruct (is_word_at prev); auto. Qed.

(** ** What a successful match tells, constructor by constructor *)

Lemma rep_match_inv c lo hi prev s caps k m :
  rep_match c lo hi prev s caps k = Some m ->
  exists taken rest,
    s = taken ++ rest /\ forallb c taken = true /\
    (lo <= length taken)%nat /\
    (forall h, hi = Some h -> (length taken <= h)%nat) /\
    k (last_char prev taken) rest caps = Some m.
Proof.
  revert lo hi prev.
  induction s as [|ch s IH]; intros lo hi prev H; simpl in H.
  - destruct (Nat.eqb_spec lo 0); [|discriminate].
    exists [], []. subst. repeat split; auto. intros; simpl; lia.
  - assert (Hstop :
      (if Nat.eqb lo 0 then k prev (ch :: s) caps else None) = Some m ->
      exists taken rest,
        ch :: s = taken ++ rest /\ forallb c taken = true /\
        (lo <= length taken)%nat /\
        (forall h, hi = Some h -> (length taken <= h)%nat) /\
        k (last_char prev taken) rest caps = Some m).
    { intros Hs. destruct (Nat.eqb_spec lo 0); [|discriminate].
      exists [], (ch :: s). subst. repeat split; auto. intros; simpl; lia. }
    destruct (c ch && hi_open hi) eqn:E; [|auto].
    destruct (rep_match c (Nat.pred lo) (option_map Nat.pred hi) (Some ch)
                s caps k) eqn:R; [|auto].
    inversion H; subst; clear H.
    apply IH in R. destruct R as (taken & rest & -> & Hc & Hlo & Hhi & Hk).
    apply andb_prop in E. destruct E as [Ec Eh].
    exists (ch :: taken), rest. simpl. rewrite Ec, Hc. repeat split; auto.
    + lia.
    + intros h ->. simpl in Eh. destruct h; [discriminate|].
      specialize (Hhi h eq_refl). lia.
Qed.

Lemma cat_eq r1 r2 prev s caps k :
  re_match (Cat r1 r2) prev s caps k =
  re_match r1 prev s caps (fun p' s' c' => re_match r2 p' s' c' k).
Proof. reflexivity. Qed.

Lemma class_inv f prev s caps k m :
  re_match (Class f) prev s caps k = Some m ->
  exists ch s', s = ch :: s' /\ f ch = true /\ k (Some ch) s' caps = Some m.
Proof.
  simpl. destruct s as [|ch s']; [discriminate|].
  destruct (f ch) eqn:E; [|discriminate]. eauto.
Qed.

Lemma boundary_inv prev s caps k m :
  re_match Boundary prev s caps k = Some m ->
  xorb (is_word_at prev) (is_word_at (hd_error s)) = true /\
  k prev s caps = Some m.
Proof.
  simpl. destruct (xorb _ _); [auto|discriminate].
Qed.

Lemma alt_inv r1 r2 prev s caps k m :
  re_match (Alt r1 r2) prev s caps k = Some m ->
  re_match r1 prev s caps k = Some m \/ re_match r2 prev s caps k = Some m.
Proof.
  simpl. destruct (re_match r1 prev s caps k); auto.
Qed.

Lemma rep_inv c lo hi prev s caps k m :
  re_match (Rep c lo hi) prev s caps k = Some m ->
  exists taken rest,
    s = taken ++ rest /\ forallb c taken = true /\
    (lo <= length taken)%nat /\
    (forall h, hi = Some h -> (length taken <= h)%nat) /\
    k (last_char prev taken) rest caps = Some m.
Proof. apply rep_match_inv. Qed.

Lemma group_rep_inv i c lo hi prev s caps k m :
  re_match (Group i (Rep c lo hi)) prev s caps k = Some m ->
  exists taken rest,
    s = taken ++ rest /\ forallb c taken = true /\
    (lo <= length taken)%nat /\
    (forall h, hi = Some h -> (length taken <= h)%nat) /\
    k (last_char prev taken) rest ((i, taken) :: caps) = Some m.
Proof.
  simpl. intros H. apply rep_match_inv in H.
  destruct H as (taken & rest & -> & Hc & Hlo & Hhi & Hk).
  rewrite firstn_taken in Hk. eauto 10.
Qed.

Lemma lit_i_inv w : w <> [] -> forall prev s caps k m,
  re_match (lit_i w) prev s caps k = Some m ->
  exists kw rest,
    s = kw ++ rest /\ lower kw = lower w /\
    k (last_char prev kw) rest caps = Some m.
Proof.
  induction w as [|a w IH]; [congruence|]. intros _ prev s caps k m H.
  destruct w as [|b w].
  - apply class_inv in H. destruct H as (ch & s' & -> & Hc & Hk).
    apply ascii_eqb_eq in Hc.
    exists [ch], s'. simpl. rewrite Hc. auto.
  - change (lit_i (a :: b :: w)) with (Cat (chr_i a) (lit_i (b :: w))) in H.
    rewrite cat_eq in H.
    apply class_inv in H. destruct H as (ch & s' & -> & Hc & Hk).
    apply ascii_eqb_eq in Hc.
    apply IH in Hk; [|congruence].
    destruct Hk as (kw & rest & -> & Hl & Hk).
    exists (ch :: kw), rest. simpl. rewrite Hc. simpl in Hl. rewrite Hl. auto.
Qed.

Lemma search_from_inv r prev s m :
  search_from r prev s = Some m ->
  exists pre rest,
    s = pre ++ rest /\
    re_match r (last_char prev pre) rest [] accept = Some m.
Proof.
  revert prev. induction s as [|ch s IH]; intros prev H; simpl in H.
  - destruct (re_match r prev [] [] accept) eqn:E; [|discriminate].
    inversion H; subst. exists [], []. auto.
  - destruct (re_match r prev (ch :: s) [] accept) eqn:E.
    + inversion H; subst. exists [], (ch :: s). auto.
    + apply IH in H. destruct H as (pre & rest & -> & Hm).
      exists (ch :: pre), rest. auto.
Qed.

(** ** What makes a match succeed *)

Lemma alt_ok r1 r2 prev s caps k :
  succeeds (re_match r1 prev s caps k) \/ succeeds (re_match r2 prev s caps k) ->
  succeeds (re_match (Alt r1 r2) prev s caps k).
Proof.
  simpl. destruct (re_match r1 prev s caps k) as [m|].
  - intros _. exists m. reflexivity.
  - intros [[m H]|H]; [discriminate|exact H].
Qed.

Lemma rep_match_ok c k caps taken : forall lo hi prev rest,
  forallb c taken = true ->
  (lo <= length taken)%nat ->
  (forall h, hi = Some h -> (length taken <= h)%nat) ->
  succeeds (k (last_char prev taken) rest caps) ->
  succeeds (rep_match c lo hi prev (taken ++ rest) caps k).
Proof.
  induction taken as [|ch taken IH]; intros lo hi prev rest Hc Hlo Hhi Hk.
  - simpl in Hlo. assert (lo = 0%nat) by lia. subst lo. simpl in Hk.
    destruct rest as [|ch rest]; simpl; [exact Hk|].
    destruct (c ch && hi_open hi); [|exact Hk].
    destruct (rep_match c 0 (option_map Nat.pred hi) (Some ch) rest caps k)
      as [m|]; [exists m; reflexivity|exact Hk].
  - simpl in Hc. apply andb_prop in Hc. destruct Hc as [Hch Hc].
    assert (Ho : hi_open hi = true).
    { destruct hi as [[|h]|]; try reflexivity.
      specialize (Hhi 0%nat eq_refl). simpl in Hhi. lia. }
    cbn [app rep_match]. rewrite Hch, Ho. cbn [andb].
    assert (S : succeeds (rep_match c (Nat.pred lo) (option_map Nat.pred hi)
                            (Some ch) (taken ++ rest) caps k)).
    { apply IH; auto.
      - simpl in Hlo. lia.
      - intros h Hh. destruct hi as [h0|]; [|discriminate].
        simpl in Hh. inversion Hh; subst h.
        specialize (Hhi h0 eq_refl). simpl in Hhi. lia. }
    destruct S as [m Hm]. rewrite Hm. exists m. reflexivity.
Qed.

Lemma lit_i_ok w : w <> [] -> forall kw prev rest caps k,
  lower kw = lower w ->
  succeeds (k (last_char prev kw) rest caps) ->
  succeeds (re_match (lit_i w) prev (kw ++ rest) caps k).
Proof.
  induction w as [|a w IH]; [congruence|]. intros _ kw prev rest caps k Hl Hk.
  destruct kw as [|ch kw]; [discriminate|].
  simpl in Hl. inversion Hl as [[Hch Hrest]].
  destruct w as [|b w].
  - destruct kw; [|discriminate]. simpl.
    unfold ascii_eqb. rewrite Hch, Ascii.eqb_refl. exact Hk.
  - change (lit_i (a :: b :: w)) with (Cat (chr_i a) (lit_i (b :: w))).
    rewrite cat_eq. simpl re_match at 1. cbn [app].
    unfold ascii_eqb. rewrite Hch, Ascii.eqb_refl.
    apply IH; [congruence|exact Hrest|exact Hk].
Qed.

Lemma search_from_ok r pre : forall prev rest,
  succeeds (re_match r (last_char prev pre) rest [] accept) ->
  succeeds (search_from r prev (pre ++ rest)).
Proof.
  induction pre as [|ch pre IH]; intros prev rest H.
  - simpl in H. destruct H as [m H].
    destruct rest; simpl; rewrite H; exists m; reflexivity.
  - cbn [app search_from].
    destruct (re_match r prev (ch :: pre ++ rest) [] accept) as [m|];
      [exists m; reflexivity|].
    apply IH. exact H.
Qed.

Lemma boundary_ok prev s caps k :
  xorb (is_word_at prev) (is_word_at (hd_error s)) = true ->
  succeeds (k prev s caps) ->
  succeeds (re_match Boundary prev s caps k).
Proof. intros H Hk. simpl. rewrite H. exact Hk. Qed.

Lemma rep_ok c lo hi prev taken rest caps k :
  forallb c taken = true ->
  (lo <= length taken)%nat ->
  (forall h, hi = Some h -> (length taken <= h)%nat) ->
  succeeds (k (last_char prev taken) rest caps) ->
  succeeds (re_match (Rep c lo hi) prev (taken ++ rest) caps k).
Proof. apply rep_match_ok. Qed.

Lemma group_rep_ok i c lo hi prev taken rest caps k :
  forallb c taken = true ->
  (lo <= length taken)%nat ->
  (forall h, hi = Some h -> (length taken <= h)%nat) ->
  succeeds (k (last_char prev taken) rest ((i, taken) :: caps)) ->
  succeeds (re_match (Group i (Rep c lo hi)) prev (taken ++ rest) caps k).
Proof.
  intros Hc Hlo Hhi Hk. simpl. apply rep_match_ok; auto.
  rewrite firstn_taken. exact Hk.
Qed.


(** ** Decimal strings and [int] *)

Lemma decimal_plain c :
  is_decimal c = true ->
  int_blank c = false /\ Nat.eqb (code c) 43 = false /\
  Nat.eqb (code c) 45 = false /\ char_isdigit c = true.
Proof.
  destruct c as [[] [] [] [] [] [] [] []]; vm_compute; intros H;
    try discriminate H; auto.
Qed.

Lemma lstrip_by_head drop c s :
  drop c = false -> lstrip_by drop (c :: s) = c :: s.
Proof. intros H. simpl. rewrite H. reflexivity. Qed.

Lemma strip_by_decimal s :
  forallb is_decimal s = true -> strip_by int_blank s = s.
Proof.
  intros H. unfold strip_by.
  assert (L : forall t, forallb is_decimal t = true ->
                        lstrip_by int_blank t = t).
  { intros [|c t] Ht; [reflexivity|]. simpl in Ht. apply andb_prop in Ht.
    apply lstrip_by_head. apply decimal_plain. apply Ht. }
  rewrite (L s H). rewrite L; [apply rev_involutive|].
  rewrite forallb_forall in *. intros x Hx. apply H. apply in_rev. exact Hx.
Qed.

Lemma int_digits_decimal s : forall acc seen,
  forallb is_decimal s = true -> seen = true \/ s <> [] ->
  exists n, int_digits acc seen s = Some n.
Proof.
  induction s as [|c s IH]; intros acc seen H Hs.
  - destruct Hs as [->|Hs]; [simpl; eauto|congruence].
  - simpl in H. apply andb_prop in H. destruct H as [Hc Hrest].
    simpl. rewrite Hc. apply IH; auto.
Qed.

(** [int] accepts every non-empty string of decimal digits. *)
Lemma py_int_decimal s :
  s <> [] -> forallb is_decimal s = true -> exists n, py_int s = Some n.
Proof.
  intros Hne H. unfold py_int. rewrite (strip_by_decimal _ H).
  destruct s as [|c s]; [congruence|].
  pose proof H as H'. simpl in H'. apply andb_prop in H'. destruct H' as [Hc _].
  destruct (decimal_plain _ Hc) as (_ & H43 & H45 & _).
  rewrite H43, H45. apply int_digits_decimal; [exact H|right; discriminate].
Qed.


(** ** The three patterns, read declaratively *)

(** A match of the episode-only pattern at the cursor: the keyword in any
    case, an optional dot, blanks, one or two digits, with a word boundary
    on both sides. *)
Lemma pat_ep_match_inv prev s m :
  re_match (prog pat_ep) prev s [] accept = Some m ->
  exists kw dot ws ds post,
    s = kw ++ dot ++ ws ++ ds ++ post /\
    (lower kw = txt "episode" \/ lower kw = txt "ep") /\
    (dot = [] \/ dot = txt ".") /\
    forallb is_space ws = true /\
    digits12 ds /\
    is_word_at prev = false /\
    is_word_at (hd_error post) = false /\
    m = [(1%nat, ds)].
Proof.
  unfold pat_ep, prog. intros H.
  rewrite cat_eq in H. apply boundary_inv in H. destruct H as [Hb H].
  rewrite cat_eq in H.
  assert (Hkw : exists kw rest,
    s = kw ++ rest /\ (lower kw = txt "episode" \/ lower kw = txt "ep") /\
    re_match (Rep (ascii_eqb ".") 0 (Some 1%nat) >>> spaces
              >>> Group 1 digits_1_2 >>> Boundary)%re
      (last_char prev kw) rest [] accept = Some m).
  { apply alt_inv in H. destruct H as [H|H];
      (apply lit_i_inv in H; [|discriminate]);
      destruct H as (kw & rest & -> & Hl & Hk); exists kw, rest; auto. }
  clear H. destruct Hkw as (kw & rest & -> & Hkw & H).
  rewrite cat_eq in H. apply rep_inv in H.
  destruct H as (dot & rest1 & -> & Hdot & _ & Hdhi & H).
  rewrite cat_eq in H. apply rep_inv in H.
  destruct H as (ws & rest2 & -> & Hws & _ & _ & H).
  rewrite cat_eq in H. apply group_rep_inv in H.
  destruct H as (ds & post & -> & Hds & Hlo & Hhi & H).
  apply boundary_inv in H. destruct H as [Hb2 H].
  unfold accept in H. inversion H; subst m; clear H.
  assert (D : digits12 ds) by (eapply digits12_of; eauto).
  exists kw, dot, ws, ds, post. repeat split; auto; try apply D.
  - specialize (Hdhi 1%nat eq_refl).
    destruct dot as [|a [|b dot]]; simpl in Hdhi; try lia; auto.
    cbn [forallb] in Hdot. rewrite andb_true_r in Hdot.
    apply ascii_eqb_eq in Hdot. subst a. right. reflexivity.
  - eapply boundary_before_word; [|exact Hb].
    destruct kw as [|a kw]; [destruct Hkw; discriminate|].
    simpl.
    assert (Ha : lower_char a = "e"%char)
      by (destruct Hkw as [E|E]; simpl in E; inversion E; auto).
    clear - Ha. destruct a as [[] [] [] [] [] [] [] []]; vm_compute in Ha |- *;
      try discriminate Ha; reflexivity.
  - eapply boundary_after_word; [|exact Hb2].
    apply last_char_word; [apply digits12_nonempty; auto|].
    apply digits_word. apply D.
Qed.

(** The same for the season-x-episode pattern. *)
Lemma pat_x_match_inv prev s m :
  re_match (prog pat_x) prev s [] accept = Some m ->
  exists d1 ws1 x ws2 d2 post,
    s = d1 ++ ws1 ++ x :: ws2 ++ d2 ++ post /\
    digits12 d1 /\ forallb is_space ws1 = true /\
    (x = "x"%char \/ x = "X"%char) /\
    forallb is_space ws2 = true /\ digits12 d2 /\
    is_word_at prev = false /\
    is_word_at (hd_error post) = false /\
    m = [(2%nat, d2); (1%nat, d1)].
Proof.
  unfold pat_x, prog. intros H.
  rewrite cat_eq in H. apply boundary_inv in H. destruct H as [Hb H].
  rewrite cat_eq in H. apply group_rep_inv in H.
  destruct H as (d1 & rest & -> & Hd1 & Hlo1 & Hhi1 & H).
  rewrite cat_eq in H. apply rep_inv in H.
  destruct H as (ws1 & rest1 & -> & Hws1 & _ & _ & H).
  rewrite cat_eq in H. apply class_inv in H.
  destruct H as (x & rest2 & -> & Hx & H).
  rewrite cat_eq in H. apply rep_inv in H.
  destruct H as (ws2 & rest3 & -> & Hws2 & _ & _ & H).
  rewrite cat_eq in H. apply group_rep_inv in H.
  destruct H as (d2 & post & -> & Hd2 & Hlo2 & Hhi2 & H).
  apply boundary_inv in H. destruct H as [Hb2 H].
  unfold accept in H. inversion H; subst m; clear H.
  assert (D1 : digits12 d1) by (eapply digits12_of; eauto).
  assert (D2 : digits12 d2) by (eapply digits12_of; eauto).
  exists d1, ws1, x, ws2, d2, post. repeat split; auto;
    try apply D1; try apply D2.
  - change (ascii_eqb x "x" || (ascii_eqb x "X" || false) = true) in Hx.
    rewrite orb_false_r in Hx. apply orb_prop in Hx.
    destruct Hx as [E|E]; apply ascii_eqb_eq in E; auto.
  - eapply boundary_before_word; [|exact Hb].
    destruct d1 as [|a d1]; [destruct (digits12_nonempty _ D1 eq_refl)|].
    simpl. apply decimal_is_word. destruct D1 as [F _]. simpl in F.
    apply andb_prop in F. apply F.
  - eapply boundary_after_word; [|exact Hb2].
    apply last_char_word; [apply digits12_nonempty; auto|].
    apply digits_word. apply D2.
Qed.

(** And for SnnEnn, as far as the captured digits go. *)
Lemma pat_se_match_inv prev s m :
  re_match (prog pat_se) prev s [] accept = Some m ->
  exists d1 d2, digits12 d1 /\ digits12 d2 /\ m = [(2%nat, d2); (1%nat, d1)].
Proof.
  unfold pat_se, prog. intros H.
  rewrite cat_eq in H. apply boundary_inv in H. destruct H as [_ H].
  rewrite cat_eq in H. apply class_inv in H.
  destruct H as (c1 & r1 & -> & _ & H).
  rewrite cat_eq in H. apply group_rep_inv in H.
  destruct H as (d1 & r2 & -> & Hd1 & Hlo1 & Hhi1 & H).
  rewrite cat_eq in H. apply rep_inv in H.
  destruct H as (ws & r3 & -> & _ & _ & _ & H).
  rewrite cat_eq in H. apply class_inv in H.
  destruct H as (c2 & r4 & -> & _ & H).
  rewrite cat_eq in H. apply group_rep_inv in H.
  destruct H as (d2 & post & -> & Hd2 & Hlo2 & Hhi2 & H).
  apply boundary_inv in H. destruct H as [_ H].
  unfold accept in H. inversion H; subst m.
  exists d1, d2. repeat split; auto; eapply digits12_of; eauto.
Qed.

(* ================================================================== *)
(** * Episode codes *)
(* ================================================================== *)

(** Which branch each pattern takes.  The test lower-cases the pattern's
    source before it looks for the mixed-case text "[xX]", which therefore
    is never found; "Ss" and "Ee" occur in the SnnEnn pattern only. *)
Lemma season_form_pat_x : season_form pat_x = false.
Proof. vm_compute. reflexivity. Qed.

Lemma season_form_pat_se : season_form pat_se = true.
Proof. vm_compute. reflexivity. Qed.

Lemma season_form_pat_ep : season_form pat_ep = false.
Proof. vm_compute. reflexivity. Qed.

(** Whenever the season-x-episode pattern is the one that matches, the
    result is the episode-only form built from the season digits. *)
Lemma extract_season_x_gives_E title m :
  search pat_x title = Some m ->
  exists season,
    py_int (group m 1) = Some season /\ 0 <= season <= 99 /\
    extract_episode_code title = Ok (Some (txt "E" ++ fmt_02d season)).
Proof.
  intros H. pose proof H as Hs. apply search_from_inv in Hs.
  destruct Hs as (pre & rest & _ & Hm). apply pat_x_match_inv in Hm.
  destruct Hm as (d1 & _ & _ & _ & d2 & _ & _ & D1 & _ & _ & _ & D2 & _ & _ & ->).
  destruct (digits12_int _ D1) as (n & Hn & Hr).
  exists n. split; [exact Hn|]. split; [exact Hr|].
  unfold extract_episode_code, EP_PATTERNS. cbn [extract_loop]. rewrite H.
  unfold episode_code_of. rewrite season_form_pat_x.
  unfold int_of. change (group [(2%nat, d2); (1%nat, d1)] 1) with d1.
  rewrite Hn. reflexivity.
Qed.

(** When SnnEnn is the first pattern to match, the result is the season
    form. *)
Lemma extract_season_episode title m :
  search pat_x title = None ->
  search pat_se title = Some m ->
  exists season ep,
    py_int (group m 1) = Some season /\ py_int (group m 2) = Some ep /\
    extract_episode_code title
    = Ok (Some (py_str season ++ txt "x" ++ fmt_02d ep)).
Proof.
  intros Hx H. pose proof H as Hs. apply search_from_inv in Hs.
  destruct Hs as (pre & rest & _ & Hm). apply pat_se_match_inv in Hm.
  destruct Hm as (d1 & d2 & D1 & D2 & ->).
  destruct (digits12_int _ D1) as (n1 & Hn1 & _).
  destruct (digits12_int _ D2) as (n2 & Hn2 & _).
  exists n1, n2.
  change (group [(2%nat, d2); (1%nat, d1)] 1) with d1.
  change (group [(2%nat, d2); (1%nat, d1)] 2) with d2.
  split; [exact Hn1|]. split; [exact Hn2|].
  unfold extract_episode_code, EP_PATTERNS. cbn [extract_loop]. rewrite Hx, H.
  unfold episode_code_of. rewrite season_form_pat_se. unfold int_of.
  change (group [(2%nat, d2); (1%nat, d1)] 1) with d1.
  change (group [(2%nat, d2); (1%nat, d1)] 2) with d2.
  rewrite Hn1, Hn2. reflexivity.
Qed.

(** When only the episode-only pattern matches. *)
Lemma extract_ep_only title m :
  search pat_x title = None ->
  search pat_se title = None ->
  search pat_ep title = Some m ->
  exists pre kw dot ws ds post n,
    title = pre ++ kw ++ dot ++ ws ++ ds ++ post /\
    (lower kw = txt "episode" \/ lower kw = txt "ep") /\
    (dot = [] \/ dot = txt ".") /\
    forallb is_space ws = true /\
    digits12 ds /\ group m 1 = ds /\
    py_int ds = Some n /\ 0 <= n <= 99 /\
    extract_episode_code title = Ok (Some (txt "E" ++ fmt_02d n)).
Proof.
  intros Hx Hse Hep.
  pose proof Hep as H. apply search_from_inv in H.
  destruct H as (pre & rest & -> & H). apply pat_ep_match_inv in H.
  destruct H as (kw & dot & ws & ds & post & -> & Hkw & Hdot & Hws & D & _ & _ & ->).
  destruct (digits12_int _ D) as (n & Hn & Hr).
  exists pre, kw, dot, ws, ds, post, n.
  repeat (split; [assumption || reflexivity|]).
  unfold extract_episode_code, EP_PATTERNS. cbn [extract_loop].
  rewrite Hx, Hse, Hep.
  unfold episode_code_of. rewrite season_form_pat_ep.
  unfold int_of. change (group [(1%nat, ds)] 1) with ds.
  rewrite Hn. reflexivity.
Qed.

(** The extractor never raises: the digits a pattern captures always
    convert. *)
Lemma extract_episode_code_returns title :
  exists r, extract_episode_code title = Ok r.
Proof.
  destruct (search pat_x title) as [m|] eqn:Hx.
  { destruct (extract_season_x_gives_E _ _ Hx) as (n & _ & _ & E). eauto. }
  destruct (search pat_se title) as [m|] eqn:Hse.
  { destruct (extract_season_episode _ _ Hx Hse) as (a & b & _ & _ & E). eauto. }
  destruct (search pat_ep title) as [m|] eqn:Hep.
  { destruct (extract_ep_only _ _ Hx Hse Hep)
      as (? & ? & ? & ? & ? & ? & n & _ & _ & _ & _ & _ & _ & _ & _ & E).
    eauto. }
  exists None. unfold extract_episode_code, EP_PATTERNS. cbn [extract_loop].
  rewrite Hx, Hse, Hep. reflexivity.
Qed.

(** C1 (the code departs from its documentation).  The docstring of
    [extract_episode_code] promises "1x02" for season/episode patterns.
    On the title "1x02", whose first matching pattern is the
    season-x-episode one, the code returns the episode-only identifier
    "E01", made of the season digits: the branch test never recognises
    that pattern. *)
Theorem extract_episode_code_1x02 :
  extract_episode_code (txt "1x02") = Ok (Some (txt "E01")).
Proof. vm_compute. reflexivity. Qed.

(** C2.  The title "S01E02 Discussion" yields the episode code "1x02". *)
Theorem extract_episode_code_S01E02_Discussion :
  extract_episode_code (txt "S01E02 Discussion") = Ok (Some (txt "1x02")).
Proof. vm_compute. reflexivity. Qed.



Example extract_Episode_3 :
  extract_episode_code (txt "Episode 3") = Ok (Some (txt "E03")).
Proof. vm_compute. reflexivity. Qed.

Example extract_Ep_3 :
  extract_episode_code (txt "Ep 3") = Ok (Some (txt "E03")).
Proof. vm_compute. reflexivity. Qed.

Example extract_Ep_dot_12 :
  extract_episode_code (txt "EP. 12") = Ok (Some (txt "E12")).
Proof. vm_compute. reflexivity. Qed.

Example extract_3X05 :
  extract_episode_code (txt "Rewatch 3X05 thread") = Ok (Some (txt "E03")).
Proof. vm_compute. reflexivity. Qed.

Example extract_nothing :
  extract_episode_code (txt "Season finale thoughts") = Ok None.
Proof. vm_compute. reflexivity. Qed.

(** A title that holds the keyword, an optional dot, blanks and one or two
    digits between word boundaries is matched by the episode-only
    pattern. *)
Lemma search_pat_ep_finds pre kw dot ws ds post :
  (lower kw = txt "episode" \/ lower kw = txt "ep") ->
  (dot = [] \/ dot = txt ".") ->
  forallb is_space ws = true ->
  digits12 ds ->
  is_word_at (last_char None pre) = false ->
  is_word_at (hd_error post) = false ->
  exists m, search pat_ep (pre ++ kw ++ dot ++ ws ++ ds ++ post) = Some m.
Proof.
  intros Hkw Hdot Hws D Hb1 Hb2.
  apply search_from_ok. unfold pat_ep, prog.
  assert (Hhead : is_word_at (hd_error (kw ++ dot ++ ws ++ ds ++ post)) = true).
  { destruct kw as [|a kw]; [destruct Hkw; discriminate|]. simpl.
    assert (Ha : lower_char a = "e"%char)
      by (destruct Hkw as [E|E]; simpl in E; inversion E; auto).
    clear - Ha. destruct a as [[] [] [] [] [] [] [] []]; vm_compute in Ha |- *;
      try discriminate Ha; reflexivity. }
  rewrite cat_eq. apply boundary_ok; [rewrite Hb1, Hhead; reflexivity|].
  cbv beta. rewrite cat_eq.
  assert (Tail : forall prev caps,
    succeeds (re_match
                (Rep (ascii_eqb ".") 0 (Some 1%nat) >>> spaces
                 >>> Group 1 digits_1_2 >>> Boundary)%re
                prev (dot ++ ws ++ ds ++ post) caps accept)).
  { intros prev caps. rewrite cat_eq. apply rep_ok.
    - destruct Hdot as [->| ->]; reflexivity.
    - lia.
    - intros h Hh. inversion Hh. destruct Hdot as [->| ->]; simpl; lia.
    - cbv beta. rewrite cat_eq. apply rep_ok; [exact Hws|lia| |].
      + intros h Hh. discriminate Hh.
      + cbv beta. rewrite cat_eq. apply group_rep_ok.
        * apply D.
        * apply D.
        * intros h Hh. inversion Hh. apply D.
        * cbv beta. apply boundary_ok.
          -- rewrite Hb2.
             rewrite last_char_word;
               [|apply digits12_nonempty; exact D|apply digits_word; apply D].
             reflexivity.
          -- unfold accept. eexists. reflexivity. }
  apply alt_ok. destruct Hkw as [Hk|Hk].
  - left. apply lit_i_ok; [discriminate|exact Hk|apply Tail].
  - right. apply lit_i_ok; [discriminate|exact Hk|apply Tail].
Qed.

Example search_finds_Ep_dot_3 :
  exists m, search pat_ep (txt "Recap: " ++ txt "Ep" ++ txt "." ++ txt " "
                            ++ txt "3" ++ txt " tonight") = Some m.
Proof.
  apply search_pat_ep_finds; try (vm_compute; tauto).
  split; [reflexivity|simpl; lia].
Qed.

(** So a title that holds such an occurrence, and that neither of the two
    season patterns matches, gets an episode-only identifier: "E" and the
    two-digit number of its leftmost occurrence. *)
Lemma episode_only_title pre kw dot ws ds post :
  (lower kw = txt "episode" \/ lower kw = txt "ep") ->
  (dot = [] \/ dot = txt ".") ->
  forallb is_space ws = true ->
  digits12 ds ->
  is_word_at (last_char None pre) = false ->
  is_word_at (hd_error post) = false ->
  search pat_x (pre ++ kw ++ dot ++ ws ++ ds ++ post) = None ->
  search pat_se (pre ++ kw ++ dot ++ ws ++ ds ++ post) = None ->
  exists n,
    0 <= n <= 99 /\
    extract_episode_code (pre ++ kw ++ dot ++ ws ++ ds ++ post)
    = Ok (Some (txt "E" ++ fmt_02d n)).
Proof.
  intros Hkw Hdot Hws D Hb1 Hb2 Hx Hse.
  destruct (search_pat_ep_finds pre kw dot ws ds post Hkw Hdot Hws D Hb1 Hb2)
    as [m Hm].
  destruct (extract_ep_only _ _ Hx Hse Hm)
    as (? & ? & ? & ? & ? & ? & n & _ & _ & _ & _ & _ & _ & _ & Hr & E).
  exists n. split; [exact Hr|exact E].
Qed.

(* ================================================================== *)
(** * The retry loop *)
(* ================================================================== *)

Section HttpFacts.

Variable J : Type.
Variable server : nat -> request -> response J.
Variable rq : request.

(** One turn of the loop on a retryable response: sleep, then go on with
    the next attempt. *)
Lemma retry_step_retryable n attempt w wait :
  let r := server (length (sent w)) rq in
  retryable r = true -> wait_of r attempt = Some wait ->
  retry_loop server rq (S n) attempt w =
  retry_loop server rq n (attempt + 1)
    {| sent := rq :: sent w; slept := wait :: slept w |}.
Proof.
  intros r Hr Hw. subst r. unfold wait_of, retryable in *.
  cbn [retry_loop]. unfold bind at 1. unfold session_get at 1.
  destruct (status_code (server (length (sent w)) rq) =? 429) eqn:E429.
  - unfold bind at 1. unfold wait_429.
    destruct (retry_after (server (length (sent w)) rq)) as [ra|].
    + destruct (truthy ra && isdigit ra).
      * unfold lift, int_of. rewrite Hw. reflexivity.
      * inversion Hw; subst. reflexivity.
    + inversion Hw; subst. reflexivity.
  - simpl in Hr. rewrite Hr. inversion Hw; subst. reflexivity.
Qed.

(** One turn of the loop on any other response: it is delivered. *)
Lemma retry_step_final n attempt w :
  let r := server (length (sent w)) rq in
  retryable r = false ->
  retry_loop server rq (S n) attempt w =
  deliver r {| sent := rq :: sent w; slept := slept w |}.
Proof.
  intros r Hr. subst r. unfold retryable in Hr.
  apply orb_false_elim in Hr. destruct Hr as [H1 H2].
  cbn [retry_loop]. unfold bind at 1. unfold session_get at 1.
  rewrite H1, H2. reflexivity.
Qed.

Lemma repeat_snoc_app n (l : list request) :
  repeat rq n ++ rq :: l = repeat rq (S n) ++ l.
Proof.
  replace (repeat rq n ++ rq :: l) with ((repeat rq n ++ [rq]) ++ l)
    by (rewrite <- app_assoc; reflexivity).
  rewrite <- repeat_cons. reflexivity.
Qed.

Lemma deliver_sent (r : response J) w : sent (snd (deliver r w)) = sent w.
Proof.
  unfold deliver, bind, raise_for_status, raise, ret, r_json.
  destruct ((400 <=? status_code r) && (status_code r <? 600)); [reflexivity|].
  destruct (negb _); [reflexivity|].
  destruct (body r); reflexivity.
Qed.

(** The loop sends at most [n] requests, all of them [rq]. *)
Lemma retry_loop_sent n : forall attempt w,
  exists k, (k <= n)%nat /\
    sent (snd (retry_loop server rq n attempt w)) = repeat rq k ++ sent w.
Proof.
  induction n as [|n IH]; intros attempt w.
  - exists 0%nat. split; [lia|reflexivity].
  - assert (More : forall att w1,
        sent w1 = rq :: sent w ->
        exists k, (k <= S n)%nat /\
          sent (snd (retry_loop server rq n att w1)) = repeat rq k ++ sent w).
    { intros att w1 Hs. destruct (IH att w1) as (k & Hk & E).
      exists (S k). split; [lia|]. rewrite E, Hs. apply repeat_snoc_app. }
    cbn [retry_loop]. unfold bind at 1. unfold session_get at 1.
    set (r := server (length (sent w)) rq).
    destruct (status_code r =? 429).
    + unfold bind at 1. unfold wait_429.
      destruct (retry_after r) as [ra|].
      * destruct (truthy ra && isdigit ra).
        -- unfold lift, int_of. destruct (py_int ra).
           ++ apply More. reflexivity.
           ++ exists 1%nat. split; [lia|reflexivity].
        -- apply More. reflexivity.
      * apply More. reflexivity.
    + destruct (is_5xx (status_code r)).
      * apply More. reflexivity.
      * exists 1%nat. split; [lia|]. rewrite deliver_sent. reflexivity.
Qed.

(** However the server answers, a call sends at most [max_retries]
    requests. *)
Lemma request_json_at_most max_retries w :
  (length (sent (snd (request_json server rq max_retries w)))
   <= length (sent w) + Z.to_nat max_retries)%nat.
Proof.
  unfold request_json.
  destruct (retry_loop_sent (Z.to_nat max_retries) 1 w) as (k & Hk & E).
  rewrite E, length_app, repeat_length. lia.
Qed.

(** [n] retryable responses in a row, each with a wait the header lets
    the loop compute: the loop sends [n] requests, sleeps after each
    response and raises. *)
Lemma retry_loop_gives_up n : forall attempt w waits,
  retried server rq w attempt n waits ->
  retry_loop server rq n attempt w =
  (Raise (RuntimeError
            (txt "Failed after retries (rate-limited or server errors).")),
   after rq w n waits).
Proof.
  induction n as [|n IH]; intros attempt w waits [Hl H].
  - destruct waits; [|discriminate]. destruct w. reflexivity.
  - destruct waits as [|wt waits]; [discriminate|].
    destruct (H 0%nat ltac:(lia)) as [Hr Hw].
    rewrite Nat.add_0_r in Hr, Hw. rewrite Z.add_0_r in Hw. simpl in Hw.
    rewrite (retry_step_retryable n attempt w wt Hr Hw).
    rewrite (IH (attempt + 1) _ waits).
    + unfold after. simpl. f_equal. f_equal.
      * apply repeat_snoc_app.
      * rewrite <- app_assoc. reflexivity.
    + split; [simpl in Hl; lia|].
      intros i Hi. cbn [sent length].
      destruct (H (S i) ltac:(lia)) as [Hr' Hw'].
      replace (S (length (sent w)) + i)%nat
        with (length (sent w) + S i)%nat by lia.
      replace (attempt + 1 + Z.of_nat i)
        with (attempt + Z.of_nat (S i)) by lia.
      split; [exact Hr'|exact Hw'].
Qed.

(** With the default of five retries and five retryable responses. *)
Lemma request_json_gives_up w waits :
  retried server rq w 1 5 waits ->
  request_json server rq 5 w =
  (Raise (RuntimeError
            (txt "Failed after retries (rate-limited or server errors).")),
   after rq w 5 waits).
Proof. apply (retry_loop_gives_up 5 1 w waits). Qed.

(** What [deliver] does with a response of the 2xx class. *)
Lemma deliver_2xx (r : response J) w :
  200 <= status_code r < 300 ->
  deliver r w =
  (if contains (txt "json") (lower (or_default (content_type r) []))
   then match body r with
        | Some j => Ok j
        | None => Raise JSONDecodeError
        end
   else Raise (ValueError
                 (txt "Expected JSON but got Content-Type="
                  ++ lower (or_default (content_type r) [])
                  ++ txt ". Final URL: " ++ final_url r)), w).
Proof.
  intros H. unfold deliver, bind, raise_for_status.
  replace ((400 <=? status_code r) && (status_code r <? 600)) with false
    by (symmetry; apply andb_false_iff; left; apply Z.leb_gt; lia).
  unfold ret.
  destruct (contains (txt "json") (lower (or_default (content_type r) [])));
    cbn [negb].
  - unfold r_json, ret, raise. destruct (body r); reflexivity.
  - reflexivity.
Qed.

(** A retryable response always has a wait, unless it is a 429 whose
    Retry-After passes [isdigit] and is not made of decimal digits. *)
Lemma wait_of_defined (r : response J) attempt :
  (forall ra, retry_after r = Some ra -> isdigit ra = true ->
              forallb is_decimal ra = true) ->
  exists wait, wait_of r attempt = Some wait.
Proof.
  intros H. unfold wait_of.
  destruct (status_code r =? 429); [|eauto].
  destruct (retry_after r) as [ra|]; [|eauto].
  destruct (truthy ra && isdigit ra) eqn:E; [|eauto].
  apply andb_prop in E. destruct E as [Et Ed].
  apply py_int_decimal; [apply truthy_nonempty; exact Et|].
  apply H; auto.
Qed.

Lemma wait_of_undefined (r : response J) attempt :
  wait_of r attempt = None ->
  status_code r = 429 /\
  exists ra, retry_after r = Some ra /\ isdigit ra = true /\ py_int ra = None.
Proof.
  unfold wait_of.
  destruct (status_code r =? 429) eqn:E; [|discriminate].
  apply Z.eqb_eq in E.
  destruct (retry_after r) as [ra|]; [|discriminate].
  destruct (truthy ra && isdigit ra) eqn:D; [|discriminate].
  apply andb_prop in D. intros H. split; [exact E|]. exists ra. tauto.
Qed.

Lemma retry_step_invalid n attempt w ra :
  let r := server (length (sent w)) rq in
  status_code r = 429 -> retry_after r = Some ra ->
  isdigit ra = true -> py_int ra = None ->
  retry_loop server rq (S n) attempt w =
  (Raise (InvalidLiteral ra), {| sent := rq :: sent w; slept := slept w |}).
Proof.
  intros r Hs Hra Hd Hi. subst r.
  cbn [retry_loop]. unfold bind at 1. unfold session_get at 1.
  rewrite Hs. change (429 =? 429) with true. cbv iota.
  unfold bind at 1. unfold wait_429. rewrite Hra.
  assert (T : truthy ra = true).
  { unfold isdigit in Hd. apply andb_prop in Hd. apply Hd. }
  rewrite T, Hd. cbn [andb]. unfold lift, int_of. rewrite Hi. reflexivity.
Qed.

Lemma retried_nil w attempt : retried server rq w attempt 0 [].
Proof. split; [reflexivity|]. intros i Hi. lia. Qed.

Lemma retried_cons w attempt wt k waits :
  retryable (server (length (sent w)) rq) = true ->
  wait_of (server (length (sent w)) rq) attempt = Some wt ->
  retried server rq {| sent := rq :: sent w; slept := wt :: slept w |}
    (attempt + 1) k waits ->
  retried server rq w attempt (S k) (wt :: waits).
Proof.
  intros Hr Hw [Hl H]. split; [simpl; lia|].
  intros [|i] Hi; cbn zeta.
  - rewrite Nat.add_0_r, Z.add_0_r. auto.
  - specialize (H i ltac:(lia)). cbn [sent length] in H. cbn zeta in H.
    replace (length (sent w) + S i)%nat with (S (length (sent w)) + i)%nat
      by lia.
    replace (attempt + Z.of_nat (S i)) with (attempt + 1 + Z.of_nat i) by lia.
    exact H.
Qed.

Lemma after_cons w wt n waits :
  after rq {| sent := rq :: sent w; slept := wt :: slept w |} n waits
  = after rq w (S n) (wt :: waits).
Proof.
  unfold after. cbn [sent slept rev]. f_equal.
  - apply repeat_snoc_app.
  - rewrite <- app_assoc. reflexivity.
Qed.

(** Every run of the loop is one of three: some response is delivered
    after [k < n] retries; or a 429 carries a Retry-After that passes
    [isdigit] and that [int] rejects, and the ValueError of [int] is
    raised; or all [n] responses were retryable and the loop gives up. *)
Lemma retry_loop_cases n : forall attempt w,
  (exists k waits,
     (k < n)%nat /\ retried server rq w attempt k waits /\
     let r := server (length (sent w) + k)%nat rq in
     retryable r = false /\
     retry_loop server rq n attempt w = deliver r (after rq w (S k) waits))
  \/
  (exists k waits ra,
     (k < n)%nat /\ retried server rq w attempt k waits /\
     let r := server (length (sent w) + k)%nat rq in
     status_code r = 429 /\ retry_after r = Some ra /\
     isdigit ra = true /\ py_int ra = None /\
     retry_loop server rq n attempt w =
     (Raise (InvalidLiteral ra), after rq w (S k) waits))
  \/
  (exists waits,
     retried server rq w attempt n waits /\
     retry_loop server rq n attempt w =
     (Raise (RuntimeError
               (txt "Failed after retries (rate-limited or server errors).")),
      after rq w n waits)).
Proof.
  induction n as [|n IH]; intros attempt w.
  - right. right. exists []. split; [apply retried_nil|].
    destruct w. reflexivity.
  - destruct (retryable (server (length (sent w)) rq)) eqn:Hr.
    + destruct (wait_of (server (length (sent w)) rq) attempt) as [wt|] eqn:Hw.
      * rewrite (retry_step_retryable n attempt w wt Hr Hw).
        set (w1 := {| sent := rq :: sent w; slept := wt :: slept w |}).
        destruct (IH (attempt + 1) w1)
          as [(k & waits & Hk & R & Hf & E)
             |[(k & waits & ra & Hk & R & H1 & H2 & H3 & H4 & E)
              |(waits & R & E)]].
        -- left. exists (S k), (wt :: waits).
           split; [lia|]. split; [apply retried_cons; assumption|].
           cbn zeta in *. cbn [sent length] in Hf, E.
           replace (length (sent w) + S k)%nat
             with (S (length (sent w)) + k)%nat by lia.
           split; [exact Hf|]. rewrite E. subst w1. rewrite after_cons.
           reflexivity.
        -- right. left. exists (S k), (wt :: waits), ra.
           split; [lia|]. split; [apply retried_cons; assumption|].
           cbn zeta in *. cbn [sent length] in H1, H2.
           replace (length (sent w) + S k)%nat
             with (S (length (sent w)) + k)%nat by lia.
           repeat (split; [assumption|]).
           rewrite E. subst w1. rewrite after_cons. reflexivity.
        -- right. right. exists (wt :: waits).
           split; [apply retried_cons; assumption|].
           rewrite E. subst w1. rewrite after_cons. reflexivity.
      * right. left. apply wait_of_undefined in Hw.
        destruct Hw as (Hs & ra & Hra & Hd & Hi).
        exists 0%nat, [], ra. split; [lia|]. split; [apply retried_nil|].
        cbn zeta. rewrite Nat.add_0_r. repeat (split; [assumption|]).
        rewrite (retry_step_invalid n attempt w ra Hs Hra Hd Hi).
        destruct w. reflexivity.
    + left. exists 0%nat, []. split; [lia|]. split; [apply retried_nil|].
      cbn zeta. rewrite Nat.add_0_r. split; [exact Hr|].
      rewrite (retry_step_final n attempt w Hr).
      destruct w. reflexivity.
Qed.

End HttpFacts.

(** The waits of a server that keeps answering 503: 2, 4, 8, 16 and 32
    seconds, then the error. *)
Example five_503 :
  request_json
    (fun _ _ => {| status_code := 503; retry_after := Some (txt "120");
                   content_type := None; final_url := []; body := None |})
    rq_demo 5 world0
  = (@Raise nat
       (RuntimeError
          (txt "Failed after retries (rate-limited or server errors).")),
     {| sent := repeat rq_demo 5; slept := [32; 16; 8; 4; 2] |}).
Proof. vm_compute. reflexivity. Qed.

(** A 429 with a decimal Retry-After sleeps that long; the backoff is
    capped at 60 seconds. *)
Example retry_after_17 :
  snd (request_json (fun _ _ => rate_limited (Some (txt "17"))) rq_demo 7
         world0)
  = {| sent := repeat rq_demo 7; slept := [17; 17; 17; 17; 17; 17; 17] |}.
Proof. vm_compute. reflexivity. Qed.

Example backoff_capped :
  slept (snd (request_json (fun _ _ => rate_limited None) rq_demo 7 world0))
  = [60; 60; 32; 16; 8; 4; 2].
Proof. vm_compute. reflexivity. Qed.

(** C4 (the code departs from what it attempts).  [request_json] guards
    [int(retry_after)] with [retry_after.isdigit()], but [str.isdigit]
    accepts characters that [int] rejects.  On a 429 response whose
    Retry-After header is the one character U+00B2 the call raises the
    ValueError of [int] after a single request, without sleeping and
    without retrying. *)
Theorem request_json_retry_after_superscript :
  isdigit superscript_two = true /\
  request_json (fun _ _ => rate_limited (Some superscript_two)) rq_demo 5
    world0
  = (Raise (InvalidLiteral superscript_two),
     {| sent := [rq_demo]; slept := [] |}).
Proof. split; vm_compute; reflexivity. Qed.

(** Both halves of the sentence of the specification about 2xx responses
    fail on a 200 response that announces JSON and carries a body that does
    not decode: the decoder's error, a ValueError, is raised although the
    content type contains "json", and no parsed body is returned. *)
Lemma request_json_undecodable_body :
  ~ raises_ValueError_iff_not_json undecodable
      (fst (request_json (fun _ _ => undecodable) rq_demo 5 world0)) /\
  ~ returns_body_if_json undecodable
      (fst (request_json (fun _ _ => undecodable) rq_demo 5 world0)).
Proof.
  assert (E : fst (request_json (fun _ _ => undecodable) rq_demo 5 world0)
              = Raise JSONDecodeError) by (vm_compute; reflexivity).
  assert (C : contains (txt "json")
                (lower (or_default (content_type undecodable) [])) = true)
    by (vm_compute; reflexivity).
  rewrite E. split.
  - unfold raises_ValueError_iff_not_json. rewrite C. intros [Hiff _].
    assert (F : true = false) by (apply Hiff; exists JSONDecodeError; auto).
    discriminate F.
  - unfold returns_body_if_json. intros H.
    destruct (H C) as (j & Hb & _). discriminate Hb.
Qed.

(** A response of the 2xx class ends the loop at once. *)
Lemma retry_loop_delivers_2xx {J} (server : nat -> request -> response J)
    (rq : request) (n : nat) (attempt : Z) (w : world) :
  200 <= status_code (server (length (sent w)) rq) < 300 ->
  retry_loop server rq (S n) attempt w =
  deliver (server (length (sent w)) rq)
    {| sent := rq :: sent w; slept := slept w |}.
Proof.
  intros H. apply retry_step_final.
  unfold retryable, is_5xx. apply orb_false_iff. split.
  - apply Z.eqb_neq. lia.
  - apply andb_false_iff. left. apply Z.leb_gt. lia.
Qed.

(** The same for a call whose first response is of the 2xx class. *)
Lemma request_json_2xx {J} (server : nat -> request -> response J)
    (rq : request) (max_retries : Z) (w : world) :
  1 <= max_retries ->
  200 <= status_code (server (length (sent w)) rq) < 300 ->
  request_json server rq max_retries w =
  deliver (server (length (sent w)) rq)
    {| sent := rq :: sent w; slept := slept w |}.
Proof.
  intros Hm H. unfold request_json.
  replace (Z.to_nat max_retries) with (S (Z.to_nat (max_retries - 1))) by lia.
  apply retry_loop_delivers_2xx. exact H.
Qed.

(** C5, amended.  For every response of the 2xx class that the retry loop
    receives, at any attempt: when the lower-cased Content-Type does not
    contain "json" the call raises its "Expected JSON" ValueError; when it
    does, the call returns the parsed body if the body decodes and raises
    the decoder's error if it does not.  One request was sent and nothing
    slept. *)
Theorem retry_loop_2xx {J} (server : nat -> request -> response J)
    (rq : request) (n : nat) (attempt : Z) (w : world) :
  let r := server (length (sent w)) rq in
  200 <= status_code r < 300 ->
  retry_loop server rq (S n) attempt w =
  (if contains (txt "json") (lower (or_default (content_type r) []))
   then match body r with
        | Some j => Ok j
        | None => Raise JSONDecodeError
        end
   else Raise (ValueError
                 (txt "Expected JSON but got Content-Type="
                  ++ lower (or_default (content_type r) [])
                  ++ txt ". Final URL: " ++ final_url r)),
   {| sent := rq :: sent w; slept := slept w |}).
Proof.
  intros r H. subst r.
  rewrite (retry_loop_delivers_2xx _ _ _ _ _ H).
  apply deliver_2xx. exact H.
Qed.

Lemma retry_loop_2xx_witness :
  retry_loop (fun _ _ => json_ok) rq_demo 5 1 world0
  = (Ok 7%nat, {| sent := [rq_demo]; slept := [] |}).
Proof.
  apply (retry_loop_2xx (fun _ _ => json_ok) rq_demo 4 1 world0).
  simpl. lia.
Defined.

Example not_json :
  fst (request_json
         (fun _ _ => {| status_code := 200; retry_after := None;
                        content_type := Some (txt "text/html");
                        final_url := txt "u"; body := Some 7%nat |})
         rq_demo 5 world0)
  = Raise (ValueError
             (txt "Expected JSON but got Content-Type=text/html. Final URL: u")).
Proof. vm_compute. reflexivity. Qed.

(* ================================================================== *)
(** * Sorting *)
(* ================================================================== *)

Section SortFacts.

Context {A K : Type}.
Variable key_lt : K -> K -> bool.
Variable key_eqb : K -> K -> bool.
Variable key : A -> K.

Hypothesis lt_asym : forall a b, key_lt a b = true -> key_lt b a = false.
Hypothesis ge_trans : forall a b c,
  key_lt a b = false -> key_lt b c = false -> key_lt a c = false.
Hypothesis lt_differ : forall a b k,
  key_lt a b = true -> key_eqb a k = true -> key_eqb b k = false.

Lemma insert_desc_perm x l :
  Permutation (insert_desc key_lt key x l) (x :: l).
Proof.
  induction l as [|y l IH]; simpl; [reflexivity|].
  destruct (key_lt (key x) (key y)); [|reflexivity].
  rewrite IH. apply perm_swap.
Qed.

Lemma sorted_reverse_perm l :
  Permutation (sorted_reverse key_lt key l) l.
Proof.
  induction l as [|x l IH]; simpl; [reflexivity|].
  rewrite insert_desc_perm. constructor. exact IH.
Qed.

Lemma insert_desc_sorted x l :
  StronglySorted (may_precede key_lt key) l ->
  StronglySorted (may_precede key_lt key) (insert_desc key_lt key x l).
Proof.
  induction 1 as [|y l Hs IH Hy]; simpl.
  - repeat constructor.
  - destruct (key_lt (key x) (key y)) eqn:E.
    + constructor; [exact IH|].
      eapply Permutation_Forall; [symmetry; apply insert_desc_perm|].
      constructor; [|exact Hy]. apply lt_asym. exact E.
    + constructor; [constructor; assumption|].
      constructor; [exact E|].
      eapply Forall_impl; [|exact Hy].
      intros z Hz. unfold may_precede in *. eapply ge_trans; eauto.
Qed.

Lemma sorted_reverse_sorted l :
  StronglySorted (may_precede key_lt key) (sorted_reverse key_lt key l).
Proof.
  induction l as [|x l IH]; simpl; [constructor|].
  apply insert_desc_sorted. exact IH.
Qed.

(** Stability: for each key, the elements with that key come out in the
    order they came in. *)
Lemma insert_desc_stable k x l :
  filter (with_key key_eqb key k) (insert_desc key_lt key x l)
  = filter (with_key key_eqb key k) (x :: l).
Proof.
  induction l as [|y l IH]; [reflexivity|].
  cbn [insert_desc]. destruct (key_lt (key x) (key y)) eqn:E; [|reflexivity].
  cbn [filter] in *. rewrite IH.
  destruct (with_key key_eqb key k x) eqn:Ex; [|reflexivity].
  unfold with_key in *. rewrite (lt_differ _ _ _ E Ex). reflexivity.
Qed.

Lemma sorted_reverse_stable k l :
  filter (with_key key_eqb key k) (sorted_reverse key_lt key l)
  = filter (with_key key_eqb key k) l.
Proof.
  induction l as [|x l IH]; [reflexivity|].
  cbn [sorted_reverse]. rewrite insert_desc_stable.
  cbn [filter]. rewrite IH. reflexivity.
Qed.


End SortFacts.

Lemma StronglySorted_impl {A} (R S : A -> A -> Prop) l :
  (forall x y, R x y -> S x y) -> StronglySorted R l -> StronglySorted S l.
Proof.
  intros HRS. induction 1 as [|x l Hs IH Hx]; constructor; auto.
  eapply Forall_impl; [|exact Hx]. auto.
Qed.

Lemma pair_ltb_lex a b : pair_ltb a b = false <-> lex_le b a.
Proof.
  unfold pair_ltb, lex_le. destruct a as [a1 a2], b as [b1 b2]; simpl.
  rewrite orb_false_iff, andb_false_iff, Z.ltb_ge, Z.eqb_neq, Z.ltb_ge. lia.
Qed.

Lemma pair_ltb_true a b :
  pair_ltb a b = true <->
  fst a < fst b \/ (fst a = fst b /\ snd a < snd b).
Proof.
  unfold pair_ltb. destruct a as [a1 a2], b as [b1 b2]; simpl.
  rewrite orb_true_iff, andb_true_iff, Z.ltb_lt, Z.eqb_eq, Z.ltb_lt. lia.
Qed.

Lemma pair_asym a b : pair_ltb a b = true -> pair_ltb b a = false.
Proof. rewrite pair_ltb_true, pair_ltb_lex. unfold lex_le. lia. Qed.

Lemma pair_ge_trans a b c :
  pair_ltb a b = false -> pair_ltb b c = false -> pair_ltb a c = false.
Proof. rewrite !pair_ltb_lex. unfold lex_le. lia. Qed.


Lemma Z_asym a b : (a <? b) = true -> (b <? a) = false.
Proof. rewrite Z.ltb_lt, Z.ltb_ge. lia. Qed.

Lemma Z_ge_trans a b c :
  (a <? b) = false -> (b <? c) = false -> (a <? c) = false.
Proof. rewrite !Z.ltb_ge. lia. Qed.

Lemma Z_lt_differ a b k :
  (a <? b) = true -> (a =? k) = true -> (b =? k) = false.
Proof. rewrite Z.ltb_lt, Z.eqb_eq, Z.eqb_neq. lia. Qed.

(* ================================================================== *)
(** * Selection *)
(* ================================================================== *)

Lemma sorted_reverse_ranked l : ranked (sorted_reverse pair_ltb rank l).
Proof.
  eapply StronglySorted_impl;
    [|apply (sorted_reverse_sorted pair_ltb rank pair_asym pair_ge_trans)].
  intros x y H. apply pair_ltb_lex. exact H.
Qed.

Lemma slice_to_prefix {A} (l : list A) n :
  exists rest, l = slice_to l n ++ rest.
Proof.
  unfold slice_to. destruct (0 <=? n).
  - exists (skipn (Z.to_nat n) l). symmetry. apply firstn_skipn.
  - exists (skipn (length l - Z.to_nat (- n)) l). symmetry.
    apply firstn_skipn.
Qed.

Lemma slice_to_length {A} (l : list A) n :
  0 <= n -> length (slice_to l n) = Nat.min (Z.to_nat n) (length l).
Proof.
  intros H. unfold slice_to.
  replace (0 <=? n) with true by (symmetry; apply Z.leb_le; exact H).
  apply length_firstn.
Qed.

(** With a negative bound the slice drops from the end instead. *)
Lemma slice_to_negative {A} (l : list A) n :
  n < 0 -> length (slice_to l n) = (length l - Z.to_nat (- n))%nat.
Proof.
  intros H. unfold slice_to.
  replace (0 <=? n) with false by (symmetry; apply Z.leb_gt; exact H).
  rewrite length_firstn. lia.
Qed.

Lemma ranked_app_le l1 l2 :
  ranked (l1 ++ l2) ->
  forall p q, In p l1 -> In q l2 -> lex_le (rank q) (rank p).
Proof.
  induction l1 as [|x l1 IH]; intros S p q Hp Hq; [destruct Hp|].
  simpl in S. inversion S as [|? ? S' Hall]; subst.
  destruct Hp as [<-|Hp].
  - rewrite Forall_forall in Hall. apply Hall. apply in_or_app. auto.
  - eapply IH; eauto.
Qed.

(** Whatever [n] is, the result is a prefix of the ranked candidates. *)
Lemma pick_other_posts_prefix (posts : list Post) (n : Z) :
  Forall (fun p => In p posts /\ has_episode_code p = false
                   /\ is_trailer p = false) (pick_other_posts posts n) /\
  exists rest,
    sorted_reverse pair_ltb rank (filter candidate posts)
    = pick_other_posts posts n ++ rest /\
    Permutation (pick_other_posts posts n ++ rest) (filter candidate posts) /\
    ranked (pick_other_posts posts n ++ rest) /\
    (forall p q, In p (pick_other_posts posts n) -> In q rest ->
                 lex_le (rank q) (rank p)).
Proof.
  unfold pick_other_posts.
  set (cs := sorted_reverse pair_ltb rank (filter candidate posts)).
  destruct (slice_to_prefix cs n) as [rest Hrest].
  assert (P : Permutation cs (filter candidate posts))
    by apply sorted_reverse_perm.
  assert (R : ranked cs) by apply sorted_reverse_ranked.
  split.
  - apply Forall_forall. intros p Hp.
    assert (Hin : In p (filter candidate posts)).
    { eapply Permutation_in; [exact P|]. rewrite Hrest. apply in_or_app. auto. }
    apply filter_In in Hin. destruct Hin as [Hin Hc].
    unfold candidate in Hc. apply andb_prop in Hc. destruct Hc as [H1 H2].
    apply negb_true_iff in H1, H2. auto.
  - exists rest. rewrite <- Hrest. repeat split; auto.
    rewrite Hrest in R. apply ranked_app_le. exact R.
Qed.


(** Among equally ranked trailers the first of the list is picked. *)
Example pick_trailer_tie :
  option_map id
    (pick_trailer
       [sample_post (txt "a") 3 9 true; sample_post (txt "b") 5 1 false;
        sample_post (txt "c") 5 1 true; sample_post (txt "d") 5 1 true])
  = Some (txt "c").
Proof. vm_compute. reflexivity. Qed.




Example pick_other_posts_two :
  map id (pick_other_posts three_posts 2) = [txt "c"; txt "b"].
Proof. vm_compute. reflexivity. Qed.

(* ================================================================== *)
(** * The search client *)
(* ================================================================== *)

Lemma mem_In x l : mem x l = true <-> In x l.
Proof.
  induction l as [|y l IH]; simpl; [split; [discriminate|tauto]|].
  rewrite orb_true_iff, text_eqb_eq, IH. split; intros [H|H]; auto.
Qed.

Lemma for_each_r_app {A S} (f : S -> A -> result S) l1 l2 s :
  for_each_r f (l1 ++ l2) s =
  match for_each_r f l1 s with
  | Ok s' => for_each_r f l2 s'
  | Raise e => Raise e
  end.
Proof.
  revert s. induction l1 as [|a l1 IH]; intros s; simpl; [reflexivity|].
  destruct (f s a); auto.
Qed.

(** Two loops over the same list that stay related step by step. *)
Lemma for_each_sim {A S T} (f : S -> A -> M S) (g : T -> A -> M T)
    (R : S -> T -> Prop) :
  (forall a s t w s' w', R s t -> f s a w = (Ok s', w') ->
     exists t', g t a w = (Ok t', w') /\ R s' t') ->
  forall l s t w s' w', R s t -> for_each f l s w = (Ok s', w') ->
    exists t', for_each g l t w = (Ok t', w') /\ R s' t'.
Proof.
  intros Step. induction l as [|a l IH]; intros s t w s' w' HR H; simpl in *.
  - unfold ret in *. inversion H; subst. eauto.
  - unfold bind in *. destruct (f s a w) as [[s1|e] w1] eqn:E; [|discriminate].
    destruct (Step _ _ _ _ _ _ HR E) as (t1 & Eg & HR1). rewrite Eg.
    eapply IH; eauto.
Qed.

Lemma first_at_snoc vs pid sr d v :
  first_at vs pid sr d -> first_at (vs ++ [v]) pid sr d.
Proof.
  intros (before & after & -> & Hid & Hb).
  exists before, (after ++ [v]). split; [|auto].
  rewrite <- app_assoc. reflexivity.
Qed.

Section FetchFacts.

Variable SHOW_NAME : text.
Variable SUBREDDITS : list text.
Variable QUERY_TERMS : list text.
Variable isoformat_utc : Z -> result text.
Variable server : nat -> request -> response listing.

Let make := make_post SHOW_NAME QUERY_TERMS isoformat_utc.
Let visit (acc : list Post * list text) (v : text * child) :=
  visit_child SHOW_NAME QUERY_TERMS isoformat_utc (fst v) acc (snd v).

Lemma make_post_id sr pid d p : make sr pid d = Ok p -> id p = pid.
Proof.
  unfold make, make_post.
  destruct (if safe_int (d_created_utc d) 0 =? 0 then _ else _); [|discriminate].
  destruct (extract_episode_code _); [|discriminate].
  intros H. inversion H. reflexivity.
Qed.

Lemma visit_children_tagged sr data acc :
  for_each_r (visit_child SHOW_NAME QUERY_TERMS isoformat_utc sr) data acc
  = for_each_r visit (map (pair sr) data) acc.
Proof.
  revert acc. induction data as [|d data IH]; intros acc; simpl; [reflexivity|].
  unfold visit at 1. simpl.
  destruct (visit_child _ _ _ sr acc d); auto.
Qed.

(** The loops of [fetch_search_posts] visit exactly the searched
    children, in order. *)
Lemma fetch_loops_visits w acc w' :
  fetch_loops SHOW_NAME SUBREDDITS QUERY_TERMS isoformat_utc server w
    = (Ok acc, w') ->
  exists visits,
    searched_children SUBREDDITS QUERY_TERMS server w = (Ok visits, w') /\
    for_each_r visit visits ([], []) = Ok acc.
Proof.
  unfold fetch_loops, searched_children.
  apply (for_each_sim _ _
           (fun acc visits => for_each_r visit visits ([], []) = Ok acc));
    [|reflexivity].
  intros sr.
  apply (for_each_sim _ _
           (fun acc visits => for_each_r visit visits ([], []) = Ok acc)).
  intros term s t w0 s' w0' HR H.
  unfold bind in *.
  destruct (request_json server (search_request sr term) 5 w0)
    as [[data|e] w1]; [|discriminate].
  unfold lift in H. inversion H as [[H1 H2]]. subst w0'.
  exists (t ++ map (pair sr) data). split; [reflexivity|].
  rewrite for_each_r_app, HR. rewrite <- visit_children_tagged. congruence.
Qed.

(** Visiting one more child keeps the invariant of the accumulator. *)
Lemma visit_step vs acc v acc' :
  visited make vs acc -> visit acc v = Ok acc' ->
  visited make (vs ++ [v]) acc'.
Proof.
  intros (Hids & Hnd & Hposts & Hseen) H.
  destruct acc as [posts seen], v as [sr d].
  unfold visit, visit_child in H. cbn [fst snd] in *.
  destruct (skipped seen d) eqn:Sk.
  - inversion H; subst acc'; clear H. unfold visited. cbn [fst snd].
    split; [exact Hids|]. split; [exact Hnd|]. split.
    + intros p Hp. destruct (Hposts p Hp) as (Hne & sr' & d' & Hf & Hm).
      split; [exact Hne|]. exists sr', d'.
      split; [apply first_at_snoc|]; auto.
    + intros v pid Hv Hid Hne. apply in_app_or in Hv.
      destruct Hv as [Hv|[<-|[]]]; [eauto|].
      cbn [snd] in Hid. unfold skipped in Sk. rewrite Hid in Sk.
      apply orb_prop in Sk. destruct Sk as [Sk|Sk].
      * apply negb_true_iff in Sk. destruct pid; [congruence|discriminate].
      * apply mem_In. exact Sk.
  - unfold skipped in Sk. destruct (d_id d) as [pid|] eqn:Hid; [|discriminate].
    apply orb_false_elim in Sk. destruct Sk as [Ht Hm].
    apply negb_false_iff in Ht.
    assert (Hnotin : ~ In pid seen)
      by (intros Hin; apply mem_In in Hin; congruence).
    assert (Hor : or_default (Some pid) [] = pid)
      by (unfold or_default; rewrite Ht; reflexivity).
    rewrite Hor in H.
    destruct (make_post SHOW_NAME QUERY_TERMS isoformat_utc sr pid d)
      as [p|e] eqn:Mk; [|discriminate].
    inversion H; subst acc'; clear H. unfold visited. cbn [fst snd].
    pose proof (make_post_id _ _ _ _ Mk) as Hp.
    apply truthy_nonempty in Ht.
    split; [|split; [|split]].
    + rewrite map_app, Hids. simpl. rewrite Hp. reflexivity.
    + constructor; assumption.
    + intros q Hq. apply in_app_or in Hq. destruct Hq as [Hq|[<-|[]]].
      * destruct (Hposts q Hq) as (Hne & sr' & d' & Hf & Hm').
        split; [exact Hne|]. exists sr', d'.
        split; [apply first_at_snoc|]; auto.
      * split; [congruence|]. exists sr, d. rewrite Hp. split; [|exact Mk].
        exists vs, []. repeat split; auto.
        intros v Hv Hv'. apply Hnotin. eapply Hseen; eauto.
    + intros v pid' Hv Hid' Hne. apply in_app_or in Hv.
      destruct Hv as [Hv|[<-|[]]].
      * right. eauto.
      * cbn [snd] in Hid'. left. congruence.
Qed.

Lemma visit_all vs2 : forall vs1 acc acc',
  visited make vs1 acc -> for_each_r visit vs2 acc = Ok acc' ->
  visited make (vs1 ++ vs2) acc'.
Proof.
  induction vs2 as [|v vs2 IH]; intros vs1 acc acc' Hv H; simpl in H.
  - inversion H; subst. rewrite app_nil_r. exact Hv.
  - destruct (visit acc v) as [acc1|e] eqn:E; [|discriminate].
    replace (vs1 ++ v :: vs2) with ((vs1 ++ [v]) ++ vs2)
      by (rewrite <- app_assoc; reflexivity).
    eapply IH; [|exact H]. eapply visit_step; eauto.
Qed.

Lemma visited_nil : visited make [] ([], []).
Proof.
  repeat split; simpl; try constructor; intros; contradiction.
Qed.

Lemma fetch_search_posts_inv w posts w' :
  fetch_search_posts SHOW_NAME SUBREDDITS QUERY_TERMS isoformat_utc server w
    = (Ok posts, w') ->
  exists acc,
    fetch_loops SHOW_NAME SUBREDDITS QUERY_TERMS isoformat_utc server w
      = (Ok acc, w') /\
    posts = sorted_reverse Z.ltb created_utc (fst acc).
Proof.
  unfold fetch_search_posts, bind. intros H.
  destruct (fetch_loops _ _ _ _ _ w) as [[acc|e] w1]; [|discriminate].
  unfold ret in H. inversion H; subst. eauto.
Qed.

(** C6.  Whenever [fetch_search_posts] returns, the identifiers of the
    returned posts are pairwise distinct.  Each returned post has a
    non-empty identifier and is the post built from the first child, in
    the subreddit-by-term iteration order, that carries this identifier;
    and every non-empty identifier among the children is the identifier
    of a returned post.  So a child whose identifier was already seen, or
    is missing or empty, adds nothing. *)
Theorem fetch_search_posts_distinct_ids (w : world) (posts : list Post)
    (w' : world) :
  fetch_search_posts SHOW_NAME SUBREDDITS QUERY_TERMS isoformat_utc server w
    = (Ok posts, w') ->
  exists visits,
    searched_children SUBREDDITS QUERY_TERMS server w = (Ok visits, w') /\
    NoDup (map id posts) /\
    (forall p, In p posts ->
       id p <> [] /\
       exists sr d,
         first_at visits (id p) sr d /\
         make_post SHOW_NAME QUERY_TERMS isoformat_utc sr (id p) d = Ok p) /\
    (forall sr d pid, In (sr, d) visits -> d_id d = Some pid -> pid <> [] ->
       In pid (map id posts)).
Proof.
  intros H. apply fetch_search_posts_inv in H. destruct H as (acc & H & ->).
  apply fetch_loops_visits in H. destruct H as (visits & Hs & Hv).
  exists visits. split; [exact Hs|].
  pose proof (visit_all visits [] _ _ visited_nil Hv)
    as (Hids & Hnd & Hposts & Hseen).
  simpl in Hposts, Hseen.
  pose proof (sorted_reverse_perm Z.ltb created_utc (fst acc)) as P.
  assert (Pid : Permutation
                  (map id (sorted_reverse Z.ltb created_utc (fst acc)))
                  (rev (snd acc))).
  { rewrite <- Hids. apply Permutation_map. exact P. }
  split; [|split].
  - eapply Permutation_NoDup; [symmetry; exact Pid|].
    eapply Permutation_NoDup; [apply Permutation_rev|exact Hnd].
  - intros p Hp. apply Hposts. eapply Permutation_in; eauto.
  - intros sr d pid Hin Hid Hne.
    eapply Permutation_in; [symmetry; exact Pid|].
    apply -> in_rev. eapply (Hseen (sr, d)); eauto.
Qed.

(** C10, amended.  Whenever [fetch_search_posts] returns, the returned
    list is sorted by created_utc in non-increasing order (newest first);
    it holds the posts accumulated in fetch order, and posts with the same
    created_utc keep their fetch order. *)
Theorem fetch_search_posts_newest_first (w : world) (posts : list Post)
    (w' : world) :
  fetch_search_posts SHOW_NAME SUBREDDITS QUERY_TERMS isoformat_utc server w
    = (Ok posts, w') ->
  exists fetched seen_ids,
    fetch_loops SHOW_NAME SUBREDDITS QUERY_TERMS isoformat_utc server w
      = (Ok (fetched, seen_ids), w') /\
    Permutation posts fetched /\
    newest_first posts /\
    forall t, filter (created_at t) posts = filter (created_at t) fetched.
Proof.
  intros H. apply fetch_search_posts_inv in H.
  destruct H as ([fetched seen] & H & ->).
  exists fetched, seen. split; [exact H|]. cbn [fst]. split; [|split].
  - apply sorted_reverse_perm.
  - eapply StronglySorted_impl;
      [|apply (sorted_reverse_sorted Z.ltb created_utc Z_asym Z_ge_trans)].
    intros x y Hxy. unfold may_precede in Hxy. apply Z.ltb_ge in Hxy.
    exact Hxy.
  - intros t.
    apply (sorted_reverse_stable Z.ltb Z.eqb created_utc Z_lt_differ t fetched).
Qed.

End FetchFacts.

Example demo_ids : map id demo_posts = [txt "y"; txt "x"; txt "z"].
Proof. vm_compute. reflexivity. Qed.

Example demo_codes :
  map episode_code demo_posts = [None; Some (txt "1x02"); None] /\
  map is_trailer demo_posts = [true; false; false].
Proof. split; vm_compute; reflexivity. Qed.

Lemma fetch_search_posts_distinct_ids_witness :
  exists visits,
    searched_children [txt "a"; txt "b"] [txt "Show"] two_subreddits world0
      = (Ok visits, snd (demo_fetch [txt "a"; txt "b"])) /\
    NoDup (map id demo_posts) /\
    (forall p, In p demo_posts ->
       id p <> [] /\
       exists sr d,
         first_at visits (id p) sr d /\
         make_post (txt "Show") [txt "Show"] iso_stub sr (id p) d = Ok p) /\
    (forall sr d pid, In (sr, d) visits -> d_id d = Some pid -> pid <> [] ->
       In pid (map id demo_posts)).
Proof.
  apply (fetch_search_posts_distinct_ids (txt "Show") [txt "a"; txt "b"]
           [txt "Show"] iso_stub two_subreddits world0 demo_posts).
  vm_compute. reflexivity.
Defined.

Lemma fetch_search_posts_newest_first_witness :
  exists fetched seen_ids,
    fetch_loops (txt "Show") [txt "a"; txt "b"] [txt "Show"] iso_stub
      two_subreddits world0
      = (Ok (fetched, seen_ids), snd (demo_fetch [txt "a"; txt "b"])) /\
    Permutation demo_posts fetched /\
    newest_first demo_posts /\
    forall t, filter (created_at t) demo_posts = filter (created_at t) fetched.
Proof.
  apply (fetch_search_posts_newest_first (txt "Show") [txt "a"; txt "b"]
           [txt "Show"] iso_stub two_subreddits world0 demo_posts).
  vm_compute. reflexivity.
Defined.

(** The fetch order does show in the result.  Searching the subreddits
    a, b and searching b, a finds the same three posts; x and z have the
    same created_utc, and each run returns them in its own fetch order. *)
Lemma fetch_order_shows_on_ties :
  ~ fetch_order_hidden (fun subs => fst (demo_fetch subs)).
Proof.
  intros H.
  assert (E : fst (demo_fetch [txt "a"; txt "b"])
              = fst (demo_fetch [txt "b"; txt "a"]) -> False)
    by (vm_compute; discriminate).
  destruct (fst (demo_fetch [txt "a"; txt "b"])) as [l|] eqn:E1;
    [|vm_compute in E1; discriminate E1].
  destruct (fst (demo_fetch [txt "b"; txt "a"])) as [l'|] eqn:E2;
    [|vm_compute in E2; discriminate E2].
  apply E. f_equal.
  apply (H [txt "a"; txt "b"] [txt "b"; txt "a"] l l');
    [apply perm_swap|exact E1|exact E2|].
  vm_compute in E1, E2. inversion E1; subst l. inversion E2; subst l'.
  apply perm_skip. apply perm_swap.
Qed.

(* ================================================================== *)
(** * The history store *)
(* ================================================================== *)

Lemma run_app a b st : run (a ++ b) st = run b (run a st).
Proof. apply fold_left_app. Qed.

Lemma not_special c :
  special c = false ->
  ascii_eqb c comma = false /\ ascii_eqb c quotechar = false /\
  ascii_eqb c CR = false /\ ascii_eqb c LF = false.
Proof.
  unfold special. intros H.
  apply orb_false_elim in H. destruct H as [H H4].
  apply orb_false_elim in H. destruct H as [H H3].
  apply orb_false_elim in H. destruct H as [H1 H2]. auto.
Qed.

Lemma field_end_plain c st : special c = false -> field_end c st = None.
Proof.
  intros H. apply not_special in H. destruct H as (H1 & _ & H3 & H4).
  unfold field_end. rewrite H1, H3, H4. reflexivity.
Qed.

Lemma double_quotes_plain f : existsb special f = false -> double_quotes f = f.
Proof.
  induction f as [|c f IH]; [reflexivity|]. cbn [existsb]. intros H.
  apply orb_false_elim in H. destruct H as [Hc Hf].
  apply not_special in Hc. destruct Hc as (_ & Hq & _).
  unfold double_quotes in *. cbn [flat_map]. rewrite Hq.
  simpl. rewrite IH; auto.
Qed.

Lemma run_in_field f : existsb special f = false ->
  forall cur row out,
  run f {| r_mode := IN_FIELD; r_field := cur; r_fields := row;
           r_records := out |}
  = {| r_mode := IN_FIELD; r_field := rev f ++ cur; r_fields := row;
       r_records := out |}.
Proof.
  induction f as [|c f IH]; intros H cur row out; [reflexivity|].
  cbn [existsb] in H. apply orb_false_elim in H. destruct H as [Hc Hf].
  unfold run in *. cbn [fold_left]. unfold read_char at 2. cbn [r_mode].
  rewrite (field_end_plain _ _ Hc). unfold add_char.
  cbn [r_field r_fields r_records].
  rewrite (IH Hf). cbn [rev]. rewrite <- app_assoc. reflexivity.
Qed.

Lemma run_plain f row out : existsb special f = false ->
  pending f row out (run f (before_field row out)).
Proof.
  destruct f as [|c f]; intros H.
  - unfold pending, run, before_field. simpl. auto 10.
  - cbn [existsb] in H. apply orb_false_elim in H. destruct H as [Hc Hf].
    unfold run. cbn [fold_left]. unfold read_char at 2, before_field.
    cbn [r_mode]. unfold start_field.
    destruct (not_special _ Hc) as (_ & Hq & _). rewrite Hq.
    rewrite (field_end_plain _ _ Hc). unfold add_char.
    cbn [r_field r_fields r_records].
    fold (run f {| r_mode := IN_FIELD; r_field := [c]; r_fields := row;
                   r_records := out |}).
    rewrite (run_in_field _ Hf). unfold pending. cbn. auto.
Qed.

Lemma run_in_quoted f : forall cur row out,
  run (double_quotes f)
    {| r_mode := IN_QUOTED_FIELD; r_field := cur; r_fields := row;
       r_records := out |}
  = {| r_mode := IN_QUOTED_FIELD; r_field := rev f ++ cur; r_fields := row;
       r_records := out |}.
Proof.
  induction f as [|c f IH]; intros cur row out; [reflexivity|].
  unfold double_quotes in *. cbn [flat_map].
  destruct (ascii_eqb c quotechar) eqn:E.
  - apply ascii_eqb_eq in E. subst c.
    unfold run in *. cbn [app fold_left].
    unfold read_char at 3. cbn [r_mode]. rewrite ascii_eqb_refl.
    unfold read_char at 2, set_mode. cbn [r_mode]. rewrite ascii_eqb_refl.
    unfold add_char. cbn [r_field r_fields r_records].
    rewrite IH. cbn [rev]. rewrite <- app_assoc. reflexivity.
  - unfold run in *. cbn [app fold_left].
    unfold read_char at 2. cbn [r_mode]. rewrite E.
    unfold add_char. cbn [r_field r_fields r_records].
    rewrite IH. cbn [rev]. rewrite <- app_assoc. reflexivity.
Qed.

Lemma run_quoted f row out :
  pending f row out
    (run (quotechar :: double_quotes f ++ [quotechar]) (before_field row out)).
Proof.
  unfold run. cbn [fold_left]. unfold read_char at 2, before_field.
  cbn [r_mode]. unfold start_field. rewrite ascii_eqb_refl.
  unfold set_mode. cbn [r_field r_fields r_records].
  rewrite fold_left_app.
  fold (run (double_quotes f)
          {| r_mode := IN_QUOTED_FIELD; r_field := []; r_fields := row;
             r_records := out |}).
  rewrite run_in_quoted. cbn [fold_left]. unfold read_char. cbn [r_mode].
  rewrite ascii_eqb_refl. unfold pending, set_mode. cbn.
  rewrite app_nil_r. auto 10.
Qed.

(** After a written field the reader holds that field. *)
Lemma run_csv_field f row out :
  pending f row out (run (csv_field f) (before_field row out)).
Proof.
  unfold csv_field. destruct (existsb special f) eqn:E.
  - apply run_quoted.
  - rewrite (double_quotes_plain _ E). apply run_plain. exact E.
Qed.

Lemma pending_comma f row out st :
  pending f row out st -> read_char st comma = before_field (f :: row) out.
Proof.
  intros (Hf & Hr & Ho & Hm). unfold read_char, before_field.
  destruct Hm as [Hm|[Hm|[Hm _]]]; rewrite Hm;
    unfold start_field, field_end, save_field;
    change (ascii_eqb comma quotechar) with false;
    rewrite ?ascii_eqb_refl; cbn [r_field r_fields r_records];
    rewrite Hf, Hr, Ho, rev_involutive; reflexivity.
Qed.

Lemma pending_CR f row out st :
  pending f row out st ->
  read_char st CR =
  {| r_mode := EAT_CRNL; r_field := []; r_fields := [];
     r_records := rev (f :: row) :: out |}.
Proof.
  intros (Hf & Hr & Ho & Hm). unfold read_char.
  destruct Hm as [Hm|[Hm|[Hm _]]]; rewrite Hm;
    unfold start_field, field_end, end_record;
    change (ascii_eqb CR quotechar) with false;
    change (ascii_eqb CR comma) with false;
    rewrite ?ascii_eqb_refl; cbn [r_field r_fields r_records];
    rewrite Hf, Hr, Ho, rev_involutive; reflexivity.
Qed.

Lemma run_joined fs : forall f row out,
  pending (last (f :: fs) []) (rev (removelast (f :: fs)) ++ row) out
    (run (join [comma] (map csv_field (f :: fs))) (before_field row out)).
Proof.
  induction fs as [|g fs IH]; intros f row out.
  - simpl. apply run_csv_field.
  - change (join [comma] (map csv_field (f :: g :: fs)))
      with (csv_field f ++ [comma] ++ join [comma] (map csv_field (g :: fs))).
    rewrite !run_app.
    pose proof (run_csv_field f row out) as P.
    change (run [comma] (run (csv_field f) (before_field row out)))
      with (read_char (run (csv_field f) (before_field row out)) comma).
    rewrite (pending_comma _ _ _ _ P).
    specialize (IH g (f :: row) out).
    change (last (f :: g :: fs) []) with (last (g :: fs) []).
    change (removelast (f :: g :: fs)) with (f :: removelast (g :: fs)).
    cbn [rev]. rewrite <- app_assoc. exact IH.
Qed.

Lemma csv_field_empty f : csv_field f = [] -> f = [].
Proof.
  unfold csv_field. destruct (existsb special f); [discriminate|].
  destruct f as [|c f]; [reflexivity|].
  unfold double_quotes. cbn [flat_map].
  destruct (ascii_eqb c quotechar); discriminate.
Qed.

(** The first field of a record: the reader starts from [START_RECORD]. *)
Lemma run_plain_first c f out : existsb special (c :: f) = false ->
  pending (c :: f) [] out (run (c :: f) (before_record out)).
Proof.
  intros H. cbn [existsb] in H. apply orb_false_elim in H.
  destruct H as [Hc Hf].
  destruct (not_special _ Hc) as (_ & Hq & Hcr & Hlf).
  unfold run. cbn [fold_left]. unfold read_char at 2, before_record.
  cbn [r_mode]. unfold start_record. rewrite Hcr, Hlf.
  unfold start_field. rewrite Hq.
  rewrite (field_end_plain _ _ Hc). unfold add_char.
  cbn [r_field r_fields r_records].
  fold (run f {| r_mode := IN_FIELD; r_field := [c]; r_fields := [];
                 r_records := out |}).
  rewrite (run_in_field _ Hf). unfold pending. cbn. auto.
Qed.

Lemma run_quoted_first f out :
  pending f [] out
    (run (quotechar :: double_quotes f ++ [quotechar]) (before_record out)).
Proof.
  unfold run. cbn [fold_left]. unfold read_char at 2, before_record.
  cbn [r_mode]. unfold start_record.
  change (ascii_eqb quotechar CR) with false.
  change (ascii_eqb quotechar LF) with false. cbv iota.
  unfold start_field. rewrite ascii_eqb_refl.
  unfold set_mode. cbn [r_field r_fields r_records].
  rewrite fold_left_app.
  fold (run (double_quotes f)
          {| r_mode := IN_QUOTED_FIELD; r_field := []; r_fields := [];
             r_records := out |}).
  rewrite run_in_quoted. cbn [fold_left]. unfold read_char. cbn [r_mode].
  rewrite ascii_eqb_refl. unfold pending, set_mode. cbn.
  rewrite app_nil_r. auto 10.
Qed.

Lemma run_csv_field_first f out :
  csv_field f <> [] ->
  pending f [] out (run (csv_field f) (before_record out)).
Proof.
  unfold csv_field. destruct (existsb special f) eqn:E; intros Hne.
  - apply run_quoted_first.
  - rewrite (double_quotes_plain _ E) in *.
    destruct f as [|c f]; [congruence|]. apply run_plain_first. exact E.
Qed.

Lemma first_field_comma f out :
  read_char (run (csv_field f) (before_record out)) comma
  = before_field [f] out.
Proof.
  destruct (csv_field f) as [|c s] eqn:E.
  - apply csv_field_empty in E. subst f. reflexivity.
  - rewrite <- E. apply (pending_comma f [] out).
    apply run_csv_field_first. congruence.
Qed.

Lemma join_empty fs :
  fs <> [] -> join [comma] (map csv_field fs) = [] -> fs = [[]].
Proof.
  destruct fs as [|f [|g fs]]; intros Hne H; [congruence| |].
  - simpl in H. apply csv_field_empty in H. subst. reflexivity.
  - change (join [comma] (map csv_field (f :: g :: fs)))
      with (csv_field f ++ [comma] ++ join [comma] (map csv_field (g :: fs)))
      in H.
    apply app_eq_nil in H. destruct H as [_ H]. discriminate H.
Qed.

(** After the fields of a written row the reader holds the last of them
    and has the others before it. *)
Lemma run_row_body fs out :
  fs <> [] ->
  pending (last fs []) (rev (removelast fs)) out
    (run (match join [comma] (map csv_field fs), fs with
          | [], _ :: _ => [quotechar; quotechar]
          | _, _ => join [comma] (map csv_field fs)
          end) (before_record out)).
Proof.
  intros Hne.
  destruct (join [comma] (map csv_field fs)) as [|c s] eqn:J.
  - rewrite (join_empty _ Hne J).
    change [quotechar; quotechar]
      with (quotechar :: double_quotes [] ++ [quotechar]).
    apply (run_quoted_first [] out).
  - destruct fs as [|f [|g fs]]; [congruence| |].
    + rewrite <- J. cbn [map join last removelast rev].
      apply run_csv_field_first. simpl in J. congruence.
    + rewrite <- J.
      change (join [comma] (map csv_field (f :: g :: fs)))
        with (csv_field f ++ [comma]
              ++ join [comma] (map csv_field (g :: fs))).
      rewrite !run_app.
      change (run [comma] (run (csv_field f) (before_record out)))
        with (read_char (run (csv_field f) (before_record out)) comma).
      rewrite first_field_comma.
      change (last (f :: g :: fs) []) with (last (g :: fs) []).
      change (removelast (f :: g :: fs)) with (f :: removelast (g :: fs)).
      cbn [rev]. apply run_joined.
Qed.

(** Reading one written row gives its fields back. *)
Lemma run_writerow fs out :
  fs <> [] ->
  run (csv_writerow fs) (before_record out) = before_record (fs :: out).
Proof.
  intros Hne. unfold csv_writerow. cbv zeta.
  pose proof (run_row_body fs out Hne) as P.
  set (body := match join [comma] (map csv_field fs) with
               | [] => _
               | _ :: _ => _
               end) in *.
  rewrite run_app. unfold lineterminator.
  unfold run at 1. cbn [fold_left].
  rewrite (pending_CR _ _ _ _ P).
  unfold read_char. cbn [r_mode]. rewrite ascii_eqb_refl.
  unfold set_mode, before_record. cbn [r_field r_fields r_records].
  cbn [rev]. rewrite rev_involutive, <- app_removelast_last by exact Hne.
  reflexivity.
Qed.

Lemma run_rows rows : forall out,
  Forall (fun fs => fs <> []) rows ->
  run (concat (map csv_writerow rows)) (before_record out)
  = before_record (rev rows ++ out).
Proof.
  induction rows as [|fs rows IH]; intros out H; [reflexivity|].
  inversion H as [|? ? Hfs Hrows]; subst.
  cbn [map concat]. rewrite run_app, (run_writerow _ _ Hfs), (IH _ Hrows).
  cbn [rev]. rewrite <- app_assoc. reflexivity.
Qed.

(** Reading written rows gives them back, one record per row. *)
Lemma csv_read_written rows :
  Forall (fun fs => fs <> []) rows ->
  csv_read (concat (map csv_writerow rows)) = rows.
Proof.
  intros H. unfold csv_read.
  change (fold_left read_char ?s reader0) with (run s (before_record [])).
  rewrite (run_rows _ _ H). unfold read_end, before_record.
  cbn [r_mode r_field r_fields r_records].
  rewrite app_nil_r. apply rev_involutive.
Qed.


Lemma header_read : csv_read (writeheader HISTORY_FIELDS) = [HISTORY_FIELDS].
Proof. vm_compute. reflexivity. Qed.

(** A history file created by the run reads back as the header and then
    one record per post. *)
Lemma fresh_history_read snapshot_utc posts :
  csv_read
    (writeheader HISTORY_FIELDS
     ++ concat (map (fun p => dict_writerow (history_row snapshot_utc p))
                    posts))
  = HISTORY_FIELDS
    :: map (fun p => map cell_text (history_row snapshot_utc p)) posts.
Proof.
  unfold dict_writerow, writeheader.
  rewrite <- (map_map (fun p => map cell_text (history_row snapshot_utc p))
                      csv_writerow).
  change (csv_writerow HISTORY_FIELDS ++ concat (map csv_writerow ?rows))
    with (concat (map csv_writerow (HISTORY_FIELDS :: rows))).
  apply csv_read_written. constructor; [discriminate|].
  apply Forall_forall. intros fs Hin. apply in_map_iff in Hin.
  destruct Hin as (p & <- & _). discriminate.
Qed.


Example append_to_missing :
  append_history (txt "h.csv") (txt "2026-01-01T00:00:00+00:00")
    [sample_post (txt "a") 3 1 false] (fun _ => None) (txt "h.csv")
  = Some (txt "snapshot_utc,post_id,post_name,subreddit,episode_code,is_episode,is_trailer,title,permalink,num_comments"
          ++ lineterminator
          ++ txt "2026-01-01T00:00:00+00:00,a,t3_a,television,,0,0,"
          ++ [quotechar] ++ txt "Show, renewed" ++ [quotechar]
          ++ txt ",https://www.reddit.com/r/television/,3"
          ++ lineterminator).
Proof. vm_compute. reflexivity. Qed.

(* ================================================================== *)
(** * Further facts about text *)
(* ================================================================== *)

Lemma lstrip_by_spec d s :
  exists pre,
    s = pre ++ lstrip_by d s /\ forallb d pre = true /\
    forall c t, lstrip_by d s = c :: t -> d c = false.
Proof.
  induction s as [|c s IH].
  - exists []. simpl. repeat split. discriminate.
  - simpl. destruct (d c) eqn:E.
    + destruct IH as (pre & E1 & E2 & E3). exists (c :: pre). simpl.
      rewrite E, E2. repeat split; [congruence|exact E3].
    + exists []. simpl. repeat split. intros c' t H. congruence.
Qed.

Lemma strip_by_spec d s :
  exists pre post,
    s = pre ++ strip_by d s ++ post /\
    forallb d pre = true /\ forallb d post = true /\
    (forall c t, strip_by d s = c :: t -> d c = false) /\
    (forall t c, strip_by d s = t ++ [c] -> d c = false).
Proof.
  unfold strip_by.
  destruct (lstrip_by_spec d s) as (pre & E1 & P1 & H1).
  destruct (lstrip_by_spec d (rev (lstrip_by d s))) as (q & E2 & P2 & H2).
  set (s1 := lstrip_by d s) in *.
  set (s2 := lstrip_by d (rev s1)) in *.
  assert (E3 : s1 = rev s2 ++ rev q).
  { rewrite <- rev_app_distr, <- E2, rev_involutive. reflexivity. }
  exists pre, (rev q). repeat split.
  - rewrite <- E3. exact E1.
  - exact P1.
  - rewrite forallb_forall in *. intros x Hx. apply P2. apply in_rev. exact Hx.
  - intros c t Hc. apply (H1 c (t ++ rev q)). rewrite E3, Hc. reflexivity.
  - intros t c Hc. apply (H2 c (rev t)).
    rewrite <- (rev_involutive s2), Hc, rev_app_distr. reflexivity.
Qed.

Lemma lstrip_by_id d s :
  (forall c r, s = c :: r -> d c = false) -> lstrip_by d s = s.
Proof.
  intros H. destruct s as [|c r]; [reflexivity|].
  simpl. rewrite (H c r eq_refl). reflexivity.
Qed.

Lemma strip_by_id d s :
  (forall c r, s = c :: r -> d c = false) ->
  (forall r c, s = r ++ [c] -> d c = false) ->
  strip_by d s = s.
Proof.
  intros Hh Hl. unfold strip_by. rewrite (lstrip_by_id d s Hh).
  rewrite lstrip_by_id; [apply rev_involutive|].
  intros c r E. apply (Hl (rev r) c).
  rewrite <- (rev_involutive s), E. reflexivity.
Qed.

Lemma strip_by_idem d s : strip_by d (strip_by d s) = strip_by d s.
Proof.
  destruct (strip_by_spec d s) as (pre & post & _ & _ & _ & Hh & Hl).
  apply strip_by_id; assumption.
Qed.

Lemma strip_by_all d s : forallb d s = true -> strip_by d s = [].
Proof.
  intros H. destruct (strip_by_spec d s) as (pre & post & E & _ & _ & Hh & _).
  destruct (strip_by d s) as [|c t] eqn:Es; [reflexivity|].
  pose proof (Hh c t eq_refl) as Hc.
  rewrite forallb_forall in H. rewrite H in Hc; [discriminate|].
  rewrite E. apply in_or_app. right. left. reflexivity.
Qed.

Lemma strip_by_padded d pre s post :
  forallb d pre = true -> forallb d post = true ->
  (forall c r, s = c :: r -> d c = false) ->
  (forall r c, s = r ++ [c] -> d c = false) ->
  strip_by d (pre ++ s ++ post) = s.
Proof.
  intros Hpre Hpost Hh Hl.
  assert (L : forall p t, forallb d p = true ->
                lstrip_by d (p ++ t) = lstrip_by d t).
  { induction p as [|c p IH]; intros t Hp; [reflexivity|].
    simpl in Hp. apply andb_prop in Hp. destruct Hp as [Hc Hp].
    simpl. rewrite Hc. apply IH. exact Hp. }
  destruct s as [|c r].
  - simpl. apply strip_by_all. rewrite forallb_app, Hpre, Hpost. reflexivity.
  - unfold strip_by. rewrite (L pre _ Hpre).
    rewrite (lstrip_by_id d ((c :: r) ++ post)).
    2:{ intros c' r' E. simpl in E. injection E as <- _.
        apply (Hh c r eq_refl). }
    rewrite rev_app_distr. rewrite L.
    2:{ rewrite forallb_forall in *. intros x Hx. apply Hpost.
        apply in_rev. exact Hx. }
    rewrite lstrip_by_id; [apply rev_involutive|].
    intros c' r' E. apply (Hl (rev r') c').
    rewrite <- (rev_involutive (c :: r)), E. reflexivity.
Qed.

(** ** Substrings *)

Lemma starts_with_spec p s :
  starts_with p s = true <-> exists q, s = p ++ q.
Proof.
  revert s. induction p as [|a p IH]; intros s; simpl.
  - split; eauto.
  - destruct s as [|b s].
    + split; [discriminate|]. intros [q E]. discriminate.
    + rewrite andb_true_iff, ascii_eqb_eq, IH. split.
      * intros [-> [q ->]]. eauto.
      * intros [q E]. injection E as -> ->. eauto.
Qed.

Lemma contains_spec sub s :
  contains sub s = true <-> exists p q, s = p ++ sub ++ q.
Proof.
  induction s as [|c s IH]; simpl.
  - rewrite orb_false_r, starts_with_spec. split.
    + intros [q E]. exists [], q. exact E.
    + intros (p & q & E). destruct p; [eauto|discriminate].
  - rewrite orb_true_iff, starts_with_spec, IH. split.
    + intros [[q E]|(p & q & E)].
      * exists [], q. exact E.
      * exists (c :: p), q. simpl. congruence.
    + intros (p & q & E). destruct p as [|c' p].
      * left. exists q. exact E.
      * right. injection E as _ E. eauto.
Qed.

Lemma contains_nil s : contains [] s = true.
Proof. apply contains_spec. exists [], s. reflexivity. Qed.

Lemma contains_trans a b s :
  contains a b = true -> contains b s = true -> contains a s = true.
Proof.
  rewrite !contains_spec. intros (p & q & ->) (p' & q' & ->).
  exists (p' ++ p), (q ++ q'). rewrite <- !app_assoc. reflexivity.
Qed.

Lemma lower_char_idem c : lower_char (lower_char c) = lower_char c.
Proof. destruct c as [[] [] [] [] [] [] [] []]; vm_compute; reflexivity. Qed.

Lemma lower_idem s : lower (lower s) = lower s.
Proof.
  unfold lower. rewrite map_map. apply map_ext. intros c.
  apply lower_char_idem.
Qed.


(** ** Integers written and read *)

Lemma int_digits_step c acc seen s :
  is_decimal c = true ->
  int_digits acc seen (c :: s) = int_digits (10 * acc + digit_val c) true s.
Proof. intros H. simpl. rewrite H. reflexivity. Qed.

Lemma int_digits_acc d : forall acc,
  int_digits (Zpos acc) true (uint_text d)
  = Some (Zpos (Pos.of_uint_acc d acc)).
Proof.
  induction d; intros acc.
  1: reflexivity.
  all: unfold uint_text; cbn [NilEmpty.string_of_uint list_ascii_of_string].
  all: rewrite int_digits_step by reflexivity.
  all: fold (uint_text d); cbn [Pos.of_uint_acc]; rewrite <- IHd.
  all: f_equal; digit_value; lia.
Qed.

Lemma int_digits_uint d :
  int_digits 0 true (uint_text d) = Some (Z.of_N (Pos.of_uint d)).
Proof.
  induction d.
  1: reflexivity.
  all: unfold uint_text; cbn [NilEmpty.string_of_uint list_ascii_of_string].
  all: rewrite int_digits_step by reflexivity.
  all: fold (uint_text d); digit_value.
  1: exact IHd.
  all: cbn [Pos.of_uint Z.of_N]; apply (int_digits_acc d).
Qed.

Lemma int_digits_first d :
  d <> Decimal.Nil ->
  int_digits 0 false (uint_text d) = Some (Z.of_N (Pos.of_uint d)).
Proof.
  intros Hd. rewrite <- int_digits_uint.
  destruct d; [congruence| ..].
  all: unfold uint_text; cbn [NilEmpty.string_of_uint list_ascii_of_string].
  all: rewrite !int_digits_step by reflexivity; reflexivity.
Qed.

Lemma uint_text_decimal d : forallb is_decimal (uint_text d) = true.
Proof. induction d; [reflexivity| ..]; exact IHd. Qed.

Lemma uint_text_nonempty d : d <> Decimal.Nil -> uint_text d <> [].
Proof. destruct d; [congruence| ..]; discriminate. Qed.

Lemma to_uint_not_Nil p : Pos.to_uint p <> Decimal.Nil.
Proof.
  intros E. pose proof (DecimalPos.Unsigned.of_to p) as H.
  rewrite E in H. discriminate H.
Qed.

Lemma py_str_pos p : py_str (Zpos p) = uint_text (Pos.to_uint p).
Proof.
  unfold py_str, uint_text. cbn [Z.to_int NilZero.string_of_int].
  unfold NilZero.string_of_uint.
  destruct (Pos.to_uint p) eqn:E; try reflexivity.
  exfalso. exact (to_uint_not_Nil p E).
Qed.

Lemma py_str_neg p :
  py_str (Zneg p) = "-"%char :: uint_text (Pos.to_uint p).
Proof.
  unfold py_str, uint_text. cbn [Z.to_int NilZero.string_of_int].
  unfold NilZero.string_of_uint.
  destruct (Pos.to_uint p) eqn:E; try reflexivity.
  exfalso. exact (to_uint_not_Nil p E).
Qed.

Lemma int_body_str n : int_body (py_str n) = Some n.
Proof.
  destruct n as [|p|p].
  - reflexivity.
  - rewrite py_str_pos.
    pose proof (uint_text_decimal (Pos.to_uint p)) as Hd.
    pose proof (int_digits_first _ (to_uint_not_Nil p)) as Hi.
    rewrite DecimalPos.Unsigned.of_to in Hi.
    destruct (uint_text (Pos.to_uint p)) as [|c s] eqn:E.
    + exfalso. exact (uint_text_nonempty _ (to_uint_not_Nil p) E).
    + simpl in Hd. apply andb_prop in Hd. destruct Hd as [Hc _].
      destruct (decimal_plain _ Hc) as (_ & H43 & H45 & _).
      unfold int_body. rewrite H43, H45. exact Hi.
  - rewrite py_str_neg. unfold int_body.
    change (Nat.eqb (code "-") 43) with false.
    change (Nat.eqb (code "-") 45) with true. cbv iota.
    rewrite (int_digits_first _ (to_uint_not_Nil p)).
    rewrite DecimalPos.Unsigned.of_to. reflexivity.
Qed.

Lemma py_str_ends n :
  (forall c r, py_str n = c :: r -> int_blank c = false) /\
  (forall r c, py_str n = r ++ [c] -> int_blank c = false).
Proof.
  assert (D : forall c, is_decimal c = true \/ c = "-"%char ->
                        int_blank c = false).
  { intros c [H| ->]; [apply decimal_plain; exact H|reflexivity]. }
  assert (A : forall c, In c (py_str n) ->
                        is_decimal c = true \/ c = "-"%char).
  { intros c Hc. destruct n as [|p|p].
    - destruct Hc as [<-|[]]. left. reflexivity.
    - rewrite py_str_pos in Hc. left.
      pose proof (uint_text_decimal (Pos.to_uint p)) as Hd.
      rewrite forallb_forall in Hd. apply Hd. exact Hc.
    - rewrite py_str_neg in Hc. destruct Hc as [<-|Hc]; [right; reflexivity|].
      left. pose proof (uint_text_decimal (Pos.to_uint p)) as Hd.
      rewrite forallb_forall in Hd. apply Hd. exact Hc. }
  split.
  - intros c r E. apply D, A. rewrite E. left. reflexivity.
  - intros r c E. apply D, A. rewrite E. apply in_or_app. right. left.
    reflexivity.
Qed.

Lemma py_int_padded pre n post :
  forallb int_blank pre = true -> forallb int_blank post = true ->
  py_int (pre ++ py_str n ++ post) = Some n.
Proof.
  intros Hpre Hpost. destruct (py_str_ends n) as [Hh Hl].
  pose proof (int_body_str n) as Hb.
  change (py_int (pre ++ py_str n ++ post))
    with (int_body (strip_by int_blank (pre ++ py_str n ++ post))).
  rewrite (strip_by_padded _ _ _ _ Hpre Hpost Hh Hl). exact Hb.
Qed.

Lemma py_int_str n : py_int (py_str n) = Some n.
Proof.
  pose proof (py_int_padded [] n [] eq_refl eq_refl) as H.
  rewrite app_nil_r in H. exact H.
Qed.

(** X1.  [safe_int] reads back every integer that [str] wrote, whatever
    the default and whatever blanks (tabs, line ends, spaces, U+0085,
    U+00A0) stand around the numeral: the default is never used for a
    number the script wrote itself. *)
Theorem safe_int_reads_str (n default : Z) (pre post : text) :
  forallb int_blank pre = true -> forallb int_blank post = true ->
  safe_int (JStr (pre ++ py_str n ++ post)) default = n.
Proof.
  intros Hpre Hpost. unfold safe_int.
  rewrite (py_int_padded pre n post Hpre Hpost). reflexivity.
Qed.

Lemma safe_int_reads_str_witness :
  safe_int (JStr (txt " " ++ py_str (-1204) ++ [LF])) 0 = -1204.
Proof. apply (safe_int_reads_str (-1204) 0 (txt " ") [LF]); reflexivity. Defined.

(* ================================================================== *)
(** * Titles: [norm_spaces] *)
(* ================================================================== *)

Lemma spaced_sub_spaces s : forall b, spaced b (sub_spaces b s) = true.
Proof.
  induction s as [|c s IH]; intros b; [reflexivity|].
  simpl. destruct (is_space c) eqn:E.
  - destruct b; [apply IH|].
    simpl. change (is_space " ") with true. cbv iota.
    rewrite IH. reflexivity.
  - simpl. rewrite E. apply IH.
Qed.

Lemma spaced_weaken t b : spaced b t = true -> spaced false t = true.
Proof.
  destruct t as [|c t]; [reflexivity|]. simpl.
  destruct (is_space c); [|auto].
  rewrite !andb_true_iff. intros [[H1 _] H3]. auto.
Qed.

Lemma spaced_app_r a t : forall b,
  spaced b (a ++ t) = true -> spaced false t = true.
Proof.
  induction a as [|c a IH]; intros b H.
  - exact (spaced_weaken _ _ H).
  - simpl in H. destruct (is_space c).
    + apply andb_prop in H. destruct H as [_ H]. exact (IH _ H).
    + exact (IH _ H).
Qed.

Lemma spaced_app_l a t : forall b,
  spaced b (a ++ t) = true -> spaced b a = true.
Proof.
  induction a as [|c a IH]; intros b H; [reflexivity|].
  simpl in *. destruct (is_space c).
  - apply andb_prop in H. destruct H as [H1 H2].
    rewrite H1, (IH _ H2). reflexivity.
  - exact (IH _ H).
Qed.

Lemma spaced_blank t : forall b c,
  spaced b t = true -> In c t -> is_space c = true -> c = " "%char.
Proof.
  induction t as [|x t IH]; intros b c H Hin Hc; [contradiction|].
  simpl in H. destruct Hin as [->|Hin].
  - rewrite Hc in H. rewrite !andb_true_iff in H.
    destruct H as [[H _] _]. apply ascii_eqb_eq. exact H.
  - destruct (is_space x).
    + apply andb_prop in H. destruct H as [_ H]. exact (IH _ _ H Hin Hc).
    + exact (IH _ _ H Hin Hc).
Qed.

Lemma spaced_adjacent b a x y r :
  spaced b (a ++ x :: y :: r) = true ->
  is_space x = true -> is_space y = false.
Proof.
  intros H Hx. apply spaced_app_r in H. simpl in H. rewrite Hx in H.
  destruct (is_space y); [|reflexivity].
  rewrite !andb_true_iff in H. destruct H as [_ [[_ H] _]]. discriminate H.
Qed.

Lemma sub_spaces_fixed t : forall b, spaced b t = true -> sub_spaces b t = t.
Proof.
  induction t as [|c t IH]; intros b H; [reflexivity|].
  simpl in *. destruct (is_space c).
  - rewrite !andb_true_iff in H. destruct H as [[H1 H2] H3].
    apply ascii_eqb_eq in H1. subst c. destruct b; [discriminate H2|].
    rewrite (IH _ H3). reflexivity.
  - rewrite (IH _ H). reflexivity.
Qed.

Lemma sub_spaces_nonblank s : forall b,
  filter nonblank (sub_spaces b s) = filter nonblank s.
Proof.
  induction s as [|c s IH]; intros b; [reflexivity|].
  simpl. unfold nonblank at 2. destruct (is_space c) eqn:E; simpl.
  - destruct b; [apply IH|]. simpl. apply IH.
  - unfold nonblank at 1. rewrite E. simpl. rewrite IH. reflexivity.
Qed.

Lemma filter_nonblank_blanks s :
  forallb is_space s = true -> filter nonblank s = [].
Proof.
  induction s as [|c s IH]; [reflexivity|]. simpl.
  intros H. apply andb_prop in H. destruct H as [Hc Hs].
  unfold nonblank at 1. rewrite Hc. simpl. apply IH. exact Hs.
Qed.

Lemma single_spaced_spaced t : single_spaced t -> spaced false t = true.
Proof.
  intros (H1 & H2 & _ & _).
  enough (G : forall b,
            (b = true -> forall c r, t = c :: r -> is_space c = false) ->
            spaced b t = true).
  { apply G. discriminate. }
  induction t as [|c t IH]; intros b Hb; [reflexivity|].
  assert (IH' : forall b',
            (b' = true -> forall c' r, t = c' :: r -> is_space c' = false) ->
            spaced b' t = true).
  { apply IH.
    - intros c' Hin. apply H1. right. exact Hin.
    - intros a x y r E. apply (H2 (c :: a) x y r). rewrite E. reflexivity. }
  simpl. destruct (is_space c) eqn:E.
  - rewrite (H1 c (or_introl eq_refl) E) at 1.
    change (ascii_eqb " " " ") with true.
    destruct b.
    + rewrite (Hb eq_refl c t eq_refl) in E. discriminate E.
    + simpl. apply IH'. intros _ c' r ->.
      apply (H2 [] c c' r eq_refl E).
  - apply IH'. discriminate.
Qed.

Lemma norm_spaces_eq t :
  single_spaced t -> norm_spaces t = t.
Proof.
  intros H. unfold norm_spaces, strip.
  rewrite (sub_spaces_fixed _ _ (single_spaced_spaced _ H)).
  destruct H as (_ & _ & H3 & H4). apply strip_by_id; assumption.
Qed.

Lemma norm_spaces_shape s : single_spaced (norm_spaces s).
Proof.
  unfold norm_spaces, strip.
  destruct (strip_by_spec is_space (sub_spaces false s))
    as (pre & post & E & _ & _ & Hh & Hl).
  pose proof (spaced_sub_spaces s false) as Hs. rewrite E in Hs.
  apply spaced_app_r in Hs. apply spaced_app_l in Hs.
  repeat split.
  - intros c. apply (spaced_blank _ _ _ Hs).
  - intros a x y r Er. rewrite Er in Hs. apply (spaced_adjacent _ _ _ _ _ Hs).
  - exact Hh.
  - exact Hl.
Qed.

(** X2.  [norm_spaces] leaves a title in which every blank is one space
    standing between two other characters (no tab or line end, no run of
    blanks, no blank at either end), keeps the other characters in their
    order, and does nothing to a title it has already normalised. *)
Theorem norm_spaces_single_spaced (s : text) :
  single_spaced (norm_spaces s) /\
  filter nonblank (norm_spaces s) = filter nonblank s /\
  norm_spaces (norm_spaces s) = norm_spaces s.
Proof.
  split; [apply norm_spaces_shape|]. split.
  - unfold norm_spaces, strip.
    destruct (strip_by_spec is_space (sub_spaces false s))
      as (pre & post & E & Hpre & Hpost & _ & _).
    rewrite <- (sub_spaces_nonblank s false). rewrite E at 2.
    rewrite !filter_app, (filter_nonblank_blanks _ Hpre),
      (filter_nonblank_blanks _ Hpost), app_nil_r. reflexivity.
  - apply norm_spaces_eq, norm_spaces_shape.
Qed.

(** X3.  The titles [norm_spaces] leaves alone are exactly the
    single-spaced ones. *)
Theorem norm_spaces_fixed_iff (t : text) :
  norm_spaces t = t <-> single_spaced t.
Proof.
  split.
  - intros E. rewrite <- E. apply norm_spaces_shape.
  - apply norm_spaces_eq.
Qed.

Example norm_spaces_tabs :
  norm_spaces ([ascii_of_nat 9] ++ txt "Show  S01E02" ++ [CR; LF]
               ++ txt "discussion ")
  = txt "Show S01E02 discussion".
Proof. reflexivity. Qed.

(* ================================================================== *)
(** * Trailers: [looks_like_trailer] *)
(* ================================================================== *)

Lemma contains_lower a t :
  contains (lower a) (lower t) = true <-> occurs_i a t.
Proof.
  rewrite contains_spec. unfold occurs_i, lower. split.
  - intros (p & q & E).
    apply map_eq_app in E. destruct E as (p' & r & -> & <- & E).
    apply map_eq_app in E. destruct E as (u & q' & -> & E & <-).
    exists p', u, q'. auto.
  - intros (p & u & q & -> & E).
    exists (map lower_char p), (map lower_char q).
    rewrite !map_app, E. reflexivity.
Qed.

Lemma contains_keyword k t :
  lower k = k -> (contains k (lower t) = true <-> occurs_i k t).
Proof. intros E. rewrite <- E at 1. apply contains_lower. Qed.

(** The two longer keywords hold the word "trailer". *)
Lemma keywords_hit t :
  existsb (fun k => contains k t) TRAILER_KEYWORDS
  = contains (txt "trailer") t || contains (txt "teaser") t.
Proof.
  unfold TRAILER_KEYWORDS. cbn [existsb]. rewrite orb_false_r.
  destruct (contains (txt "trailer") t) eqn:E.
  - rewrite !orb_true_r. reflexivity.
  - assert (A : forall k, contains (txt "trailer") k = true ->
                          contains k t = false).
    { intros k Hk. destruct (contains k t) eqn:Ek; [|reflexivity].
      rewrite (contains_trans _ _ _ Hk Ek) in E. discriminate E. }
    rewrite (A (txt "official trailer") eq_refl).
    rewrite (A (txt "teaser trailer") eq_refl). reflexivity.
Qed.

Lemma looks_like_trailer_eq SHOW_NAME QUERY_TERMS title :
  looks_like_trailer SHOW_NAME QUERY_TERMS title
  = (contains (lower SHOW_NAME) (lower title)
     || existsb (fun q => contains (lower (strip_chars dquote q))
                            (lower title))
          (filter truthy QUERY_TERMS))
    && (contains (txt "trailer") (lower title)
        || contains (txt "teaser") (lower title)).
Proof.
  unfold looks_like_trailer. cbv zeta. rewrite keywords_hit.
  destruct (contains (lower SHOW_NAME) (lower title)
            || existsb _ (filter truthy QUERY_TERMS)); reflexivity.
Qed.

(** X4.  A title looks like a trailer exactly when, case ignored, it
    holds the show name or a non-empty query term (without the double
    quotes around it), and holds "trailer" or "teaser"; the keywords
    "official trailer" and "teaser trailer" add nothing. *)
Theorem looks_like_trailer_iff (SHOW_NAME : text) (QUERY_TERMS : list text)
    (title : text) :
  looks_like_trailer SHOW_NAME QUERY_TERMS title = true <->
  (occurs_i SHOW_NAME title \/
   exists q, In q QUERY_TERMS /\ q <> [] /\
             occurs_i (strip_chars dquote q) title) /\
  (occurs_i (txt "trailer") title \/ occurs_i (txt "teaser") title).
Proof.
  rewrite looks_like_trailer_eq, andb_true_iff, !orb_true_iff.
  rewrite existsb_exists, contains_lower.
  rewrite (contains_keyword (txt "trailer") title eq_refl).
  rewrite (contains_keyword (txt "teaser") title eq_refl).
  split; intros [[Hs|(q & Hq & Hc)] Hk]; (split; [|exact Hk]); auto.
  - right. apply filter_In in Hq. destruct Hq as [Hin Ht].
    exists q. repeat split; auto.
    + apply truthy_nonempty. exact Ht.
    + apply contains_lower. exact Hc.
  - right. destruct Hc as [Hne Hc]. exists q. split.
    + apply filter_In. split; [exact Hq|]. apply truthy_nonempty. exact Hne.
    + apply contains_lower. exact Hc.
Qed.

(** X5.  With an empty show name, or a query term that is nothing but
    double quotes, the test for the show holds of every title: whatever
    says "trailer" or "teaser" is then flagged. *)
Theorem looks_like_trailer_empty_show (SHOW_NAME : text)
    (QUERY_TERMS : list text) (title : text) :
  SHOW_NAME = [] \/
  (exists q, In q QUERY_TERMS /\ q <> [] /\ strip_chars dquote q = []) ->
  looks_like_trailer SHOW_NAME QUERY_TERMS title
  = contains (txt "trailer") (lower title)
    || contains (txt "teaser") (lower title).
Proof.
  intros H. rewrite looks_like_trailer_eq.
  replace (contains (lower SHOW_NAME) (lower title)
           || existsb (fun q => contains (lower (strip_chars dquote q))
                                  (lower title))
                (filter truthy QUERY_TERMS)) with true; [reflexivity|].
  symmetry. apply orb_true_iff. destruct H as [->|(q & Hq & Hne & E)].
  - left. apply contains_nil.
  - right. apply existsb_exists. exists q. split.
    + apply filter_In. split; [exact Hq|]. apply truthy_nonempty. exact Hne.
    + rewrite E. apply contains_nil.
Qed.

Lemma looks_like_trailer_empty_show_witness :
  looks_like_trailer (txt "Starfleet Academy") [dquote ++ dquote]
    (txt "Dune teaser")
  = contains (txt "trailer") (lower (txt "Dune teaser"))
    || contains (txt "teaser") (lower (txt "Dune teaser")).
Proof.
  apply (looks_like_trailer_empty_show (txt "Starfleet Academy")
           [dquote ++ dquote] (txt "Dune teaser")).
  right. exists (dquote ++ dquote). split; [left; reflexivity|].
  split; [discriminate|reflexivity].
Defined.

Example trailer_upper_case :
  looks_like_trailer (txt "Starfleet Academy") [txt "Starfleet Academy"]
    (txt "STARFLEET ACADEMY | OFFICIAL TRAILER")
  = true.
Proof. reflexivity. Qed.

(* ================================================================== *)
(** * Configuration: comma-separated lists *)
(* ================================================================== *)

Lemma strip_by_padded_any d pre s post :
  forallb d pre = true -> forallb d post = true ->
  strip_by d (pre ++ s ++ post) = strip_by d s.
Proof.
  intros Hpre Hpost.
  destruct (strip_by_spec d s) as (p & q & E & Hp & Hq & Hh & Hl).
  rewrite E at 1.
  replace (pre ++ (p ++ strip_by d s ++ q) ++ post)
    with ((pre ++ p) ++ strip_by d s ++ (q ++ post))
    by (rewrite <- !app_assoc; reflexivity).
  apply strip_by_padded; auto; rewrite forallb_app.
  - rewrite Hpre, Hp. reflexivity.
  - rewrite Hq, Hpost. reflexivity.
Qed.

Lemma split_char_nonempty sep s : split_char sep s <> [].
Proof.
  destruct s as [|c s]; simpl; [discriminate|].
  destruct (ascii_eqb c sep); [discriminate|].
  destruct (split_char sep s); discriminate.
Qed.

Lemma split_char_no_sep sep s piece :
  In piece (split_char sep s) -> ~ In sep piece.
Proof.
  revert piece. induction s as [|c s IH]; intros piece H.
  - destruct H as [<-|[]]. simpl. tauto.
  - simpl in H. destruct (ascii_eqb c sep) eqn:E.
    + destruct H as [<-|H]; [simpl; tauto|]. apply IH. exact H.
    + destruct (split_char sep s) as [|p ps] eqn:Es.
      * destruct H as [<-|[]]. intros [->|[]].
        rewrite ascii_eqb_refl in E. discriminate E.
      * destruct H as [<-|H].
        -- intros [->|Hin].
           ++ rewrite ascii_eqb_refl in E. discriminate E.
           ++ apply (IH p (or_introl eq_refl)). exact Hin.
        -- apply IH. right. exact H.
Qed.

Lemma split_char_plain sep a :
  ~ In sep a -> split_char sep a = [a].
Proof.
  induction a as [|c a IH]; intros H; [reflexivity|].
  simpl. destruct (ascii_eqb c sep) eqn:E.
  - apply ascii_eqb_eq in E. subst c. exfalso. apply H. left. reflexivity.
  - rewrite IH; [reflexivity|]. intros Hin. apply H. right. exact Hin.
Qed.

Lemma split_char_sep sep a s :
  ~ In sep a -> split_char sep (a ++ sep :: s) = a :: split_char sep s.
Proof.
  induction a as [|c a IH]; intros H.
  - simpl. rewrite ascii_eqb_refl. reflexivity.
  - simpl. destruct (ascii_eqb c sep) eqn:E.
    + apply ascii_eqb_eq in E. subst c. exfalso. apply H. left. reflexivity.
    + rewrite IH; [reflexivity|]. intros Hin. apply H. right. exact Hin.
Qed.

Lemma blanks_no_comma ws : blanks ws -> ~ In comma ws.
Proof.
  unfold blanks. rewrite forallb_forall. intros H Hin.
  specialize (H _ Hin). discriminate H.
Qed.

Lemma list_item_strip l n r :
  list_item n -> blanks l -> blanks r ->
  strip (l ++ n ++ r) = n /\ truthy (strip (l ++ n ++ r)) = true.
Proof.
  intros (Hne & Hs & _) Hl Hr. unfold strip in *.
  rewrite (strip_by_padded_any _ _ _ _ Hl Hr), Hs. split; [reflexivity|].
  apply truthy_nonempty. exact Hne.
Qed.

Lemma comma_pieces ws1 ws2 ns : forall n l r,
  Forall list_item (n :: ns) -> blanks ws1 -> blanks ws2 ->
  blanks l -> blanks r ->
  flat_map (fun s => if truthy (strip s) then [strip s] else [])
    (split_char comma (l ++ join (ws1 ++ [comma] ++ ws2) (n :: ns) ++ r))
  = n :: ns.
Proof.
  induction ns as [|n' ns IH]; intros n l r Hall H1 H2 Hl Hr.
  - inversion Hall as [|? ? Hn _]; subst.
    cbn [join]. rewrite split_char_plain.
    + cbn [flat_map]. destruct (list_item_strip l n r Hn Hl Hr) as [E T].
      rewrite T, E. reflexivity.
    + intros Hin. apply in_app_or in Hin. destruct Hin as [Hin|Hin].
      * exact (blanks_no_comma _ Hl Hin).
      * apply in_app_or in Hin. destruct Hin as [Hin|Hin].
        -- destruct Hn as (_ & _ & Hn). exact (Hn Hin).
        -- exact (blanks_no_comma _ Hr Hin).
  - inversion Hall as [|? ? Hn Hrest]; subst.
    change (join (ws1 ++ [comma] ++ ws2) (n :: n' :: ns))
      with (n ++ (ws1 ++ [comma] ++ ws2)
              ++ join (ws1 ++ [comma] ++ ws2) (n' :: ns)).
    replace (l ++ (n ++ (ws1 ++ [comma] ++ ws2)
                     ++ join (ws1 ++ [comma] ++ ws2) (n' :: ns)) ++ r)
      with ((l ++ n ++ ws1)
            ++ comma :: (ws2 ++ join (ws1 ++ [comma] ++ ws2) (n' :: ns) ++ r)).
    2:{ rewrite <- !app_assoc. simpl. rewrite <- !app_assoc. reflexivity. }
    rewrite split_char_sep.
    + cbn [flat_map]. destruct (list_item_strip l n ws1 Hn Hl H1) as [E T].
      rewrite T, E. cbn [app]. f_equal. apply IH; assumption.
    + intros Hin. apply in_app_or in Hin. destruct Hin as [Hin|Hin].
      * exact (blanks_no_comma _ Hl Hin).
      * apply in_app_or in Hin. destruct Hin as [Hin|Hin].
        -- destruct Hn as (_ & _ & Hn'). exact (Hn' Hin).
        -- exact (blanks_no_comma _ H1 Hin).
Qed.

Lemma list_item_ends n :
  list_item n ->
  (exists c r, n = c :: r /\ is_space c = false) /\
  (exists r c, n = r ++ [c] /\ is_space c = false).
Proof.
  intros (Hne & Hs & _). unfold strip in Hs.
  destruct (strip_by_spec is_space n) as (_ & _ & _ & _ & _ & Hh & Hl).
  rewrite Hs in Hh, Hl. split.
  - destruct n as [|c r]; [congruence|]. exists c, r. split; [reflexivity|].
    apply (Hh c r eq_refl).
  - destruct (exists_last Hne) as (r & c & E). exists r, c.
    split; [exact E|]. apply (Hl r c E).
Qed.

Lemma join_ends sep ns : forall n,
  Forall list_item (n :: ns) ->
  (forall c r, join sep (n :: ns) = c :: r -> is_space c = false) /\
  (forall r c, join sep (n :: ns) = r ++ [c] -> is_space c = false).
Proof.
  induction ns as [|n' ns IH]; intros n Hall;
    inversion Hall as [|? ? Hn Hrest]; subst;
    destruct (list_item_ends n Hn) as [(c0 & r0 & E0 & H0) (r1 & c1 & E1 & H1)].
  - cbn [join]. split.
    + intros c r E. rewrite E0 in E. injection E as <- _. exact H0.
    + intros r c E. rewrite E1 in E. apply app_inj_tail in E.
      destruct E as [_ <-]. exact H1.
  - change (join sep (n :: n' :: ns))
      with (n ++ sep ++ join sep (n' :: ns)).
    split.
    + intros c r E. rewrite E0 in E. injection E as <- _. exact H0.
    + intros r c E. destruct (IH n' Hrest) as [_ Hl].
      inversion Hrest as [|? ? Hn' _]; subst.
      assert (Hne : join sep (n' :: ns) <> []).
      { destruct (list_item_ends n' Hn') as [(c2 & r2 & E2 & _) _].
        destruct ns; cbn [join]; rewrite E2; discriminate. }
      destruct (exists_last Hne) as (r' & c' & E').
      rewrite E', !app_assoc in E. apply app_inj_tail in E.
      destruct E as [_ <-]. apply (Hl r' c' E').
Qed.

(** X6.  What SUBREDDITS and QUERY_TERMS hold after the configuration is
    read: every entry is non-empty, has no blank at either end and no
    comma. *)
Theorem comma_list_items (value : text) :
  Forall list_item (comma_list value).
Proof.
  apply Forall_forall. intros x Hx. unfold comma_list in Hx.
  apply in_flat_map in Hx. destruct Hx as (s & Hs & Hx).
  destruct (truthy (strip s)) eqn:T; [|contradiction].
  destruct Hx as [<-|[]]. repeat split.
  - apply truthy_nonempty. exact T.
  - apply strip_by_idem.
  - intros Hin. apply (split_char_no_sep _ _ _ Hs).
    destruct (strip_by_spec is_space s) as (pre & post & E & _).
    rewrite E. apply in_or_app. right. apply in_or_app. left. exact Hin.
Qed.

(** X7.  The configuration reads a list of names back from its written
    form: names separated by commas, with any blanks around the commas
    and around the whole value, give exactly these names, in order; an
    empty or blank value gives no name. *)
Theorem comma_list_join (names : list text) (pre ws1 ws2 post : text) :
  Forall list_item names ->
  blanks pre -> blanks ws1 -> blanks ws2 -> blanks post ->
  comma_list (pre ++ join (ws1 ++ [comma] ++ ws2) names ++ post) = names.
Proof.
  intros Hall Hpre H1 H2 Hpost. unfold comma_list.
  destruct names as [|n ns].
  - cbn [join app]. unfold strip. rewrite strip_by_all; [reflexivity|].
    unfold blanks in *. rewrite forallb_app, Hpre, Hpost. reflexivity.
  - destruct (join_ends (ws1 ++ [comma] ++ ws2) ns n Hall) as [Hh Hl].
    unfold strip at 3. rewrite (strip_by_padded _ _ _ _ Hpre Hpost Hh Hl).
    pose proof (comma_pieces ws1 ws2 ns n [] [] Hall H1 H2 eq_refl eq_refl)
      as G.
    cbn [app] in G. rewrite app_nil_r in G. exact G.
Qed.

Lemma comma_list_join_witness :
  comma_list (txt " " ++ join ([] ++ [comma] ++ txt " ")
                           [txt "television"; txt "Star Trek"] ++ [LF])
  = [txt "television"; txt "Star Trek"].
Proof.
  apply (comma_list_join [txt "television"; txt "Star Trek"]
           (txt " ") [] (txt " ") [LF]); try reflexivity.
  repeat constructor; discriminate || (vm_compute; intuition discriminate).
Defined.

Example comma_list_quoted :
  comma_list (dquote ++ txt "Star Trek: Starfleet Academy" ++ dquote
              ++ txt ",Starfleet Academy,, ")
  = [dquote ++ txt "Star Trek: Starfleet Academy" ++ dquote;
     txt "Starfleet Academy"].
Proof. reflexivity. Qed.

(* ================================================================== *)
(** * Episode codes: the three outcomes *)
(* ================================================================== *)

Lemma truthy_app_cons a c b : truthy (a ++ c :: b) = true.
Proof. destruct a; reflexivity. Qed.

Lemma extract_loop_none title :
  extract_episode_code title = Ok None <->
  forall pat, In pat EP_PATTERNS -> search pat title = None.
Proof.
  split.
  - intros E.
    destruct (search pat_x title) as [m|] eqn:Hx.
    { destruct (extract_season_x_gives_E _ _ Hx) as (n & _ & _ & E').
      congruence. }
    destruct (search pat_se title) as [m|] eqn:Hse.
    { destruct (extract_season_episode _ _ Hx Hse) as (a & b & _ & _ & E').
      congruence. }
    destruct (search pat_ep title) as [m|] eqn:Hep.
    { destruct (extract_ep_only _ _ Hx Hse Hep)
        as (? & ? & ? & ? & ? & ? & n & _ & _ & _ & _ & _ & _ & _ & _ & E').
      congruence. }
    intros pat [<-|[<-|[<-|[]]]]; assumption.
  - intros H. unfold extract_episode_code, EP_PATTERNS. cbn [extract_loop].
    rewrite (H pat_x), (H pat_se), (H pat_ep); [reflexivity| ..];
      unfold EP_PATTERNS; simpl; auto.
Qed.

Lemma extract_code_forms title c :
  extract_episode_code title = Ok (Some c) ->
  truthy c = true /\
  ((exists n, 0 <= n <= 99 /\ c = txt "E" ++ fmt_02d n) \/
   (exists season ep,
      0 <= season <= 99 /\ 0 <= ep <= 99 /\
      c = py_str season ++ txt "x" ++ fmt_02d ep)).
Proof.
  intros E.
  destruct (search pat_x title) as [m|] eqn:Hx.
  { destruct (extract_season_x_gives_E _ _ Hx) as (n & _ & Hn & E').
    rewrite E' in E. injection E as <-. split; [reflexivity|]. left. eauto. }
  destruct (search pat_se title) as [m|] eqn:Hse.
  { destruct (extract_season_episode _ _ Hx Hse) as (a & b & Ha & Hb & E').
    rewrite E' in E. injection E as <-.
    split; [apply truthy_app_cons|]. right. exists a, b.
    pose proof Hse as Hs. apply search_from_inv in Hs.
    destruct Hs as (pre & rest & _ & Hm). apply pat_se_match_inv in Hm.
    destruct Hm as (d1 & d2 & D1 & D2 & ->).
    change (group [(2%nat, d2); (1%nat, d1)] 1) with d1 in Ha.
    change (group [(2%nat, d2); (1%nat, d1)] 2) with d2 in Hb.
    destruct (digits12_int _ D1) as (n1 & Hn1 & R1).
    destruct (digits12_int _ D2) as (n2 & Hn2 & R2).
    rewrite Ha in Hn1. rewrite Hb in Hn2.
    injection Hn1 as <-. injection Hn2 as <-. auto. }
  destruct (search pat_ep title) as [m|] eqn:Hep.
  { destruct (extract_ep_only _ _ Hx Hse Hep)
      as (? & ? & ? & ? & ? & ? & n & _ & _ & _ & _ & _ & _ & _ & Hn & E').
    rewrite E' in E. injection E as <-. split; [reflexivity|]. left. eauto. }
  exfalso.
  assert (N : extract_episode_code title = Ok None).
  { apply extract_loop_none. intros pat [<-|[<-|[<-|[]]]]; assumption. }
  congruence.
Qed.

(** X8.  [extract_episode_code] returns for every title, never raising:
    [None] exactly when none of the three patterns is found; otherwise a
    code that is never the empty string, so that testing the code for
    truth is testing that there is one, and that has one of two shapes:
    "E" and a two-digit number, or a season number, "x" and a two-digit
    episode number. *)
Theorem extract_episode_code_shape (title : text) :
  (exists r, extract_episode_code title = Ok r) /\
  (extract_episode_code title = Ok None <->
   forall pat, In pat EP_PATTERNS -> search pat title = None) /\
  (forall c, extract_episode_code title = Ok (Some c) ->
     truthy c = true /\
     ((exists n, 0 <= n <= 99 /\ c = txt "E" ++ fmt_02d n) \/
      (exists season ep,
         0 <= season <= 99 /\ 0 <= ep <= 99 /\
         c = py_str season ++ txt "x" ++ fmt_02d ep))).
Proof.
  split; [apply extract_episode_code_returns|].
  split; [apply extract_loop_none|].
  apply extract_code_forms.
Qed.

(* ================================================================== *)
(** * The retry loop: effects and outcomes *)
(* ================================================================== *)

Lemma int_digits_nonneg s : forall acc seen n,
  0 <= acc -> int_digits acc seen s = Some n -> 0 <= n.
Proof.
  induction s as [|c s IH]; intros acc seen n Hacc H.
  - simpl in H. destruct seen; [|discriminate]. injection H as <-. exact Hacc.
  - destruct (is_decimal c) eqn:Hc.
    + rewrite (int_digits_step c acc seen s Hc) in H.
      assert (D : 0 <= digit_val c).
      { apply decimal_cases in Hc. simpl in Hc.
        repeat (destruct Hc as [<-|Hc]; [vm_compute; discriminate|]).
        contradiction. }
      apply (IH (10 * acc + digit_val c) true n); [lia|exact H].
    + cbn [int_digits] in H. rewrite Hc in H.
      destruct (Nat.eqb (code c) 95 && seen); [|discriminate].
      destruct s as [|d s']; [discriminate|].
      destruct (is_decimal d); [|discriminate].
      apply (IH _ _ _ Hacc H).
Qed.

Lemma char_isdigit_no_sign c :
  char_isdigit c = true ->
  Nat.eqb (code c) 43 = false /\ Nat.eqb (code c) 45 = false.
Proof.
  destruct c as [[] [] [] [] [] [] [] []]; vm_compute; intros H;
    try discriminate H; auto.
Qed.

(** A numeral that passes [isdigit] has no sign: what [int] makes of it
    is not negative. *)
Lemma py_int_isdigit_nonneg ra n :
  isdigit ra = true -> py_int ra = Some n -> 0 <= n.
Proof.
  unfold isdigit. intros H E. apply andb_prop in H. destruct H as [_ H].
  change (py_int ra) with (int_body (strip_by int_blank ra)) in E.
  destruct (strip_by_spec int_blank ra) as (pre & post & Era & _).
  destruct (strip_by int_blank ra) as [|c s]; [discriminate E|].
  assert (Hc : char_isdigit c = true).
  { rewrite forallb_forall in H. apply H. rewrite Era.
    apply in_or_app. right. left. reflexivity. }
  destruct (char_isdigit_no_sign c Hc) as [H43 H45].
  unfold int_body in E. rewrite H43, H45 in E.
  apply (int_digits_nonneg _ _ _ _ (Z.le_refl 0) E).
Qed.

Section MoreHttpFacts.

Variable J : Type.
Variable server : nat -> request -> response J.
Variable rq : request.

Lemma deliver_world (r : response J) w : snd (deliver r w) = w.
Proof.
  unfold deliver, bind, raise_for_status, raise, ret, r_json.
  destruct ((400 <=? status_code r) && (status_code r <? 600)); [reflexivity|].
  destruct (negb _); [reflexivity|].
  destruct (body r); reflexivity.
Qed.

Lemma deliver_ok_inv (r : response J) w j w' :
  deliver r w = (Ok j, w') ->
  w' = w /\ is_error_status (status_code r) = false /\
  contains (txt "json") (lower (or_default (content_type r) [])) = true /\
  body r = Some j.
Proof.
  unfold deliver, bind, raise_for_status, raise, ret, r_json, is_error_status.
  destruct ((400 <=? status_code r) && (status_code r <? 600));
    [discriminate|].
  destruct (contains (txt "json") (lower (or_default (content_type r) [])));
    cbn [negb]; [|discriminate].
  destruct (body r); [|discriminate].
  intros H. injection H as -> ->. auto.
Qed.

Lemma deliver_error (r : response J) w :
  is_error_status (status_code r) = true ->
  deliver r w = (Raise (HTTPError (status_code r)), w).
Proof.
  unfold deliver, bind, raise_for_status, raise, is_error_status.
  intros ->. reflexivity.
Qed.

Lemma wait_of_nonneg (r : response J) attempt wt :
  wait_of r attempt = Some wt -> 0 <= wt.
Proof.
  assert (B : 0 <= backoff attempt).
  { unfold backoff. pose proof (Z.pow_nonneg 2 attempt). lia. }
  unfold wait_of.
  destruct (status_code r =? 429); [|intros H; injection H as <-; exact B].
  destruct (retry_after r) as [ra|]; [|intros H; injection H as <-; exact B].
  destruct (truthy ra && isdigit ra) eqn:E;
    [|intros H; injection H as <-; exact B].
  apply andb_prop in E. destruct E as [_ E].
  apply py_int_isdigit_nonneg. exact E.
Qed.

Lemma retried_nonneg w attempt k waits :
  retried server rq w attempt k waits -> Forall (fun s => 0 <= s) waits.
Proof.
  intros [Hl H]. apply Forall_forall. intros x Hx.
  apply (In_nth _ _ 0) in Hx. destruct Hx as (i & Hi & <-).
  rewrite Hl in Hi. destruct (H i Hi) as [_ Hw].
  exact (wait_of_nonneg _ _ _ Hw).
Qed.

(** X9.  Whatever the server answers, the only effects of a call of
    [request_json] are [k] sendings of the same request, with
    [k <= max_retries], and at most [k] sleeps, each of a time that is
    not negative. *)
Theorem request_json_effects (max_retries : Z) (w : world) :
  exists k waits,
    (k <= Z.to_nat max_retries)%nat /\ (length waits <= k)%nat /\
    Forall (fun s => 0 <= s) waits /\
    snd (request_json server rq max_retries w) = after rq w k waits.
Proof.
  unfold request_json.
  destruct (retry_loop_cases J server rq (Z.to_nat max_retries) 1 w)
    as [(k & waits & Hk & R & Hf & E)
       |[(k & waits & ra & Hk & R & _ & _ & _ & _ & E)
        |(waits & R & E)]].
  - exists (S k), waits. split; [lia|]. split; [destruct R; lia|].
    split; [exact (retried_nonneg _ _ _ _ R)|].
    rewrite E. apply deliver_world.
  - exists (S k), waits. split; [lia|]. split; [destruct R; lia|].
    split; [exact (retried_nonneg _ _ _ _ R)|].
    rewrite E. reflexivity.
  - exists (Z.to_nat max_retries), waits. split; [lia|].
    split; [destruct R; lia|].
    split; [exact (retried_nonneg _ _ _ _ R)|].
    rewrite E. reflexivity.
Qed.

(** X10.  What [request_json] returns is always the decoded body of a
    response that is neither 429 nor 5xx, has no error status and
    announces JSON, received after [k < max_retries] retryable responses,
    after each of which the loop slept. *)
Theorem request_json_returns (max_retries : Z) (w : world) (j : J)
    (w' : world) :
  request_json server rq max_retries w = (Ok j, w') ->
  exists k waits,
    Z.of_nat k < max_retries /\ retried server rq w 1 k waits /\
    w' = after rq w (S k) waits /\
    let r := server (length (sent w) + k)%nat rq in
    retryable r = false /\ is_error_status (status_code r) = false /\
    contains (txt "json") (lower (or_default (content_type r) [])) = true /\
    body r = Some j.
Proof.
  unfold request_json. intros H.
  destruct (retry_loop_cases J server rq (Z.to_nat max_retries) 1 w)
    as [(k & waits & Hk & R & Hf & E)
       |[(k & waits & ra & Hk & R & _ & _ & _ & _ & E)
        |(waits & R & E)]].
  - rewrite E in H. apply deliver_ok_inv in H.
    destruct H as (-> & Hs & Hc & Hb).
    exists k, waits. split; [lia|]. split; [exact R|].
    split; [reflexivity|]. cbn zeta. auto.
  - rewrite E in H. discriminate H.
  - rewrite E in H. discriminate H.
Qed.

(** X11.  A response with an error status other than 429 and below 500
    is not retried: the first one ends the call with the HTTPError of
    [raise_for_status], after one request and without a sleep. *)
Theorem request_json_client_error (max_retries : Z) (w : world) :
  let r := server (length (sent w)) rq in
  1 <= max_retries ->
  400 <= status_code r < 500 -> status_code r <> 429 ->
  request_json server rq max_retries w
  = (Raise (HTTPError (status_code r)),
     {| sent := rq :: sent w; slept := slept w |}).
Proof.
  intros r Hm Hs H429. unfold request_json.
  destruct (Z.to_nat max_retries) as [|n] eqn:En; [lia|].
  assert (Hr : retryable (server (length (sent w)) rq) = false).
  { unfold retryable, is_5xx. fold r. apply orb_false_iff. split.
    - apply Z.eqb_neq. exact H429.
    - apply andb_false_iff. left. apply Z.leb_gt. lia. }
  rewrite (retry_step_final J server rq n 1 w Hr). fold r.
  apply deliver_error. unfold is_error_status.
  apply andb_true_iff. split; [apply Z.leb_le|apply Z.ltb_lt]; lia.
Qed.

End MoreHttpFacts.

Lemma request_json_returns_witness :
  exists k waits,
    Z.of_nat k < 5 /\ retried (fun _ _ => json_ok) rq_demo world0 1 k waits /\
    {| sent := [rq_demo]; slept := [] |} = after rq_demo world0 (S k) waits /\
    let r := json_ok in
    retryable r = false /\ is_error_status (status_code r) = false /\
    contains (txt "json") (lower (or_default (content_type r) [])) = true /\
    body r = Some 7%nat.
Proof.
  apply (request_json_returns nat (fun _ _ => json_ok) rq_demo 5 world0 7%nat
           {| sent := [rq_demo]; slept := [] |}).
  reflexivity.
Defined.

Lemma request_json_client_error_witness :
  request_json (fun _ _ => not_found) rq_demo 5 world0
  = (Raise (HTTPError 404), {| sent := [rq_demo]; slept := [] |}).
Proof.
  apply (request_json_client_error nat (fun _ _ => not_found) rq_demo 5
           world0); simpl; lia.
Defined.

(* ================================================================== *)
(** * The search: requests sent and posts built *)
(* ================================================================== *)

Lemma for_each_sent_bound {A S} (f : S -> A -> M S) (c : nat) :
  (forall s a w,
     (length (sent (snd (f s a w))) <= length (sent w) + c)%nat) ->
  forall l s w,
    (length (sent (snd (for_each f l s w)))
     <= length (sent w) + c * length l)%nat.
Proof.
  intros Hf. induction l as [|a l IH]; intros s w.
  - simpl. lia.
  - cbn [for_each]. unfold bind. specialize (Hf s a w).
    destruct (f s a w) as [[s'|e] w1]; cbn [snd] in *.
    + specialize (IH s' w1). cbn [length]. lia.
    + cbn [length]. lia.
Qed.

Lemma for_each_nothing {A S} (f : S -> A -> M S) :
  (forall s a w, f s a w = (Ok s, w)) ->
  forall l s w, for_each f l s w = (Ok s, w).
Proof.
  intros Hf. induction l as [|a l IH]; intros s w; [reflexivity|].
  cbn [for_each]. unfold bind. rewrite Hf. apply IH.
Qed.

Lemma or_default_nonempty x d : d <> [] -> or_default x d <> [].
Proof.
  intros Hd. unfold or_default. destruct x as [s|]; [|exact Hd].
  destruct (truthy s) eqn:T; [|exact Hd]. apply truthy_nonempty. exact T.
Qed.

Section MoreFetchFacts.

Variable SHOW_NAME : text.
Variable SUBREDDITS : list text.
Variable QUERY_TERMS : list text.
Variable isoformat_utc : Z -> result text.
Variable server : nat -> request -> response listing.

Lemma search_step_bound sr acc term w :
  (length (sent (snd
     ((data <- request_json server (search_request sr term) 5 ;;
       lift (for_each_r (visit_child SHOW_NAME QUERY_TERMS isoformat_utc sr)
               data acc)) w)))
   <= length (sent w) + 5)%nat.
Proof.
  unfold bind.
  pose proof (request_json_at_most listing server (search_request sr term)
                5 w) as H.
  destruct (request_json server (search_request sr term) 5 w)
    as [[data|e] w1]; cbn [snd] in *; [unfold lift; cbn [snd]|];
    change (Z.to_nat 5) with 5%nat in H; exact H.
Qed.

(** X12.  A run of [fetch_search_posts] sends at most five requests per
    pair of a subreddit and a query term, whatever the answers and
    whether or not it ends with an error; with no subreddit or no query
    term it sends nothing and returns no post. *)
Theorem fetch_search_posts_requests (w : world) :
  (length (sent (snd (fetch_search_posts SHOW_NAME SUBREDDITS QUERY_TERMS
                        isoformat_utc server w)))
   <= length (sent w) + 5 * (length SUBREDDITS * length QUERY_TERMS))%nat /\
  (SUBREDDITS = [] \/ QUERY_TERMS = [] ->
   fetch_search_posts SHOW_NAME SUBREDDITS QUERY_TERMS isoformat_utc server w
   = (Ok [], w)).
Proof.
  split.
  - unfold fetch_search_posts, bind.
    assert (B : (length (sent (snd (fetch_loops SHOW_NAME SUBREDDITS
                                      QUERY_TERMS isoformat_utc server w)))
                 <= length (sent w)
                    + (5 * length QUERY_TERMS) * length SUBREDDITS)%nat).
    { unfold fetch_loops. apply for_each_sent_bound. intros acc sr w0.
      apply for_each_sent_bound. intros acc' term w1.
      apply search_step_bound. }
    destruct (fetch_loops _ _ _ _ _ w) as [[acc|e] w1]; cbn [snd] in *;
      [unfold ret; cbn [snd]|]; lia.
  - intros H. unfold fetch_search_posts, bind.
    assert (E : fetch_loops SHOW_NAME SUBREDDITS QUERY_TERMS isoformat_utc
                  server w = (Ok ([], []), w)).
    { unfold fetch_loops. destruct H as [->| ->]; [reflexivity|].
      apply for_each_nothing. intros s a w0. reflexivity. }
    rewrite E. reflexivity.
Qed.

Lemma make_post_fields sr pid d p :
  make_post SHOW_NAME QUERY_TERMS isoformat_utc sr pid d = Ok p ->
  name p <> [] /\
  single_spaced (title p) /\
  (exists path, permalink p = txt "https://www.reddit.com" ++ path) /\
  (created_utc p = 0 -> created_iso p = []) /\
  (has_episode_code p = true <-> episode_code p <> None).
Proof.
  unfold make_post.
  destruct (safe_int (d_created_utc d) 0 =? 0) eqn:Ec.
  - destruct (extract_episode_code (or_default (d_title d) [])) as [ep|e]
      eqn:Ee; [|discriminate].
    intros H. injection H as <-. cbn.
    split; [apply or_default_nonempty; discriminate|].
    split; [apply norm_spaces_shape|].
    split; [eauto|]. split; [reflexivity|].
    destruct ep as [c|].
    + destruct (extract_code_forms _ _ Ee) as [T _].
      unfold has_episode_code. cbn. rewrite T. split; [discriminate|reflexivity].
    + unfold has_episode_code. cbn. split; [discriminate|congruence].
  - destruct (isoformat_utc (safe_int (d_created_utc d) 0)) as [iso|e];
      [|discriminate].
    destruct (extract_episode_code (or_default (d_title d) [])) as [ep|e]
      eqn:Ee; [|discriminate].
    intros H. injection H as <-. cbn.
    split; [apply or_default_nonempty; discriminate|].
    split; [apply norm_spaces_shape|].
    split; [eauto|]. split.
    { intros E0. rewrite E0 in Ec. discriminate Ec. }
    destruct ep as [c|].
    + destruct (extract_code_forms _ _ Ee) as [T _].
      unfold has_episode_code. cbn. rewrite T. split; [discriminate|reflexivity].
    + unfold has_episode_code. cbn. split; [discriminate|congruence].
Qed.

(** X13.  Every post [fetch_search_posts] returns has a non-empty name,
    a single-spaced title, a permalink on the site, an empty date text
    when its timestamp is 0, and counts as an episode post exactly when
    it has an episode code. *)
Theorem fetch_search_posts_fields (w : world) (posts : list Post)
    (w' : world) :
  fetch_search_posts SHOW_NAME SUBREDDITS QUERY_TERMS isoformat_utc server w
    = (Ok posts, w') ->
  Forall (fun p =>
    name p <> [] /\
    single_spaced (title p) /\
    (exists path, permalink p = txt "https://www.reddit.com" ++ path) /\
    (created_utc p = 0 -> created_iso p = []) /\
    (has_episode_code p = true <-> episode_code p <> None)) posts.
Proof.
  intros H. apply Forall_forall. intros p Hp.
  apply fetch_search_posts_inv in H.
  destruct H as (acc & H & ->).
  apply fetch_loops_visits in H. destruct H as (visits & _ & Hv).
  pose proof (visit_all SHOW_NAME QUERY_TERMS isoformat_utc visits [] _ _
                (visited_nil SHOW_NAME QUERY_TERMS isoformat_utc) Hv)
    as (_ & _ & Hposts & _).
  assert (Hin : In p (fst acc)).
  { eapply Permutation_in;
      [apply (sorted_reverse_perm Z.ltb created_utc)|exact Hp]. }
  destruct (Hposts p Hin) as (_ & sr & d & _ & Hm).
  exact (make_post_fields _ _ _ _ Hm).
Qed.

End MoreFetchFacts.

Lemma fetch_search_posts_fields_witness :
  Forall (fun p =>
    name p <> [] /\
    single_spaced (title p) /\
    (exists path, permalink p = txt "https://www.reddit.com" ++ path) /\
    (created_utc p = 0 -> created_iso p = []) /\
    (has_episode_code p = true <-> episode_code p <> None)) demo_posts.
Proof.
  apply (fetch_search_posts_fields (txt "Show") [txt "a"; txt "b"]
           [txt "Show"] iso_stub two_subreddits world0 demo_posts
           (snd (demo_fetch [txt "a"; txt "b"]))).
  reflexivity.
Defined.

(* ================================================================== *)
(** * Ascending sorts and the episode list *)
(* ================================================================== *)

Lemma code_eqb_eq x y : Nat.eqb (code x) (code y) = true <-> x = y.
Proof.
  rewrite Nat.eqb_eq. unfold code. split; [|congruence].
  intros H. rewrite <- (ascii_nat_embedding x), <- (ascii_nat_embedding y).
  congruence.
Qed.

Lemma text_ltb_irrefl a : text_ltb a a = false.
Proof.
  induction a as [|x a IH]; [reflexivity|]. simpl.
  rewrite Nat.ltb_irrefl, IH, andb_false_r. reflexivity.
Qed.

Lemma text_ltb_cons x a y b :
  text_ltb (x :: a) (y :: b) = true <->
  (code x < code y)%nat \/ (x = y /\ text_ltb a b = true).
Proof.
  simpl. rewrite orb_true_iff, andb_true_iff, Nat.ltb_lt, code_eqb_eq.
  reflexivity.
Qed.

Lemma text_ltb_trans a : forall b c,
  text_ltb a b = true -> text_ltb b c = true -> text_ltb a c = true.
Proof.
  induction a as [|x a IH]; intros [|y b] [|z c] H1 H2;
    try discriminate; try reflexivity.
  apply text_ltb_cons in H1, H2. apply text_ltb_cons.
  destruct H1 as [H1|[-> H1]], H2 as [H2|[-> H2]].
  - left. lia.
  - left. exact H1.
  - left. exact H2.
  - right. split; [reflexivity|]. exact (IH _ _ H1 H2).
Qed.

Lemma text_ltb_total a : forall b,
  text_ltb a b = false -> text_ltb b a = false -> a = b.
Proof.
  induction a as [|x a IH]; intros [|y b] H1 H2;
    try discriminate; try reflexivity.
  simpl in H1, H2. apply orb_false_elim in H1, H2.
  destruct H1 as [L1 E1], H2 as [L2 E2].
  apply Nat.ltb_ge in L1, L2.
  assert (E : x = y) by (apply code_eqb_eq, Nat.eqb_eq; lia).
  subst y. rewrite Nat.eqb_refl in E1, E2. simpl in E1, E2.
  f_equal. exact (IH _ E1 E2).
Qed.

Lemma code_time_ltb_spec a b :
  code_time_ltb a b = true <->
  text_ltb (fst a) (fst b) = true \/ (fst a = fst b /\ snd a < snd b).
Proof.
  unfold code_time_ltb.
  rewrite orb_true_iff, andb_true_iff, text_eqb_eq, Z.ltb_lt. reflexivity.
Qed.

Lemma code_time_irrefl a : code_time_ltb a a = false.
Proof.
  unfold code_time_ltb. rewrite text_ltb_irrefl, Z.ltb_irrefl, andb_false_r.
  reflexivity.
Qed.

Lemma code_time_trans a b c :
  code_time_ltb a b = true -> code_time_ltb b c = true ->
  code_time_ltb a c = true.
Proof.
  rewrite !code_time_ltb_spec.
  intros [H1|[E1 H1]] [H2|[E2 H2]].
  - left. exact (text_ltb_trans _ _ _ H1 H2).
  - left. rewrite <- E2. exact H1.
  - left. rewrite E1. exact H2.
  - right. split; [congruence|lia].
Qed.

Lemma code_time_total a b :
  code_time_ltb a b = false -> code_time_ltb b a = false -> a = b.
Proof.
  unfold code_time_ltb. intros H1 H2.
  apply orb_false_elim in H1, H2. destruct H1 as [L1 E1], H2 as [L2 E2].
  pose proof (text_ltb_total _ _ L1 L2) as E.
  rewrite E, text_eqb_refl in E1. rewrite E, text_eqb_refl in E2.
  simpl in E1, E2. apply Z.ltb_ge in E1, E2.
  destruct a, b. simpl in *. f_equal; [exact E|lia].
Qed.

Lemma code_time_asym a b :
  code_time_ltb a b = true -> code_time_ltb b a = false.
Proof.
  intros H. destruct (code_time_ltb b a) eqn:E; [|reflexivity].
  rewrite <- (code_time_irrefl a). symmetry.
  exact (code_time_trans _ _ _ H E).
Qed.

Lemma code_time_ge_trans a b c :
  code_time_ltb a b = false -> code_time_ltb b c = false ->
  code_time_ltb a c = false.
Proof.
  intros H1 H2. destruct (code_time_ltb a c) eqn:E; [|reflexivity].
  destruct (code_time_ltb c b) eqn:E3.
  - rewrite (code_time_trans _ _ _ E E3) in H1. discriminate H1.
  - pose proof (code_time_total _ _ H2 E3) as ->. congruence.
Qed.

Lemma code_time_eqb_eq a b : code_time_eqb a b = true <-> a = b.
Proof.
  unfold code_time_eqb. rewrite andb_true_iff, text_eqb_eq, Z.eqb_eq.
  destruct a, b; simpl. split; [intros [-> ->]; reflexivity|].
  intros H. injection H as -> ->. auto.
Qed.

Lemma code_time_lt_differ a b k :
  code_time_ltb a b = true -> code_time_eqb a k = true ->
  code_time_eqb b k = false.
Proof.
  intros H E. apply code_time_eqb_eq in E. subst k.
  destruct (code_time_eqb b a) eqn:E; [|reflexivity].
  apply code_time_eqb_eq in E. subst b.
  rewrite code_time_irrefl in H. discriminate H.
Qed.

(** An ascending sort is the descending sort for the converse order. *)
Lemma insert_asc_flip {A K} (key_lt : K -> K -> bool) (key : A -> K) x l :
  insert_asc key_lt key x l
  = insert_desc (fun a b => key_lt b a) key x l.
Proof.
  induction l as [|y l IH]; [reflexivity|]. simpl. rewrite IH. reflexivity.
Qed.

Lemma sorted_by_flip {A K} (key_lt : K -> K -> bool) (key : A -> K) l :
  sorted_by key_lt key l = sorted_reverse (fun a b => key_lt b a) key l.
Proof.
  induction l as [|x l IH]; [reflexivity|]. simpl.
  rewrite insert_asc_flip, IH. reflexivity.
Qed.

Lemma sorted_by_perm {A K} (key_lt : K -> K -> bool) (key : A -> K) l :
  Permutation (sorted_by key_lt key l) l.
Proof. rewrite sorted_by_flip. apply sorted_reverse_perm. Qed.

Lemma in_episode_order_iff p q :
  code_time_ltb (episode_key q) (episode_key p) = false <->
  in_episode_order p q.
Proof.
  unfold in_episode_order, episode_key, code_time_ltb. cbn [fst snd].
  fold (code_of p) (code_of q). split.
  - intros H. apply orb_false_elim in H. destruct H as [L E].
    destruct (text_ltb (code_of p) (code_of q)) eqn:L2; [left; reflexivity|].
    right. pose proof (text_ltb_total _ _ L L2) as Eq.
    rewrite Eq, text_eqb_refl in E. simpl in E. apply Z.ltb_ge in E.
    split; [congruence|exact E].
  - intros [H|[E H]].
    + apply orb_false_intro.
      * destruct (text_ltb (code_of q) (code_of p)) eqn:L; [|reflexivity].
        pose proof (text_ltb_trans _ _ _ H L) as C.
        rewrite text_ltb_irrefl in C. discriminate C.
      * destruct (text_eqb (code_of q) (code_of p)) eqn:Eq; [|reflexivity].
        apply text_eqb_eq in Eq. rewrite Eq, text_ltb_irrefl in H.
        discriminate H.
    + rewrite E, text_ltb_irrefl, text_eqb_refl. simpl.
      apply Z.ltb_ge. exact H.
Qed.

(** X14.  [episode_posts] returns the posts that have an episode code,
    each as often as it was given, in ascending order of the code
    compared as a string, posts with the same code oldest first; posts
    with the same code and the same timestamp keep the order they came
    in. *)
Theorem episode_posts_sorted (posts : list Post) :
  Permutation (episode_posts posts) (filter has_episode_code posts) /\
  StronglySorted in_episode_order (episode_posts posts) /\
  forall k,
    filter (with_key code_time_eqb episode_key k) (episode_posts posts)
    = filter (with_key code_time_eqb episode_key k)
        (filter has_episode_code posts).
Proof.
  unfold episode_posts. cbv zeta. split; [apply sorted_by_perm|]. split.
  - rewrite sorted_by_flip.
    eapply StronglySorted_impl;
      [|apply (sorted_reverse_sorted (fun a b => code_time_ltb b a)
                 episode_key)].
    + intros p q H. apply in_episode_order_iff. exact H.
    + intros a b H. apply code_time_asym. exact H.
    + intros a b c H1 H2. exact (code_time_ge_trans _ _ _ H2 H1).
  - intros k. rewrite sorted_by_flip.
    apply (sorted_reverse_stable (fun a b => code_time_ltb b a)
             code_time_eqb episode_key).
    intros a b k' H E.
    destruct (code_time_eqb b k') eqn:E2; [|reflexivity].
    apply code_time_eqb_eq in E, E2. subst. 
    rewrite code_time_irrefl in H. discriminate H.
Qed.

(** The codes are ordered as strings: season 10 comes before episode 2 of
    season 1, and every season code before an episode-only code. *)
Example episode_posts_string_order :
  map episode_code
    (episode_posts [with_episode (Some (txt "E03")) 1;
                    with_episode (Some (txt "1x02")) 2;
                    with_episode None 3;
                    with_episode (Some (txt "10x01")) 4;
                    with_episode (Some (txt "1x02")) 1])
  = [Some (txt "10x01"); Some (txt "1x02"); Some (txt "1x02");
     Some (txt "E03")].
Proof. reflexivity. Qed.

(* ================================================================== *)
(** * The selected posts *)
(* ================================================================== *)

Lemma pick_trailer_some posts t :
  pick_trailer posts = Some t -> In t posts /\ is_trailer t = true.
Proof.
  unfold pick_trailer. intros H.
  assert (Hin : In t (filter is_trailer posts)).
  { destruct (filter is_trailer posts) as [|x l] eqn:E; [discriminate|].
    eapply Permutation_in; [apply (sorted_reverse_perm pair_ltb rank)|].
    destruct (sorted_reverse pair_ltb rank (x :: l)) as [|y l']; [discriminate|].
    injection H as ->. left. reflexivity. }
  apply filter_In in Hin. exact Hin.
Qed.

Lemma NoDup_app_l {A} (l1 l2 : list A) : NoDup (l1 ++ l2) -> NoDup l1.
Proof.
  induction l1 as [|x l1 IH]; intros H; [constructor|].
  inversion H as [|? ? Hx Hn]; subst. constructor.
  - intros Hin. apply Hx. apply in_or_app. left. exact Hin.
  - apply IH. exact Hn.
Qed.

Lemma pick_other_posts_NoDup posts n :
  NoDup posts -> NoDup (pick_other_posts posts n).
Proof.
  intros H.
  destruct (pick_other_posts_prefix posts n) as (_ & rest & _ & P & _).
  apply (NoDup_app_l _ rest).
  eapply Permutation_NoDup; [symmetry; exact P|].
  apply NoDup_filter. exact H.
Qed.

(** X15.  The selected posts that [main] writes: at most [n + 1] of them
    for [n = OTHER_N >= 0]; the trailer comes first when there is one;
    each is one of the given posts and is listed as "Trailer" or as
    "Other", so that the "Episode" type never shows among them; and no
    post is selected twice. *)
Theorem selected_posts (posts : list Post) (n : Z) :
  0 <= n ->
  Z.of_nat (length (selected posts n)) <= n + 1 /\
  (forall t, pick_trailer posts = Some t ->
             hd_error (selected posts n) = Some t) /\
  Forall (fun p => In p posts /\
                   (sel_type p = txt "Trailer" \/ sel_type p = txt "Other"))
    (selected posts n) /\
  (NoDup posts -> NoDup (selected posts n)).
Proof.
  intros Hn. unfold selected. cbv zeta.
  pose proof (slice_to_length
                (sorted_reverse pair_ltb rank (filter candidate posts)) n Hn)
    as Hlen.
  fold (pick_other_posts posts n) in Hlen.
  destruct (pick_other_posts_prefix posts n) as (Hall & _).
  assert (Others : Forall (fun p => In p posts /\
                     (sel_type p = txt "Trailer" \/ sel_type p = txt "Other"))
                     (pick_other_posts posts n)).
  { eapply Forall_impl; [|exact Hall]. intros p (Hin & He & Ht).
    split; [exact Hin|]. right. unfold sel_type. rewrite Ht, He. reflexivity. }
  destruct (pick_trailer posts) as [t|] eqn:Et.
  - destruct (pick_trailer_some _ _ Et) as [Hin Ht].
    split; [cbn [app length]; lia|].
    split; [intros t' E; injection E as <-; reflexivity|].
    split.
    + constructor; [|exact Others]. split; [exact Hin|].
      left. unfold sel_type. rewrite Ht. reflexivity.
    + intros Hnd. cbn [app]. constructor.
      * intros Hin'. rewrite Forall_forall in Hall.
        destruct (Hall t Hin') as (_ & _ & Hf). congruence.
      * apply pick_other_posts_NoDup. exact Hnd.
  - cbn [app]. split; [lia|]. split; [discriminate|].
    split; [exact Others|]. apply pick_other_posts_NoDup.
Qed.

Lemma selected_posts_witness :
  Z.of_nat (length (selected three_posts 2)) <= 2 + 1 /\
  (forall t, pick_trailer three_posts = Some t ->
             hd_error (selected three_posts 2) = Some t) /\
  Forall (fun p => In p three_posts /\
                   (sel_type p = txt "Trailer" \/ sel_type p = txt "Other"))
    (selected three_posts 2) /\
  (NoDup three_posts -> NoDup (selected three_posts 2)).
Proof. apply (selected_posts three_posts 2). lia. Defined.

(* ================================================================== *)
(** * Writing CSV files *)
(* ================================================================== *)

Lemma dict_to_list_ok fieldnames d :
  wrong_fields fieldnames d = [] ->
  dict_to_list fieldnames d = Some (row_values fieldnames d).
Proof. unfold dict_to_list. intros ->. reflexivity. Qed.


Lemma write_rows_app fieldnames good : forall rest content,
  Forall (fun d => wrong_fields fieldnames d = []) good ->
  write_rows fieldnames (good ++ rest) content
  = write_rows fieldnames rest
      (content ++ concat (map csv_writerow
                            (map (row_values fieldnames) good))).
Proof.
  induction good as [|d good IH]; intros rest content H.
  - simpl. rewrite app_nil_r. reflexivity.
  - inversion H as [|? ? Hd Hg]; subst. cbn [app write_rows].
    rewrite (dict_to_list_ok _ _ Hd), (IH _ _ Hg).
    cbn [map concat]. rewrite <- !app_assoc. reflexivity.
Qed.

Lemma records_nonempty fieldnames (rows : list rowdict) :
  fieldnames <> [] ->
  Forall (fun fs : list text => fs <> [])
    (fieldnames :: map (row_values fieldnames) rows).
Proof.
  intros H. constructor; [exact H|]. apply Forall_forall. intros r Hr.
  apply in_map_iff in Hr. destruct Hr as (d & <- & _).
  unfold row_values. destruct fieldnames; [congruence|discriminate].
Qed.

Lemma header_rows_read fieldnames (rows : list rowdict) :
  fieldnames <> [] ->
  csv_read (writeheader fieldnames
            ++ concat (map csv_writerow (map (row_values fieldnames) rows)))
  = fieldnames :: map (row_values fieldnames) rows.
Proof.
  intros H.
  pose proof (csv_read_written _ (records_nonempty fieldnames rows H)) as R.
  exact R.
Qed.

Lemma write_csv_ok path rows fieldnames fs :
  Forall (fun d => wrong_fields fieldnames d = []) rows ->
  write_csv path rows fieldnames fs
  = (write_file path
       (writeheader fieldnames
        ++ concat (map csv_writerow (map (row_values fieldnames) rows))) fs,
     Written).
Proof.
  intros H. unfold write_csv.
  pose proof (write_rows_app fieldnames rows [] (writeheader fieldnames) H)
    as E.
  rewrite app_nil_r in E. rewrite E. reflexivity.
Qed.

Lemma write_file_same path s fs : write_file path s fs path = Some s.
Proof. unfold write_file. rewrite text_eqb_refl. reflexivity. Qed.

Lemma write_file_other path s fs q :
  q <> path -> write_file path s fs q = fs q.
Proof.
  intros H. unfold write_file. destruct (text_eqb q path) eqn:E; [|reflexivity].
  apply text_eqb_eq in E. contradiction.
Qed.





Example write_csv_missing_key :
  fst (write_csv (txt "out.csv") (firstn 2 sample_rows) [txt "id"; txt "n"]
         (fun _ => None)) (txt "out.csv")
  = Some (txt "id,n" ++ [CR; LF] ++ txt "a,3" ++ [CR; LF] ++ txt ",4"
          ++ [CR; LF]).
Proof. reflexivity. Qed.

(** ** The exports of [main] *)

Lemma all_row_fields p : map fst (all_row p) = ALL_FIELDS.
Proof. reflexivity. Qed.

Lemma all_rows_ok posts :
  Forall (fun d => wrong_fields ALL_FIELDS d = []) (map all_row posts).
Proof. apply Forall_forall. intros d H. apply in_map_iff in H.
  destruct H as (p & <- & _). reflexivity. Qed.

Lemma eps_rows_ok posts :
  Forall (fun d => wrong_fields EPISODE_FIELDS d = []) (map eps_row posts).
Proof. apply Forall_forall. intros d H. apply in_map_iff in H.
  destruct H as (p & <- & _). reflexivity. Qed.

Lemma sel_rows_ok posts :
  Forall (fun d => wrong_fields SELECTED_FIELDS d = []) (map sel_row posts).
Proof. apply Forall_forall. intros d H. apply in_map_iff in H.
  destruct H as (p & <- & _). reflexivity. Qed.

Lemma all_row_values p : row_values ALL_FIELDS (all_row p) = all_values p.
Proof.
  unfold all_values, code_of. destruct (is_trailer p) eqn:E;
    unfold row_values, all_row, zero_one; rewrite E; reflexivity.
Qed.

Lemma eps_row_values p :
  row_values EPISODE_FIELDS (eps_row p) = episode_values p.
Proof. reflexivity. Qed.

Lemma sel_row_values p :
  row_values SELECTED_FIELDS (sel_row p) = selected_values p.
Proof. reflexivity. Qed.

Lemma all_fieldnames_eq posts : all_fieldnames (map all_row posts) = ALL_FIELDS.
Proof. destruct posts; reflexivity. Qed.

Lemma map_row_values {A} fieldnames (row : A -> rowdict)
    (values : A -> list text) l :
  (forall p, row_values fieldnames (row p) = values p) ->
  map (row_values fieldnames) (map row l) = map values l.
Proof. intros H. rewrite map_map. apply map_ext. exact H. Qed.

(** X18.  The three exports of [main], written one after the other to
    three different paths, all succeed, and the files then read back as:
    the twelve columns of every fetched post, in the order fetched; the
    eight columns of the episode posts, in the order of [episode_posts];
    the nine columns of the selected posts, the trailer first.  A run
    that found no post leaves three files with their header only. *)
Theorem write_exports_read_back
    (ALL_POSTS_CSV EPISODE_POSTS_CSV SELECTED_POSTS_CSV : text)
    (OTHER_POSTS_N : Z) (posts : list Post) (fs : files) :
  ALL_POSTS_CSV <> EPISODE_POSTS_CSV ->
  ALL_POSTS_CSV <> SELECTED_POSTS_CSV ->
  EPISODE_POSTS_CSV <> SELECTED_POSTS_CSV ->
  exists fs',
    write_exports ALL_POSTS_CSV EPISODE_POSTS_CSV SELECTED_POSTS_CSV
      OTHER_POSTS_N posts fs = (fs', Written) /\
    records_of fs' ALL_POSTS_CSV = Some (ALL_FIELDS :: map all_values posts) /\
    records_of fs' EPISODE_POSTS_CSV
    = Some (EPISODE_FIELDS :: map episode_values (episode_posts posts)) /\
    records_of fs' SELECTED_POSTS_CSV
    = Some (SELECTED_FIELDS
            :: map selected_values (selected posts OTHER_POSTS_N)) /\
    forall q, q <> ALL_POSTS_CSV -> q <> EPISODE_POSTS_CSV ->
              q <> SELECTED_POSTS_CSV -> fs' q = fs q.
Proof.
  intros Hae Has Hes.
  unfold write_exports, write_all_posts, write_episode_posts,
    write_selected_posts.
  rewrite all_fieldnames_eq.
  rewrite (write_csv_ok _ _ _ _ (all_rows_ok posts)).
  rewrite (write_csv_ok _ _ _ _ (eps_rows_ok (episode_posts posts))).
  rewrite (write_csv_ok _ _ _ _
             (sel_rows_ok (selected posts OTHER_POSTS_N))).
  rewrite (map_row_values _ _ _ _ all_row_values).
  rewrite (map_row_values _ _ _ _ eps_row_values).
  rewrite (map_row_values _ _ _ _ sel_row_values).
  eexists. split; [reflexivity|]. unfold records_of.
  assert (HA : ALL_FIELDS <> []) by discriminate.
  assert (HE : EPISODE_FIELDS <> []) by discriminate.
  assert (HS : SELECTED_FIELDS <> []) by discriminate.
  split; [|split; [|split]].
  - rewrite write_file_other by exact Has.
    rewrite write_file_other by exact Hae.
    rewrite write_file_same. cbn [option_map]. f_equal.
    rewrite <- (map_row_values _ _ _ posts all_row_values).
    apply (header_rows_read _ _ HA).
  - rewrite write_file_other by exact Hes.
    rewrite write_file_same. cbn [option_map]. f_equal.
    rewrite <- (map_row_values _ _ _ (episode_posts posts) eps_row_values).
    apply (header_rows_read _ _ HE).
  - rewrite write_file_same. cbn [option_map]. f_equal.
    rewrite <- (map_row_values _ _ _ (selected posts OTHER_POSTS_N)
                  sel_row_values).
    apply (header_rows_read _ _ HS).
  - intros q H1 H2 H3. rewrite !write_file_other by assumption. reflexivity.
Qed.

Lemma write_exports_read_back_witness :
  exists fs',
    write_exports (txt "all.csv") (txt "episodes.csv") (txt "selected.csv")
      2 demo_posts (fun _ => None) = (fs', Written) /\
    records_of fs' (txt "all.csv")
    = Some (ALL_FIELDS :: map all_values demo_posts) /\
    records_of fs' (txt "episodes.csv")
    = Some (EPISODE_FIELDS :: map episode_values (episode_posts demo_posts)) /\
    records_of fs' (txt "selected.csv")
    = Some (SELECTED_FIELDS :: map selected_values (selected demo_posts 2)) /\
    forall q, q <> txt "all.csv" -> q <> txt "episodes.csv" ->
              q <> txt "selected.csv" -> fs' q = None.
Proof.
  apply (write_exports_read_back (txt "all.csv") (txt "episodes.csv")
           (txt "selected.csv") 2 demo_posts (fun _ => None));
    discriminate.
Defined.

(* ================================================================== *)
(** * The series of [make_plots] *)
(* ================================================================== *)

Lemma name_eqb_eq a b : name_eqb a b = true <-> a = b.
Proof.
  destruct a as [x|], b as [y|]; simpl.
  - rewrite text_eqb_eq. split; congruence.
  - split; discriminate.
  - split; discriminate.
  - tauto.
Qed.

Lemma name_eqb_refl a : name_eqb a a = true.
Proof. apply name_eqb_eq. reflexivity. Qed.

Lemma name_eqb_neq a b : name_eqb a b = false <-> a <> b.
Proof.
  rewrite <- name_eqb_eq. destruct (name_eqb a b); split; congruence.
Qed.

Lemma series_at_setdefault k k' x bp :
  series_at k (setdefault_append k' x bp)
  = if name_eqb k k' then series_at k bp ++ [x] else series_at k bp.
Proof.
  induction bp as [|[k0 s] bp IH].
  - simpl. destruct (name_eqb k k'); reflexivity.
  - cbn [setdefault_append]. destruct (name_eqb k' k0) eqn:E0.
    + apply name_eqb_eq in E0. subst k0. cbn [series_at].
      destruct (name_eqb k k'); reflexivity.
    + cbn [series_at]. destruct (name_eqb k k0) eqn:E1.
      * apply name_eqb_eq in E1. subst k0.
        replace (name_eqb k k') with false; [reflexivity|].
        symmetry. apply name_eqb_neq. apply name_eqb_neq in E0. congruence.
      * exact IH.
Qed.

Lemma keys_setdefault k' x bp :
  map fst (setdefault_append k' x bp)
  = if existsb (name_eqb k') (map fst bp) then map fst bp
    else map fst bp ++ [k'].
Proof.
  induction bp as [|[k0 s] bp IH]; [reflexivity|].
  cbn [setdefault_append map fst existsb].
  destruct (name_eqb k' k0); [reflexivity|]. cbn [map fst orb].
  rewrite IH. destruct (existsb (name_eqb k') (map fst bp)); reflexivity.
Qed.

Lemma NoDup_setdefault k' x bp :
  NoDup (map fst bp) -> NoDup (map fst (setdefault_append k' x bp)).
Proof.
  intros H. rewrite keys_setdefault.
  destruct (existsb (name_eqb k') (map fst bp)) eqn:E; [exact H|].
  apply NoDup_app; [exact H|repeat constructor; simpl; tauto|].
  intros a Ha [Ea|[]]. subst a.
  assert (T : existsb (name_eqb k') (map fst bp) = true).
  { apply existsb_exists. exists k'. split; [exact Ha|apply name_eqb_refl]. }
  congruence.
Qed.

Lemma series_at_fold kxs : forall bp k,
  series_at k
    (fold_left (fun bp kx => setdefault_append (fst kx) (snd kx) bp) kxs bp)
  = series_at k bp
    ++ map snd (filter (fun kx => name_eqb k (fst kx)) kxs).
Proof.
  induction kxs as [|[k' x] kxs IH]; intros bp k.
  - simpl. rewrite app_nil_r. reflexivity.
  - cbn [fold_left fst snd filter]. rewrite IH, series_at_setdefault.
    destruct (name_eqb k k'); cbn [map snd]; [|reflexivity].
    rewrite <- app_assoc. reflexivity.
Qed.

Lemma NoDup_fold kxs : forall bp,
  NoDup (map fst bp) ->
  NoDup (map fst
    (fold_left (fun bp kx => setdefault_append (fst kx) (snd kx) bp) kxs bp)).
Proof.
  induction kxs as [|[k' x] kxs IH]; intros bp H; [exact H|].
  cbn [fold_left]. apply IH. apply NoDup_setdefault. exact H.
Qed.

Section PlotFacts.

Variable parse_dt : text -> option Z.

Lemma group_rows_points rows : forall bp,
  has_columns rows ->
  group_rows parse_dt rows bp
  = Some (fold_left (fun bp kx => setdefault_append (fst kx) (snd kx) bp)
            (points parse_dt rows) bp).
Proof.
  induction rows as [|row rows IH]; intros bp H; [reflexivity|].
  inversion H as [|? ? (H1 & H2 & H3) Hrest]; subst.
  unfold points. cbn [flat_map group_rows]. unfold point_of.
  destruct (getitem (txt "snapshot_utc") row) as [snapshot|]; [|congruence].
  destruct (getitem (txt "post_name") row) as [post_name|]; [|congruence].
  destruct (getitem (txt "num_comments") row) as [n|]; [|congruence].
  destruct (parse_dt_value parse_dt snapshot) as [dt|].
  - cbn [app fold_left fst snd]. apply IH. exact Hrest.
  - cbn [app]. apply IH. exact Hrest.
Qed.

Lemma series_at_sort k bp :
  series_at k (sort_series bp) = sorted_by Z.ltb point_time (series_at k bp).
Proof.
  induction bp as [|[k0 s] bp IH]; [reflexivity|].
  cbn [sort_series map series_at]. destruct (name_eqb k k0); [reflexivity|].
  exact IH.
Qed.

Lemma keys_sort bp : map fst (sort_series bp) = map fst bp.
Proof.
  induction bp as [|[k0 s] bp IH]; [reflexivity|].
  cbn [sort_series map fst]. f_equal. exact IH.
Qed.

Lemma sorted_by_oldest_first l :
  oldest_first (sorted_by Z.ltb point_time l).
Proof.
  unfold oldest_first. rewrite sorted_by_flip.
  eapply StronglySorted_impl;
    [|apply (sorted_reverse_sorted (fun a b => b <? a) point_time)].
  - intros x y H. unfold may_precede in H. apply Z.ltb_ge in H. exact H.
  - intros a b H. apply Z.ltb_lt in H. apply Z.ltb_ge. lia.
  - intros a b c H1 H2. apply Z.ltb_ge in H1, H2. apply Z.ltb_ge. lia.
Qed.


(** The series of rows that all have the three columns. *)
Lemma series_of_rows rows :
  has_columns rows ->
  exists bp,
    option_map sort_series (group_rows parse_dt rows []) = Some bp /\
    NoDup (map fst bp) /\
    forall k,
      series_at k bp
      = sorted_by Z.ltb point_time (points_named parse_dt k rows).
Proof.
  intros H. rewrite (group_rows_points rows [] H). cbn [option_map].
  eexists. split; [reflexivity|]. split.
  - rewrite keys_sort. apply NoDup_fold. constructor.
  - intros k. rewrite series_at_sort, series_at_fold. reflexivity.
Qed.

Lemma dict_get_none {V} k (d : list (text * V)) :
  dict_get k d = None -> ~ In k (map fst d).
Proof.
  induction d as [|[k0 v] d IH]; intros H; [simpl; tauto|].
  cbn [dict_get] in H. destruct (text_eqb k k0) eqn:E; [discriminate|].
  intros [<-|Hin].
  - rewrite text_eqb_refl in E. discriminate E.
  - exact (IH H Hin).
Qed.

Lemma fst_combine {A B} (l : list A) : forall l' : list B,
  map fst (combine l l') = firstn (length l') l.
Proof.
  induction l as [|a l IH]; intros [|b l']; try reflexivity.
  simpl. rewrite IH. reflexivity.
Qed.

(** A row of the reader has every column of the header. *)
Lemma dict_row_has fieldnames record k :
  In k fieldnames -> getitem k (dict_row fieldnames record) <> None.
Proof.
  intros Hin E. apply dict_get_none in E. apply E. unfold dict_row.
  rewrite map_app, !map_rev, map_map, fst_combine, length_map.
  cbn [fst]. rewrite map_id.
  rewrite <- (firstn_skipn (length record) fieldnames) in Hin.
  apply in_app_or in Hin. apply in_or_app.
  destruct Hin as [Hin|Hin]; [right|left]; apply -> in_rev; exact Hin.
Qed.

Lemma dict_reader_columns fieldnames recs :
  In (txt "snapshot_utc") fieldnames -> In (txt "post_name") fieldnames ->
  In (txt "num_comments") fieldnames ->
  has_columns (dict_reader (fieldnames :: recs)).
Proof.
  intros H1 H2 H3. unfold has_columns, dict_reader.
  apply Forall_forall. intros row Hrow. apply in_map_iff in Hrow.
  destruct Hrow as (record & <- & _).
  repeat split; apply dict_row_has; assumption.
Qed.


End PlotFacts.


Example small_history_plots :
  make_plots seconds (txt "h.csv") (fun _ => Some small_history)
  = Plots [ {| label := Some (txt "t3_a"); cut := false;
               xs := [10; 20]; ys := [5; 7] |} ]
          [ {| label := Some []; cut := false; xs := [20]; ys := [1] |} ].
Proof. vm_compute. reflexivity. Qed.

(* ================================================================== *)
(** * From the runs to the plots *)
(* ================================================================== *)

Section HistoryFacts.

Variable COMMENT_HISTORY_CSV : text.

Let run_text (run : text * list Post) : text :=
  concat (map (fun p => dict_writerow (history_row (fst run) p)) (snd run)).

Lemma append_history_at s posts fs :
  append_history COMMENT_HISTORY_CSV s posts fs COMMENT_HISTORY_CSV
  = Some (match fs COMMENT_HISTORY_CSV with
          | Some old => old
          | None => writeheader HISTORY_FIELDS
          end ++ run_text (s, posts)).
Proof.
  unfold append_history, append_file, ensure_history_header.
  rewrite text_eqb_refl.
  destruct (fs COMMENT_HISTORY_CSV) as [old|] eqn:E.
  - rewrite E. reflexivity.
  - rewrite write_file_same. reflexivity.
Qed.

Lemma history_after_content runs : forall fs c,
  fs COMMENT_HISTORY_CSV = Some c ->
  history_after COMMENT_HISTORY_CSV runs fs COMMENT_HISTORY_CSV
  = Some (c ++ concat (map run_text runs)).
Proof.
  induction runs as [|[s posts] runs IH]; intros fs c H.
  - simpl. rewrite app_nil_r. exact H.
  - unfold history_after. cbn [fold_left fst snd].
    fold (history_after COMMENT_HISTORY_CSV runs
            (append_history COMMENT_HISTORY_CSV s posts fs)).
    rewrite (IH _ (c ++ run_text (s, posts))).
    + cbn [map concat]. rewrite <- app_assoc. reflexivity.
    + rewrite append_history_at, H. reflexivity.
Qed.

Lemma history_after_fresh runs fs :
  fs COMMENT_HISTORY_CSV = None -> runs <> [] ->
  history_after COMMENT_HISTORY_CSV runs fs COMMENT_HISTORY_CSV
  = Some (writeheader HISTORY_FIELDS ++ concat (map run_text runs)).
Proof.
  intros H Hne. destruct runs as [|[s posts] runs]; [congruence|].
  unfold history_after. cbn [fold_left fst snd].
  fold (history_after COMMENT_HISTORY_CSV runs
          (append_history COMMENT_HISTORY_CSV s posts fs)).
  rewrite (history_after_content runs _
             (writeheader HISTORY_FIELDS ++ run_text (s, posts))).
  - cbn [map concat]. rewrite <- app_assoc. reflexivity.
  - rewrite append_history_at, H. reflexivity.
Qed.

Lemma runs_text runs :
  concat (map run_text runs)
  = concat (map csv_writerow (map history_values (snapshots runs))).
Proof.
  induction runs as [|[s posts] runs IH]; [reflexivity|].
  unfold snapshots. cbn [map concat flat_map fst snd].
  fold (snapshots runs). rewrite !map_app, concat_app, <- IH. f_equal.
  unfold run_text. cbn [fst snd]. rewrite !map_map. reflexivity.
Qed.

Lemma history_read runs fs :
  fs COMMENT_HISTORY_CSV = None -> runs <> [] ->
  option_map csv_read
    (history_after COMMENT_HISTORY_CSV runs fs COMMENT_HISTORY_CSV)
  = Some (HISTORY_FIELDS :: map history_values (snapshots runs)).
Proof.
  intros H Hne. rewrite (history_after_fresh runs fs H Hne), runs_text.
  cbn [option_map]. f_equal.
  apply (csv_read_written
           (HISTORY_FIELDS :: map history_values (snapshots runs))).
  constructor; [discriminate|]. apply Forall_forall. intros r Hr.
  apply in_map_iff in Hr. destruct Hr as (sp & <- & _). discriminate.
Qed.

End HistoryFacts.

Lemma dict_reader_history sps :
  dict_reader (HISTORY_FIELDS :: map history_values sps)
  = map (fun sp => history_dict (fst sp) (snd sp)) sps.
Proof.
  unfold dict_reader. induction sps as [|sp sps IH]; [reflexivity|].
  cbn [map filter]. unfold history_values at 1. cbn [history_row map].
  cbv iota. cbn [map]. f_equal. exact IH.
Qed.

Lemma history_dict_columns s p :
  getitem (txt "snapshot_utc") (history_dict s p) = Some (Some s) /\
  getitem (txt "post_name") (history_dict s p) = Some (Some (name p)) /\
  getitem (txt "num_comments") (history_dict s p)
  = Some (Some (py_str (num_comments p))).
Proof. repeat split. Qed.

Lemma history_dict_labels s p :
  get (txt "is_episode") (history_dict s p)
  = Some (if has_episode_code p then txt "1" else txt "0") /\
  get (txt "episode_code") (history_dict s p) = Some (code_of p) /\
  get (txt "title") (history_dict s p) = Some (title p).
Proof.
  split; [|split; reflexivity].
  unfold get, history_dict, history_row.
  destruct (has_episode_code p); reflexivity.
Qed.

Section RunFacts.

Variable parse_dt : text -> option Z.

Lemma point_of_history s p :
  point_of parse_dt (history_dict s p)
  = match parse_dt s with
    | Some dt => Some (Some (name p), (dt, num_comments p, history_dict s p))
    | None => None
    end.
Proof.
  unfold point_of. destruct (history_dict_columns s p) as (E1 & E2 & E3).
  rewrite E1, E2, E3. cbn [parse_dt_value jvalue_of].
  destruct (parse_dt s); [|reflexivity].
  unfold safe_int. rewrite py_int_str. reflexivity.
Qed.

Lemma points_named_app k rows1 rows2 :
  points_named parse_dt k (rows1 ++ rows2)
  = points_named parse_dt k rows1 ++ points_named parse_dt k rows2.
Proof.
  unfold points_named, points.
  rewrite flat_map_app, filter_app, map_app. reflexivity.
Qed.

Lemma points_named_run k s posts :
  points_named parse_dt k
    (map (fun sp => history_dict (fst sp) (snd sp)) (map (pair s) posts))
  = match k, parse_dt s with
    | Some nm, Some dt =>
        map (fun p => (dt, num_comments p, history_dict s p))
          (filter (fun p => text_eqb nm (name p)) posts)
    | _, _ => []
    end.
Proof.
  induction posts as [|p posts IH].
  - destruct k; [destruct (parse_dt s)|]; reflexivity.
  - change (map (fun sp => history_dict (fst sp) (snd sp))
              (map (pair s) (p :: posts)))
      with ([history_dict s p]
            ++ map (fun sp => history_dict (fst sp) (snd sp))
                 (map (pair s) posts)).
    rewrite points_named_app, IH.
    unfold points_named, points. cbn [flat_map]. rewrite point_of_history.
    destruct (parse_dt s) as [dt|].
    + cbn [app filter fst]. destruct k as [nm|]; cbn [name_eqb].
      * cbn [filter]. destruct (text_eqb nm (name p)); reflexivity.
      * reflexivity.
    + destruct k; reflexivity.
Qed.

Lemma points_named_history k runs :
  points_named parse_dt k
    (map (fun sp => history_dict (fst sp) (snd sp)) (snapshots runs))
  = match k with
    | Some nm => recorded parse_dt nm runs
    | None => []
    end.
Proof.
  induction runs as [|[s posts] runs IH].
  - destruct k; reflexivity.
  - unfold snapshots. cbn [flat_map fst snd]. fold (snapshots runs).
    rewrite map_app, points_named_app, IH, points_named_run.
    unfold recorded. cbn [flat_map fst snd].
    destruct k as [nm|]; [|reflexivity].
    destruct (parse_dt s); reflexivity.
Qed.

(** X20.  From the runs to the plots.  Starting without a history file,
    after one or more runs, each appending its snapshot of the posts it
    fetched, [make_plots] finds for every post name exactly the points
    the runs recorded for it: one per run whose snapshot time parses and
    post of that name, with the comment count the post had in that run,
    ordered by time; the row of a point tells whether the post had an
    episode code, which code, and its title. *)
Theorem make_plots_after_runs (COMMENT_HISTORY_CSV : text) (runs : runs_t)
    (fs : files) :
  fs COMMENT_HISTORY_CSV = None -> runs <> [] ->
  exists by_post,
    make_plots parse_dt COMMENT_HISTORY_CSV
      (history_after COMMENT_HISTORY_CSV runs fs)
    = Plots (episode_lines by_post) (other_lines by_post) /\
    NoDup (map fst by_post) /\
    series_at None by_post = [] /\
    (forall nm,
       series_at (Some nm) by_post
       = sorted_by Z.ltb point_time (recorded parse_dt nm runs)) /\
    (forall k, oldest_first (series_at k by_post)) /\
    forall s p,
      get (txt "is_episode") (history_dict s p)
      = Some (if has_episode_code p then txt "1" else txt "0") /\
      get (txt "episode_code") (history_dict s p) = Some (code_of p) /\
      get (txt "title") (history_dict s p) = Some (title p).
Proof.
  intros Hfs Hne.
  pose proof (history_read COMMENT_HISTORY_CSV runs fs Hfs Hne) as Hread.
  assert (Hcols : has_columns
            (dict_reader (HISTORY_FIELDS
                          :: map history_values (snapshots runs)))).
  { apply dict_reader_columns; simpl; auto 12. }
  destruct (series_of_rows parse_dt _ Hcols) as (bp & E & Hnd & Hs).
  exists bp.
  assert (Hh : history_series parse_dt COMMENT_HISTORY_CSV
                 (history_after COMMENT_HISTORY_CSV runs fs)
               = Some (Some bp)).
  { unfold history_series.
    destruct (history_after COMMENT_HISTORY_CSV runs fs COMMENT_HISTORY_CSV)
      as [content|]; [|discriminate Hread].
    cbn [option_map] in Hread. injection Hread as Hread.
    rewrite Hread, E. reflexivity. }
  split; [unfold make_plots; rewrite Hh; reflexivity|].
  split; [exact Hnd|].
  assert (Hk : forall k,
            series_at k bp
            = sorted_by Z.ltb point_time
                match k with
                | Some nm => recorded parse_dt nm runs
                | None => []
                end).
  { intros k. rewrite Hs, dict_reader_history, points_named_history.
    reflexivity. }
  split; [exact (Hk None)|]. split; [intros nm; exact (Hk (Some nm))|].
  split; [intros k; rewrite Hk; apply sorted_by_oldest_first|].
  apply history_dict_labels.
Qed.

End RunFacts.

Lemma make_plots_after_runs_witness :
  exists by_post,
    make_plots seconds (txt "h.csv")
      (history_after (txt "h.csv") two_runs (fun _ => None))
    = Plots (episode_lines by_post) (other_lines by_post) /\
    NoDup (map fst by_post) /\
    series_at None by_post = [] /\
    (forall nm,
       series_at (Some nm) by_post
       = sorted_by Z.ltb point_time (recorded seconds nm two_runs)) /\
    (forall k, oldest_first (series_at k by_post)) /\
    forall s p,
      get (txt "is_episode") (history_dict s p)
      = Some (if has_episode_code p then txt "1" else txt "0") /\
      get (txt "episode_code") (history_dict s p) = Some (code_of p) /\
      get (txt "title") (history_dict s p) = Some (title p).
Proof.
  apply (make_plots_after_runs seconds (txt "h.csv") two_runs (fun _ => None)).
  - reflexivity.
  - discriminate.
Defined.

Example two_runs_plots :
  make_plots seconds (txt "h.csv")
    (history_after (txt "h.csv") two_runs (fun _ => None))
  = Plots []
      [ {| label := Some (txt "Show, renewed"); cut := false;
           xs := [10; 20]; ys := [5; 7] |};
        {| label := Some (txt "Show, renewed"); cut := false;
           xs := [10]; ys := [1] |} ].
Proof. vm_compute. reflexivity. Qed.

(* ================================================================== *)
(** * A history file without its header *)
(* ================================================================== *)

Lemma dict_get_absent {V} k (d : list (text * V)) :
  ~ In k (map fst d) -> dict_get k d = None.
Proof.
  induction d as [|[k0 v] d IH]; intros H; [reflexivity|].
  cbn [dict_get]. destruct (text_eqb k k0) eqn:E.
  - apply text_eqb_eq in E. subst k0. exfalso. apply H. left. reflexivity.
  - apply IH. intros Hin. apply H. right. exact Hin.
Qed.

Lemma dict_row_lacks fieldnames record k :
  ~ In k fieldnames -> getitem k (dict_row fieldnames record) = None.
Proof.
  intros H. apply dict_get_absent. intros Hin. apply H.
  unfold dict_row in Hin.
  rewrite map_app, !map_rev, map_map, fst_combine, length_map in Hin.
  cbn [fst] in Hin. rewrite map_id in Hin.
  rewrite <- (firstn_skipn (length record) fieldnames).
  apply in_app_or in Hin. apply in_or_app.
  destruct Hin as [Hin|Hin]; [right|left]; apply in_rev; exact Hin.
Qed.

(** X21.  [ensure_history_header] writes the header only when the file
    does not exist.  On a history file that exists and is empty,
    [append_history] therefore writes rows without a header; the reader
    then takes the first post's row for the header, and, unless that row
    holds the text "snapshot_utc", [make_plots] raises KeyError as soon as
    a second row follows, and draws nothing when none does. *)
Theorem append_history_empty_file (parse_dt : text -> option Z)
    (COMMENT_HISTORY_CSV snapshot_utc : text) (p : Post) (rest : list Post)
    (fs : files) :
  fs COMMENT_HISTORY_CSV = Some [] ->
  ~ In (txt "snapshot_utc") (history_values (snapshot_utc, p)) ->
  records_of (append_history COMMENT_HISTORY_CSV snapshot_utc (p :: rest) fs)
    COMMENT_HISTORY_CSV
  = Some (map history_values (map (pair snapshot_utc) (p :: rest))) /\
  make_plots parse_dt COMMENT_HISTORY_CSV
    (append_history COMMENT_HISTORY_CSV snapshot_utc (p :: rest) fs)
  = match rest with
    | [] => Plots [] []
    | _ :: _ => KeyError
    end.
Proof.
  intros Hfs Hp.
  assert (Hc : append_history COMMENT_HISTORY_CSV snapshot_utc (p :: rest) fs
                 COMMENT_HISTORY_CSV
               = Some (concat (map csv_writerow
                    (map history_values
                       (map (pair snapshot_utc) (p :: rest)))))).
  { rewrite append_history_at, Hfs. cbn [app fst snd].
    rewrite !map_map. reflexivity. }
  assert (Hr : csv_read (concat (map csv_writerow
                 (map history_values (map (pair snapshot_utc) (p :: rest)))))
               = map history_values (map (pair snapshot_utc) (p :: rest))).
  { apply csv_read_written. apply Forall_forall. intros r Hin.
    apply in_map_iff in Hin. destruct Hin as (sp & <- & _). discriminate. }
  split.
  - unfold records_of. rewrite Hc. cbn [option_map]. rewrite Hr. reflexivity.
  - unfold make_plots, history_series. rewrite Hc, Hr.
    destruct rest as [|q rest]; [reflexivity|].
    cbn [map]. unfold dict_reader.
    unfold history_values at 2. cbn [history_row map fst snd filter].
    cbn [map group_rows].
    rewrite (dict_row_lacks _ _ _ Hp). reflexivity.
Qed.

Lemma append_history_empty_file_witness :
  records_of
    (append_history (txt "h.csv") (txt "10")
       (sample_post (txt "a") 5 1 false :: [sample_post (txt "b") 1 1 true])
       (fun _ => Some []))
    (txt "h.csv")
  = Some (map history_values
            (map (pair (txt "10"))
               (sample_post (txt "a") 5 1 false
                :: [sample_post (txt "b") 1 1 true]))) /\
  make_plots seconds (txt "h.csv")
    (append_history (txt "h.csv") (txt "10")
       (sample_post (txt "a") 5 1 false :: [sample_post (txt "b") 1 1 true])
       (fun _ => Some []))
  = KeyError.
Proof.
  apply (append_history_empty_file seconds (txt "h.csv") (txt "10")
           (sample_post (txt "a") 5 1 false)
           [sample_post (txt "b") 1 1 true] (fun _ => Some [])).
  - reflexivity.
  - simpl. intuition discriminate.
Defined.

(* ================================================================== *)
(** * The dashboard *)
(* ================================================================== *)

Lemma episode_posts_have_code posts :
  Forall (fun p => has_episode_code p = true) (episode_posts posts).
Proof.
  apply Forall_forall. intros p Hp. unfold episode_posts in Hp.
  apply (Permutation_in _ (sorted_by_perm code_time_ltb episode_key _)) in Hp.
  apply filter_In in Hp. apply Hp.
Qed.

(** X22.  The type column of the dashboard.  [main] hands
    [write_dashboard_html] the episode posts and the other posts: every
    row of the first table is typed "Episode" and every row of the second
    "Other", and each row shows its type in a cell.  The dashboard and
    the selected-posts file agree on the type of a post except for a
    trailer that has an episode code, which the file calls "Trailer" and
    the dashboard "Episode". *)
Theorem dashboard_kinds (posts : list Post) (n : Z) :
  Forall (fun p => kind p = txt "Episode") (episode_posts posts) /\
  Forall (fun p => kind p = txt "Other") (pick_other_posts posts n) /\
  (forall p, contains (txt "<td>" ++ kind p ++ txt "</td>") (row_for p)
             = true) /\
  (forall p, kind p = sel_type p <->
             ~ (is_trailer p = true /\ has_episode_code p = true)).
Proof.
  split; [|split; [|split]].
  - eapply Forall_impl; [|apply episode_posts_have_code].
    intros p H. unfold kind. rewrite H. reflexivity.
  - destruct (pick_other_posts_prefix posts n) as (H & _).
    eapply Forall_impl; [|exact H].
    intros p (_ & He & Ht). unfold kind. rewrite He, Ht. reflexivity.
  - intros p. apply contains_spec. unfold row_for. cbv zeta.
    exists ([LF] ++ txt "        <tr>" ++ [LF] ++ txt "          ").
    eexists. rewrite <- !app_assoc. reflexivity.
  - intros p. unfold kind, sel_type.
    destruct (is_trailer p), (has_episode_code p); split;
      try discriminate; try tauto; try reflexivity.
    + intros _ [_ H]. discriminate H.
    + intros _ [H _]. discriminate H.
    + intros _ [H _]. discriminate H.
Qed.
